(** * Srh search service: aggregated search, file search, suggestions and
    rate limiting

    A shallow embedding of [src/services/searchService.js],
    [src/database/queries.js], the search routes and the rate-limiter
    middleware, followed by the properties proved about them. The
    validation middleware, the data service and the route that adds an
    entry are embedded after them, with properties of their own.

    Conventions.
    - A JavaScript string is a [string], one character per code unit, so
      that [String.length] is its [.length]. [String.prototype.toLowerCase]
      is a function of the platform ([String_toLowerCase]): nothing is
      assumed of the letters it lowers or of the length of its result.
    - A JavaScript number is a rational [Q] where it may be fractional (the
      relevance score, the value a comparison function returns) and an
      integer [Z] where the code only produces integers (match counts,
      limits, sizes, timestamps in milliseconds).
    - A promise that may reject is a value of type [string + A], the error
      message on the left; [await] inside [try]/[catch] is a case analysis
      on it.
    - [Array.prototype.sort] is the stable insertion sort [js_sort]. With
      a comparison function that orders by a key, every stable sort
      returns the same array. The comparison function of the aggregator is
      not of that kind (it answers 0 for results it cannot compare), and
      on an arbitrary array the order it gives depends on how the engine
      sorts. The facts about the aggregator's order are therefore stated
      for the arrays that reach its sort, in which web, local and file
      results follow one another in this order: there a result is only
      ever moved before results of its own kind, by insertion with linear
      search as by insertion with binary search or the merging of
      runs.
    - A property of a parsed request body is an [option json], [None]
      standing for [undefined].
    - The functions that write to the store take the store and return
      their result together with the store as it is afterwards. *)

From Stdlib Require Import ZArith QArith Lqa List String Ascii Bool Lia.
From Stdlib Require Import Qminmax Permutation Sorted.
From stdpp Require gmap strings.
Import ListNotations.

Set Implicit Arguments.
Open Scope string_scope.
Open Scope list_scope.
Open Scope Z_scope.

(** ** JavaScript strings *)

Module JsString.

(** The lower-case letter of an ASCII letter [A-Z]; any other code unit
    as it is. This is the case folding of the store's [LIKE]. *)
Definition lowerAscii (c : ascii) : ascii :=
  let n := nat_of_ascii c in
  if ((65 <=? n) && (n <=? 90))%nat then ascii_of_nat (n + 32) else c.

(** The lower-case letter of a code unit below 256: the letters [A-Z],
    U+00C0 to U+00D6 and U+00D8 to U+00DE have one, 32 higher; the
    multiplication sign U+00D7 and all other code units stay. *)
Definition lowerLatin1 (c : ascii) : ascii :=
  let n := nat_of_ascii c in
  if ((65 <=? n) && (n <=? 90)
      || (192 <=? n) && (n <=? 222) && negb (n =? 215))%nat
  then ascii_of_nat (n + 32) else c.

(** [s.toLowerCase()] for a string of code units below 256, as the
    platform of the examples has it. *)
Fixpoint toLowerCase (s : string) : string :=
  match s with
  | EmptyString => EmptyString
  | String c s' => String (lowerLatin1 c) (toLowerCase s')
  end.

(** [s.startsWith(p)] *)
Fixpoint startsWith (s p : string) : bool :=
  match p, s with
  | EmptyString, _ => true
  | String _ _, EmptyString => false
  | String b p', String a s' => Ascii.eqb a b && startsWith s' p'
  end.

(** [s.includes(sub)] *)
Fixpoint includes (s sub : string) : bool :=
  startsWith s sub ||
  match s with
  | EmptyString => false
  | String _ s' => includes s' sub
  end.

(** [s.substring(0, n)] for [0 <= n] *)
Fixpoint substring0 (n : nat) (s : string) : string :=
  match n, s with
  | O, _ => EmptyString
  | S _, EmptyString => EmptyString
  | S n', String c s' => String c (substring0 n' s')
  end.

(** Truthiness of a string value: only the empty string is falsy. *)
Definition truthy (s : string) : bool :=
  match s with EmptyString => false | String _ _ => true end.

(** Truthiness of a possibly [undefined]/[null] string. *)
Definition truthyOpt (o : option string) : bool :=
  match o with Some s => truthy s | None => false end.

(** [array.includes(x)] on an array of strings *)
Definition arrayIncludes (a : list string) (x : string) : bool :=
  existsb (String.eqb x) a.

End JsString.

(** ** JavaScript arrays *)

Module JsArray.

(** [a.slice(0, limit)] for an integer [limit]: a negative [limit] counts
    from the end of the array. *)
Definition slice0 {A : Type} (limit : Z) (a : list A) : list A :=
  if limit <? 0
  then firstn (Z.to_nat (Z.max (Z.of_nat (List.length a) + limit) 0)) a
  else firstn (Z.to_nat limit) a.

Section Sort.
Variable A : Type.
(** The comparison function: a negative, zero or positive number. *)
Variable comparefn : A -> A -> Q.

(** One insertion: [element] is moved left over every neighbour [tmp]
    with [comparefn(tmp, element) > 0] and stops at the first one that
    is not. The already sorted part is kept reversed, nearest neighbour
    first. *)
Fixpoint shiftIn (element : A) (sortedRev : list A) : list A :=
  match sortedRev with
  | [] => [element]
  | tmp :: rest =>
      match (comparefn tmp element ?= 0)%Q with
      | Gt => tmp :: shiftIn element rest
      | _ => element :: sortedRev
      end
  end.

Definition sortLoop (a : list A) (sortedRev : list A) : list A :=
  fold_left (fun acc element => shiftIn element acc) a sortedRev.

(** [a.sort(comparefn)] *)
Definition js_sort (a : list A) : list A := rev (sortLoop a []).

(** An element that no comparison ever moves: it passes nothing and
    nothing passes it. *)
Definition inert (a : A) : Prop :=
  forall x, (comparefn a x ?= 0)%Q <> Gt /\ (comparefn x a ?= 0)%Q <> Gt.

End Sort.

(** Ascending, respectively descending, in a numeric key. *)
Definition ascendingBy {A : Type} (key : A -> Q) (a : list A) : Prop :=
  StronglySorted (fun x y => (key x <= key y)%Q) a.

Definition descendingBy {A : Type} (key : A -> Q) (a : list A) : Prop :=
  StronglySorted (fun x y => (key y <= key x)%Q) a.

End JsArray.

(** ** Node.js [path] *)

Module Path.

(** Position of the last ['.'] of [s], counted from [i]. *)
Fixpoint lastDotFrom (i : nat) (s : string) : option nat :=
  match s with
  | EmptyString => None
  | String c s' =>
      match lastDotFrom (S i) s' with
      | Some j => Some j
      | None => if Ascii.eqb c "."%char then Some i else None
      end
  end.

Fixpoint dropChars (n : nat) (s : string) : string :=
  match n, s with
  | O, _ => s
  | S _, EmptyString => EmptyString
  | S n', String _ s' => dropChars n' s'
  end.

(** [path.extname(name)] for a directory entry name (no separator): the
    part from the last dot on, empty when there is no dot, when the only
    dot is the first character, and for [".."]. *)
Definition extname (name : string) : string :=
  match lastDotFrom 0 name with
  | None => ""
  | Some O => ""
  | Some j => if String.eqb name ".." then "" else dropChars j name
  end.

End Path.

(** ** What the code takes from its platform

    Library functions whose behaviour is only used through their result:
    [JSON.parse], [encodeURIComponent], [path.join],
    [String.prototype.toLowerCase], the number of matches of a global
    regular expression, and the distance computed by the fuzzy matcher.
    [None] stands for a thrown exception (or, for the distance, a field
    that is not scored). *)

#[local] Unset Elimination Schemes.
Inductive json : Type :=
| JNull
| JBool (b : bool)
| JNum (q : Q)
| JStr (s : string)
| JArr (items : list json)
| JObj (fields : list (string * json)).
#[local] Set Elimination Schemes.

Class Host : Type := {
  JSON_parse : string -> option json;
  encodeURIComponent : string -> option string;
  path_join : string -> string -> string;
  (** [s.toLowerCase()] *)
  String_toLowerCase : string -> string;
  (** [(text.match(new RegExp(pattern, 'g')) || []).length] *)
  regexMatchCount : string -> string -> option nat;
  (** distance of a query to one searchable field, 0 = exact *)
  fieldDistance : string -> string -> option Q
}.

(** ** The record store (src/database/queries.js) *)

Module Sql.
Import JsString.

Definition eqNoCase (a b : ascii) : bool :=
  Ascii.eqb (lowerAscii a) (lowerAscii b).

(** SQLite's [text LIKE pattern] (no ESCAPE clause): [%] stands for any
    sequence of characters, [_] for any single character, and letters
    compare without regard to ASCII case. *)
Fixpoint like (pattern : string) : string -> bool :=
  match pattern with
  | EmptyString => fun text => negb (truthy text)
  | String p pattern' =>
      if Ascii.eqb p "%"%char then
        fix anySeq (text : string) : bool :=
          like pattern' text ||
          match text with
          | EmptyString => false
          | String _ text' => anySeq text'
          end
      else if Ascii.eqb p "_"%char then
        fun text =>
          match text with
          | EmptyString => false
          | String _ text' => like pattern' text'
          end
      else
        fun text =>
          match text with
          | EmptyString => false
          | String c text' => eqNoCase p c && like pattern' text'
          end
  end.

(** The parameter [`%${query}%`] *)
Definition containsPattern (query : string) : string :=
  ("%" ++ query ++ "%")%string.

(** [column LIKE ?]; a NULL column never matches. *)
Definition columnLike (column : option string) (pattern : string) : bool :=
  match column with
  | Some text => like pattern text
  | None => false
  end.

(** [column = ?] *)
Definition columnEq (column : option string) (value : string) : bool :=
  match column with
  | Some text => String.eqb text value
  | None => false
  end.

(** [LIMIT n]: a negative [n] means no limit. *)
Definition limitRows {A : Type} (n : Z) (rows : list A) : list A :=
  if n <? 0 then rows else firstn (Z.to_nat n) rows.

Definition signOf (c : comparison) : Q :=
  match c with Lt => -1 | Eq => 0 | Gt => 1 end.

(** [ORDER BY] with the given row comparison, keeping the table order of
    rows that compare equal. *)
Definition orderBy {A : Type} (cmp : A -> A -> comparison) (rows : list A)
  : list A :=
  JsArray.js_sort (fun a b => signOf (cmp a b)) rows.

End Sql.

(** A row of [data_entries]. *)
Record dataRow : Type := {
  row_id : Z;
  row_title : string;
  row_content : string;
  row_category : option string;
  row_tags : option string;
  row_metadata : option string;
  row_created_at : string;
  row_updated_at : string
}.

(** A row as [parseDataEntry] returns it; [relevance_score] is the extra
    column of the fuzzy query. *)
Record dataEntry : Type := {
  id : Z;
  title : string;
  content : string;
  category : option string;
  tags : json;
  metadata : json;
  created_at : string;
  updated_at : string;
  relevance_score : option Z
}.

(** A call to the store, as seen from outside. *)
Inductive dbCall : Type :=
| CallGetDataFromDB (category : option string)
| CallSearchDataInDB (query : string) (limit : Z) (category : option string)
    (fuzzy : bool).

(** The table, or [None] when the database rejects every query. *)
Definition database : Type := option (list dataRow).

(** A computation that logs its calls to the store and either fails with
    an error message or returns a value. *)
Definition M (A : Type) : Type := (list dbCall * (string + A))%type.

Definition ret {A : Type} (a : A) : M A := ([], inr a).

Definition throw {A : Type} (message : string) : M A := ([], inl message).

Definition bind {A B : Type} (m : M A) (k : A -> M B) : M B :=
  match m with
  | (log, inl e) => (log, inl e)
  | (log, inr a) => let (log', r) := k a in (log ++ log', r)
  end.

(** [try { m } catch (error) { handler error }] *)
Definition tryCatch {A : Type} (m : M A) (handler : string -> M A) : M A :=
  match m with
  | (log, inl e) => let (log', r) := handler e in (log ++ log', r)
  | (log, inr a) => (log, inr a)
  end.

Definition logCall (c : dbCall) : M unit := ([c], inr tt).

Definition calls {A : Type} (m : M A) : list dbCall := fst m.

Definition outcome {A : Type} (m : M A) : string + A := snd m.

Notation "x <- m ;; k" := (bind m (fun x => k))
  (at level 100, m at next level, right associativity).

Module Queries.
Import JsString.

Definition runQuery {A : Type} (db : database) (call : dbCall)
  (select : list dataRow -> A) : M A :=
  _ <- logCall call ;;
  match db with
  | Some rows => ret (select rows)
  | None => throw "SQLITE_ERROR"
  end.

(** [JSON.parse(text || fallback)] inside [try]/[catch] with [onError] *)
Definition parseOr `{Host} (column : option string) (fallback : string)
  (onError : json) : json :=
  let text := if truthyOpt column
              then match column with Some t => t | None => fallback end
              else fallback in
  match JSON_parse text with
  | Some j => j
  | None => onError
  end.

Definition parseDataEntry `{Host} (row : dataRow) (relevance : option Z)
  : dataEntry :=
  {| id := row_id row;
     title := row_title row;
     content := row_content row;
     category := row_category row;
     tags := parseOr (row_tags row) "[]" (JArr []);
     metadata := parseOr (row_metadata row) "{}" (JObj []);
     created_at := row_created_at row;
     updated_at := row_updated_at row;
     relevance_score := relevance |}.

(** [title LIKE ? OR content LIKE ? OR tags LIKE ?] *)
Definition matchesPattern (pattern : string) (row : dataRow) : bool :=
  Sql.like pattern (row_title row) ||
  Sql.like pattern (row_content row) ||
  Sql.columnLike (row_tags row) pattern.


(** The [CASE ... END as relevance_score] column *)
Definition relevanceCase (pattern : string) (row : dataRow) : Z :=
  if Sql.like pattern (row_title row) then 3
  else if Sql.like pattern (row_content row) then 2
  else if Sql.columnLike (row_tags row) pattern then 1
  else 0.

(** [AND category = ?], added when [category] is truthy *)
Definition categoryFilter (category : option string) (row : dataRow) : bool :=
  if truthyOpt category
  then match category with
       | Some c => Sql.columnEq (row_category row) c
       | None => true
       end
  else true.

(** [ORDER BY updated_at DESC] *)
Definition byUpdatedDesc (a b : dataRow) : comparison :=
  String.compare (row_updated_at b) (row_updated_at a).

(** [ORDER BY relevance_score DESC, updated_at DESC] *)
Definition byRelevanceThenUpdatedDesc (pattern : string) (a b : dataRow)
  : comparison :=
  match Z.compare (relevanceCase pattern b) (relevanceCase pattern a) with
  | Eq => byUpdatedDesc a b
  | c => c
  end.

(** [getDataFromDB({ category })]: the only form the search service uses
    (no [search], [limit] or [offset]). *)
Definition getDataFromDB `{Host} (db : database) (category : option string)
  : M (list dataEntry) :=
  runQuery db (CallGetDataFromDB category)
    (fun rows =>
       map (fun row => parseDataEntry row None)
         (Sql.orderBy byUpdatedDesc (filter (categoryFilter category) rows))).

Record searchOptions : Type := {
  so_limit : option Z;
  so_category : option string;
  so_fuzzy : option bool
}.

Definition selectFuzzy (pattern : string) (category : option string)
  (limit : Z) (rows : list dataRow) : list (dataRow * option Z) :=
  map (fun row => (row, Some (relevanceCase pattern row)))
    (Sql.limitRows limit
       (Sql.orderBy (byRelevanceThenUpdatedDesc pattern)
          (filter (fun row => matchesPattern pattern row
                              && categoryFilter category row) rows))).

Definition selectExact (pattern : string) (category : option string)
  (limit : Z) (rows : list dataRow) : list (dataRow * option Z) :=
  map (fun row => (row, None))
    (Sql.limitRows limit
       (Sql.orderBy byUpdatedDesc
          (filter (fun row => matchesPattern pattern row
                              && categoryFilter category row) rows))).

Definition searchDataInDB `{Host} (db : database) (query : string)
  (options : searchOptions) : M (list dataEntry) :=
  let limit := match so_limit options with Some l => l | None => 20 end in
  let fuzzy := match so_fuzzy options with Some f => f | None => false end in
  let category := so_category options in
  let pattern := Sql.containsPattern query in
  runQuery db (CallSearchDataInDB query limit category fuzzy)
    (fun rows =>
       map (fun r => parseDataEntry (fst r) (snd r))
         (if fuzzy
          then selectFuzzy pattern category limit rows
          else selectExact pattern category limit rows)).

End Queries.

(** ** The fuzzy matcher behind the local search

    The matcher is the fuse.js package, which is not part of the sources;
    this module follows the description of the relevance index. *)

Module Fuse.

(** Modelled from the spec: a scored match, as [search] returns it with
    [includeScore: true]. *)
Record fuseResult : Type := {
  item : dataEntry;
  score : Q
}.

(** Modelled from the spec: the tag list of a record, the strings of its
    [tags] array. *)
Definition tagList (j : json) : list string :=
  match j with
  | JArr items =>
      flat_map (fun i => match i with JStr s => [s] | _ => [] end) items
  | _ => []
  end.

(** Modelled from the spec: the searchable fields of a record,
    [keys: ['title', 'content', 'tags']]. *)
Definition searchableFields (e : dataEntry) : list string :=
  title e :: content e :: tagList (tags e).

(** Modelled from the spec: the better (smaller) of two field scores,
    where a field that is not scored loses. *)
Definition better (a b : option Q) : option Q :=
  match a, b with
  | Some x, Some y => Some (Qmin x y)
  | Some x, None => Some x
  | None, _ => b
  end.

(** Modelled from the spec: a record's score is the minimum distance over
    its searchable fields; a query shorter than [minMatchCharLength: 2]
    is never scored. *)
Definition bestScore `{Host} (query : string) (e : dataEntry) : option Q :=
  if (String.length query <? 2)%nat then None
  else fold_right (fun field acc => better (fieldDistance query field) acc)
         None (searchableFields e).

(** Modelled from the spec: the scored records of a corpus, in corpus
    order. *)
Definition scoreAll `{Host} (query : string) (corpus : list dataEntry)
  : list fuseResult :=
  flat_map (fun e => match bestScore query e with
                     | Some s => [{| item := e; score := s |}]
                     | None => []
                     end) corpus.

(** Modelled from the spec: the order of the output, ascending by
    score. *)
Definition byScore (a b : fuseResult) : Q := score a - score b.

(** Modelled from the spec: only records whose best score is at most the
    threshold are included. *)
Definition withinThreshold (threshold : Q) (r : fuseResult) : bool :=
  Qle_bool (score r) threshold.

(** Modelled from the spec: [new Fuse(corpus, { keys, threshold,
    includeScore: true, minMatchCharLength: 2 }).search(query)] of the
    fuse.js package. Only records whose best score is at most [threshold]
    are included; the output is sorted ascending by score, ties in corpus
    order. *)
Definition search `{Host} (threshold : Q) (query : string)
  (corpus : list dataEntry) : list fuseResult :=
  JsArray.js_sort byScore
    (filter (withinThreshold threshold) (scoreAll query corpus)).

End Fuse.

(** ** The search service (src/services/searchService.js) *)

Module SearchService.
Import JsString.

Record webHit : Type := {
  web_title : string;
  web_url : string;
  web_snippet : string;
  web_source : string
}.

Record fileHit : Type := {
  file_title : string;
  file_path : string;
  file_size : Z;
  file_modified : Z;
  file_matches : Z;
  file_snippet : string
}.

(** A search result object. A web result has neither [score] nor
    [matches]; a local result is a data entry with [source: 'Local
    Database'] and, from the fuzzy search, a [score]; a file result has
    [matches] and [source: 'File System']. *)
Inductive result : Type :=
| WebResult (w : webHit)
| LocalResult (e : dataEntry) (score : option Q)
| FileResult (f : fileHit).

(** [r.title] *)
Definition title_of (r : result) : string :=
  match r with
  | WebResult w => web_title w
  | LocalResult e _ => title e
  | FileResult f => file_title f
  end.

(** [r.content], [None] when the property is undefined *)
Definition content_of (r : result) : option string :=
  match r with
  | LocalResult e _ => Some (content e)
  | _ => None
  end.

(** [r.score] *)
Definition score_of (r : result) : option Q :=
  match r with
  | LocalResult _ s => s
  | _ => None
  end.

(** [r.matches] *)
Definition matches_of (r : result) : option Z :=
  match r with
  | FileResult f => Some (file_matches f)
  | _ => None
  end.

(** Truthiness of a possibly undefined number: [undefined] and [0] are
    falsy. *)
Definition truthyNumber (n : option Q) : bool :=
  match n with
  | Some q => negb (Qeq_bool q 0)
  | None => false
  end.

Definition numberOr0 (n : option Q) : Q :=
  match n with Some q => q | None => 0 end.

Definition matchesNumber (r : result) : option Q :=
  option_map inject_Z (matches_of r).

(** *** searchWeb *)

Definition quoteMark : string := String (ascii_of_nat 34) EmptyString.

Definition searchWeb `{Host} (query : string) (limit : option Z)
  : string + list result :=
  let limit := match limit with Some l => l | None => 10 end in
  match encodeURIComponent query with
  | Some encoded =>
      let mockResults :=
        [ WebResult
            {| web_title :=
                 ("Suchergebnisse für " ++ quoteMark ++ query ++ quoteMark)%string;
               web_url := ("https://example.com/search?q=" ++ encoded)%string;
               web_snippet :=
                 ("Dies ist ein simuliertes Suchergebnis für die Anfrage "
                  ++ quoteMark ++ query ++ quoteMark
                  ++ ". In einer echten Implementierung würde hier eine Search API verwendet werden.")%string;
               web_source := "Web" |};
          WebResult
            {| web_title := (query ++ " - Wikipedia")%string;
               web_url := ("https://de.wikipedia.org/wiki/" ++ encoded)%string;
               web_snippet :=
                 ("Wikipedia-Artikel über " ++ query
                  ++ ". Weitere Informationen finden Sie in der Online-Enzyklopädie.")%string;
               web_source := "Wikipedia" |} ] in
      inr (JsArray.slice0 limit mockResults)
  | None => inl "Web-Suche nicht verfügbar"
  end.

(** *** searchLocal *)

Record localOptions : Type := {
  lo_limit : option Z;
  lo_fuzzy : option bool;
  lo_threshold : option Q;
  lo_suggestionsOnly : option bool;
  lo_category : option string
}.

(** What [searchLocal] resolves to: titles for autocomplete, or result
    objects. *)
Inductive localOutput : Type :=
| Titles (suggestions : list string)
| Entries (results : list result).

Definition fromFuse (r : Fuse.fuseResult) : result :=
  LocalResult (Fuse.item r) (Some (Fuse.score r)).

(** The fuzzy branch once [allData] is loaded. *)
Definition fuzzyResults `{Host} (threshold : Q) (limit : Z) (query : string)
  (allData : list dataEntry) : list result :=
  JsArray.slice0 limit (map fromFuse (Fuse.search threshold query allData)).

Definition searchLocal `{Host} (db : database) (query : string)
  (options : localOptions) : M localOutput :=
  let limit := match lo_limit options with Some l => l | None => 20 end in
  let fuzzy := match lo_fuzzy options with Some f => f | None => true end in
  let threshold :=
    match lo_threshold options with Some t => t | None => (6 # 10)%Q end in
  let suggestionsOnly :=
    match lo_suggestionsOnly options with Some s => s | None => false end in
  let category := lo_category options in
  tryCatch
    (if suggestionsOnly then
       results <- Queries.searchDataInDB db query
                    {| Queries.so_limit := Some 5;
                       Queries.so_category := None;
                       Queries.so_fuzzy := Some true |} ;;
       ret (Titles (map title results))
     else if fuzzy then
       allData <- Queries.getDataFromDB db category ;;
       ret (Entries (fuzzyResults threshold limit query allData))
     else
       results <- Queries.searchDataInDB db query
                    {| Queries.so_limit := Some limit;
                       Queries.so_category := category;
                       Queries.so_fuzzy := None |} ;;
       ret (Entries (map (fun item => LocalResult item None) results)))
    (fun _ => throw "Lokale Suche fehlgeschlagen").


(** *** searchFiles *)

(** What [fs] finds at a path. A file has its text ([None]: it cannot be
    read as text) and its [stat] ([size] and [mtime]; [None]: [fs.stat]
    fails); a directory has its entries ([None]: [fs.readdir] fails);
    anything else is neither a file nor a directory. *)
#[local] Unset Elimination Schemes.
Inductive dirent : Type :=
| File (name : string) (data : option string) (stats : option (Z * Z))
| Directory (name : string) (entries : option (list dirent))
| Special (name : string).
#[local] Set Elimination Schemes.

Definition textExtensions : list string :=
  [".txt"; ".md"; ".js"; ".json"; ".csv"].

Definition unreadable : string := "[Datei konnte nicht gelesen werden]".

Record fileOptions : Type := {
  fo_limit : option Z;
  fo_extensions : option (list string);
  fo_includeContent : option bool
}.

Section Walk.
Context `{Host}.
Variable query : string.
Variable limit : Z.
Variable extensions : list string.
Variable includeContent : bool.

(** [name.toLowerCase().includes(query.toLowerCase())] *)
Definition nameMatches (name : string) : bool :=
  includes (String_toLowerCase name) (String_toLowerCase query).

(** The inner [try]: read the file and count the matches of the query,
    taken as a regular expression, in its lower-cased text. *)
Definition readContent (data : option string) : string * Z :=
  match data with
  | Some text =>
      match regexMatchCount (String_toLowerCase query)
              (String_toLowerCase text) with
      | Some n => (text, Z.of_nat n)
      | None => (unreadable, 0)
      end
  | None => (unreadable, 0)
  end.

Definition snippetOf (text : string) : string :=
  if (200 <? String.length text)%nat
  then (substring0 200 text ++ "...")%string
  else text.

(** One file entry. The boolean tells whether the body threw ([fs.stat]
    failed), which ends the loop over the directory it is in. *)
Definition visitFile (dir name : string) (data : option string)
  (stats : option (Z * Z)) (results : list fileHit) : bool * list fileHit :=
  let fullPath := path_join dir name in
  let ext := Path.extname name in
  if nameMatches name
     || ((List.length extensions =? 0)%nat || arrayIncludes extensions ext)
  then
    let (text, matches) :=
      if includeContent && arrayIncludes textExtensions ext
      then readContent data
      else (EmptyString, 0) in
    if nameMatches name || (0 <? matches) then
      match stats with
      | Some (size, mtime) =>
          (false,
           results ++ [ {| file_title := name;
                           file_path := fullPath;
                           file_size := size;
                           file_modified := mtime;
                           file_matches := matches;
                           file_snippet := snippetOf text |} ])
      | None => (true, results)
      end
    else (false, results)
  else (false, results).

(** [searchInDirectory(dir)], where [node] is what is found at [dir];
    [results] is the array the closure pushes to. *)
Fixpoint searchInDirectory (dir : string) (node : dirent)
  (results : list fileHit) {struct node} : list fileHit :=
  match node with
  | Directory _ (Some entries) =>
      (fix loop (es : list dirent) (results : list fileHit) : list fileHit :=
         match es with
         | [] => results
         | entry :: rest =>
             let (threw, results') :=
               match entry with
               | Directory name _ =>
                   if negb (startsWith name ".")
                   then (false,
                         searchInDirectory (path_join dir name) entry results)
                   else (false, results)
               | File name data stats => visitFile dir name data stats results
               | Special _ => (false, results)
               end in
             if threw then results'
             else if limit <=? Z.of_nat (List.length results') then results'
             else loop rest results'
         end) entries results
  | _ => results
  end.

(** The value a file contributes to the ranking. *)
Definition relevance (f : fileHit) : Z :=
  file_matches f + (if nameMatches (file_title f) then 10 else 0).

Definition byRelevance (a b : fileHit) : Q :=
  inject_Z (relevance b - relevance a).

End Walk.

Definition fileSystem : Type := string -> dirent.

Definition searchFiles `{Host} (fs : fileSystem) (query : string)
  (searchPath : option string) (options : fileOptions) : list result :=
  let searchPath := match searchPath with Some p => p | None => "." end in
  let limit := match fo_limit options with Some l => l | None => 50 end in
  let extensions :=
    match fo_extensions options with
    | Some e => e
    | None => textExtensions
    end in
  let includeContent :=
    match fo_includeContent options with Some b => b | None => true end in
  let results :=
    searchInDirectory query limit extensions includeContent
      searchPath (fs searchPath) [] in
  map FileResult
    (JsArray.slice0 limit (JsArray.js_sort (byRelevance query) results)).

(** *** searchAdvanced *)

(** The [sources] argument as it arrives from the request body: an array
    of names, a string (which also has [includes] and [length]), or a
    value without an [includes] method ([null], a number, an object). *)
Inductive sourcesArg : Type :=
| SourcesArray (names : list string)
| SourcesString (s : string)
| SourcesOther.

(** [sources.includes(name)]; [None] is the TypeError of a value that has
    no such method. *)
Definition sourcesIncludes (sources : sourcesArg) (name : string)
  : option bool :=
  match sources with
  | SourcesArray names => Some (arrayIncludes names name)
  | SourcesString s => Some (includes s name)
  | SourcesOther => None
  end.

Definition sourcesLength (sources : sourcesArg) : Z :=
  match sources with
  | SourcesArray names => Z.of_nat (List.length names)
  | SourcesString s => Z.of_nat (String.length s)
  | SourcesOther => 0
  end.

(** [Math.ceil(limit / n)], for the [n > 0] it is evaluated at. *)
Definition ceilDiv (limit n : Z) : Z := - ((- limit) / n).

Record advancedOptions : Type := {
  ao_limit : option Z;
  ao_path : option string
}.

(** A settled source promise after its [.catch]: the array the source
    resolved to, or the object [{ error, results: [] }]. *)
Inductive settled : Type :=
| ResultArray (results : list result)
| ErrorObject (error : string) (results : list result).

(** [promise.catch(err => ({ error: message, results: [] }))] *)
Definition catchAs (message : string) (promise : string + list result)
  : settled :=
  match promise with
  | inr results => ResultArray results
  | inl _ => ErrorObject message []
  end.

(** The [forEach] that fills [combinedResults]; [result.results] is an
    array and therefore truthy. *)
Definition combine (searchResults : list settled) : list result :=
  flat_map (fun r => match r with
                     | ResultArray results => results
                     | ErrorObject _ results => results
                     end) searchResults.

Definition isDuplicateOf (existing item : result) : bool :=
  String.eqb (title_of existing) (title_of item)
  || (truthyOpt (content_of existing) && truthyOpt (content_of item)
      && match content_of existing, content_of item with
         | Some c, Some c' => String.eqb c c'
         | _, _ => false
         end).

(** Two results neither of which is a duplicate of the other. *)
Definition distinctResults (a b : result) : Prop := isDuplicateOf a b = false.

Definition pushUnique (uniqueResults : list result) (item : result)
  : list result :=
  if existsb (fun existing => isDuplicateOf existing item) uniqueResults
  then uniqueResults
  else uniqueResults ++ [item].

(** The [forEach] that fills [uniqueResults]. *)
Definition removeDuplicates (combinedResults : list result) : list result :=
  fold_left pushUnique combinedResults [].

(** The comparison function of the final sort. *)
Definition advancedCompare (a b : result) : Q :=
  if truthyNumber (score_of a) && truthyNumber (score_of b)
  then numberOr0 (score_of a) - numberOr0 (score_of b)
  else if truthyNumber (matchesNumber a) && truthyNumber (matchesNumber b)
  then numberOr0 (matchesNumber b) - numberOr0 (matchesNumber a)
  else 0.

(** How the comparison function sees a result: with a truthy score, with
    no truthy score and a truthy match count, or with neither. *)
Definition isScored (r : result) : bool := truthyNumber (score_of r).

Definition isCounted (r : result) : bool :=
  negb (truthyNumber (score_of r)) && truthyNumber (matchesNumber r).

Definition isUnranked (r : result) : bool :=
  negb (truthyNumber (score_of r)) && negb (truthyNumber (matchesNumber r)).

(** The two branches of the comparison function on their own. *)
Definition byScoreOnly (a b : result) : Q :=
  numberOr0 (score_of a) - numberOr0 (score_of b).

Definition byCountOnly (a b : result) : Q :=
  numberOr0 (matchesNumber b) - numberOr0 (matchesNumber a).

(** The order a final result list is stated to have, pair by pair: an earlier
    entry [a] and a later entry [b] are in order when two scored entries
    have ascending scores, two count-only entries have descending counts,
    and a count-only entry is not before a scored one. *)
Definition inClaimedOrder (a b : result) : Prop :=
  match score_of a, score_of b with
  | Some sa, Some sb => (sa <= sb)%Q
  | Some _, None => True
  | None, Some _ => matches_of a = None
  | None, None =>
      match matches_of a, matches_of b with
      | Some ma, Some mb => mb <= ma
      | _, _ => True
      end
  end.

Definition claimedOrder (results : list result) : Prop :=
  ForallOrdPairs inClaimedOrder results.

(** Everything after [Promise.all]: combine, deduplicate, sort, cut. *)
Definition aggregate (limit : Z) (searchResults : list settled)
  : list result :=
  JsArray.slice0 limit
    (JsArray.js_sort advancedCompare
       (removeDuplicates (combine searchResults))).

Definition defaultSources : sourcesArg := SourcesArray ["local"; "files"].

(** The promises pushed for the requested sources, in the order web,
    local, files. *)
Definition dispatch (sources : sourcesArg) (web local files : settled)
  : option (list settled) :=
  match sourcesIncludes sources "web",
        sourcesIncludes sources "local",
        sourcesIncludes sources "files" with
  | Some w, Some l, Some f =>
      Some ((if w then [web] else [])
            ++ (if l then [local] else [])
            ++ (if f then [files] else []))
  | _, _, _ => None
  end.

(** The array [searchLocal] resolves to when [suggestionsOnly] is not
    set, as [searchAdvanced] calls it; it never resolves to titles
    then. *)
Definition entriesOf (o : string + localOutput) : string + list result :=
  match o with
  | inr (Entries results) => inr results
  | inr (Titles _) => inr []
  | inl e => inl e
  end.

(** The body of [searchAdvanced] once the three source promises are
    given: each is caught on its own, the requested ones are awaited, and
    only a [sources] value without [includes] reaches the outer [catch]. *)
Definition searchAdvancedWith (sources : sourcesArg) (limit : Z)
  (webSearch localSearch fileSearch : string + list result)
  : string + list result :=
  match dispatch sources
          (catchAs "Web search failed" webSearch)
          (catchAs "Local search failed" localSearch)
          (catchAs "File search failed" fileSearch) with
  | Some searchResults => inr (aggregate limit searchResults)
  | None => inl "Erweiterte Suche fehlgeschlagen"
  end.

Definition searchAdvanced `{Host} (db : database) (fs : fileSystem)
  (query : string) (sources : option sourcesArg) (options : advancedOptions)
  : string + list result :=
  let sources :=
    match sources with Some s => s | None => defaultSources end in
  let limit := match ao_limit options with Some l => l | None => 50 end in
  let share := ceilDiv limit (sourcesLength sources) in
  let path := if truthyOpt (ao_path options) then ao_path options
              else Some "." in
  searchAdvancedWith sources limit
    (searchWeb query (Some share))
    (entriesOf
       (outcome (searchLocal db query
                   {| lo_limit := Some share; lo_fuzzy := None;
                      lo_threshold := None; lo_suggestionsOnly := None;
                      lo_category := None |})))
    (inr (searchFiles fs query path
            {| fo_limit := Some share; fo_extensions := None;
               fo_includeContent := None |})).

(** The array [uniqueResults] as the final sort of [searchAdvanced] finds
    it: the combined results of the requested sources without the
    duplicates. [None]: [sources] has no [includes], and the sort is not
    reached. *)
Definition uniqueResults `{Host} (db : database) (fs : fileSystem)
  (query : string) (sources : option sourcesArg) (options : advancedOptions)
  : option (list result) :=
  let sources :=
    match sources with Some s => s | None => defaultSources end in
  let limit := match ao_limit options with Some l => l | None => 50 end in
  let share := ceilDiv limit (sourcesLength sources) in
  let path := if truthyOpt (ao_path options) then ao_path options
              else Some "." in
  option_map (fun searchResults => removeDuplicates (combine searchResults))
    (dispatch sources
       (catchAs "Web search failed" (searchWeb query (Some share)))
       (catchAs "Local search failed"
          (entriesOf
             (outcome (searchLocal db query
                         {| lo_limit := Some share; lo_fuzzy := None;
                            lo_threshold := None; lo_suggestionsOnly := None;
                            lo_category := None |}))))
       (catchAs "File search failed"
          (inr (searchFiles fs query path
                  {| fo_limit := Some share; fo_extensions := None;
                     fo_includeContent := None |})))).

(** The order in which results reach the final sort, for an earlier
    result [a] and a later result [b]: web results come first, then the
    local results, which the fuzzy search hands over in ascending order
    of score, then the file results. *)
Definition arrivalOrder (a b : result) : Prop :=
  match a, b with
  | WebResult _, _ => True
  | LocalResult _ sa, LocalResult _ sb => (numberOr0 sa <= numberOr0 sb)%Q
  | LocalResult _ _, FileResult _ => True
  | FileResult _, FileResult _ => True
  | _, _ => False
  end.

Definition asArrived (results : list result) : Prop :=
  ForallOrdPairs arrivalOrder results.


End SearchService.

(** ** The search routes *)

Module SearchRoutes.
Import SearchService.

Inductive response : Type :=
| SuggestionsJson (suggestions : list string)
| Status500 (error : string).

(** The options the suggestions route passes to [searchLocal]. *)
Definition suggestionOptions : localOptions :=
  {| lo_limit := Some 5; lo_fuzzy := Some true; lo_threshold := None;
     lo_suggestionsOnly := Some true; lo_category := None |}.

Definition suggestionsFailed : string :=
  "Vorschläge konnten nicht geladen werden".

(** [GET /suggestions]; [q] is [req.query.q], [None] when it is missing.
    With [suggestionsOnly] the local search resolves to titles. *)
Definition getSuggestions `{Host} (db : database) (q : option string)
  : M response :=
  tryCatch
    (match q with
     | None => ret (SuggestionsJson [])
     | Some q =>
         if negb (JsString.truthy q) || (String.length q <? 2)%nat
         then ret (SuggestionsJson [])
         else
           suggestions <- searchLocal db q suggestionOptions ;;
           match suggestions with
           | Titles titles => ret (SuggestionsJson titles)
           | Entries _ => ret (SuggestionsJson [])
           end
     end)
    (fun _ => ret (Status500 suggestionsFailed)).

End SearchRoutes.

(** ** The rate limiter (src/middleware/rateLimiter.js) *)

Module RateLimiter.
Import stdpp.base stdpp.option stdpp.fin_maps stdpp.gmap stdpp.strings.
#[local] Open Scope Z_scope.

Inductive tier : Type := API | Search | DataMutation | Import.

(** The options a limiter is constructed with; durations in seconds. *)
Record limiterOptions : Type := {
  keyPrefix : string;
  points : Z;
  duration : Z;
  blockDuration : Z
}.

Definition apiRateLimiter : limiterOptions :=
  {| keyPrefix := "api_limit"; points := 100; duration := 60;
     blockDuration := 60 |}.

Definition searchRateLimiter : limiterOptions :=
  {| keyPrefix := "search_limit"; points := 30; duration := 60;
     blockDuration := 120 |}.

Definition dataModificationRateLimiter : limiterOptions :=
  {| keyPrefix := "data_mod_limit"; points := 10; duration := 60;
     blockDuration := 300 |}.

Definition importRateLimiter : limiterOptions :=
  {| keyPrefix := "import_limit"; points := 3; duration := 3600;
     blockDuration := 3600 |}.

Definition limiterOf (t : tier) : limiterOptions :=
  match t with
  | API => apiRateLimiter
  | Search => searchRateLimiter
  | DataMutation => dataModificationRateLimiter
  | Import => importRateLimiter
  end.

(** Times are in milliseconds, as [Date.now()] gives them. *)
Definition windowMs (o : limiterOptions) : Z := duration o * 1000.
Definition blockMs (o : limiterOptions) : Z := blockDuration o * 1000.

(** Modelled from the spec: the counter kept per key by the
    rate-limiter-flexible package, which is not part of the sources. *)
Record counter : Type := {
  consumed : Z;
  windowStart : Z;
  blockedUntil : option Z
}.

(** Modelled from the spec: what [consume] answers; a rejection is the
    rejected promise the middleware catches. *)
Inductive consumeResult : Type :=
| Allowed (remaining : Z) (resetAt : Z)
| Rejected (retryAfter : Z) (resetAt : Z).

Definition isAllowed (r : consumeResult) : bool :=
  match r with Allowed _ _ => true | Rejected _ _ => false end.

(** Modelled from the spec: the counter of a key is created on its first
    consumption attempt. *)
Definition counterOf (store : gmap string counter) (key : string) (now : Z)
  : counter :=
  match store !! key with
  | Some c => c
  | None => {| consumed := 0; windowStart := now; blockedUntil := None |}
  end.

(** Modelled from the spec: a window that has elapsed since
    [windowStart] is replaced first: [consumed = 0], [windowStart = now]. *)
Definition refreshWindow (o : limiterOptions) (now : Z) (c : counter)
  : counter :=
  if windowMs o <=? now - windowStart c
  then {| consumed := 0; windowStart := now; blockedUntil := blockedUntil c |}
  else c.

(** Modelled from the spec: blocked while [blockedUntil] is set and
    [now < blockedUntil]. *)
Definition isBlocked (now : Z) (c : counter) : option Z :=
  match blockedUntil c with
  | Some untilMs => if now <? untilMs then Some untilMs else None
  | None => None
  end.

(** Modelled from the spec: [limiter.consume(key)] of the
    rate-limiter-flexible package, which is not part of the sources, as
    the state machine per key: refresh an elapsed window; reject while
    blocked, with [retryAfter = blockedUntil - now]; otherwise increment
    [consumed], allow up to the capacity with [remaining = capacity -
    consumed], and beyond it set [blockedUntil = now + blockDuration] and
    reject. *)
Definition consume (o : limiterOptions) (now : Z) (key : string)
  (store : gmap string counter) : consumeResult * gmap string counter :=
  let c := refreshWindow o now (counterOf store key now) in
  match isBlocked now c with
  | Some untilMs => (Rejected (untilMs - now) untilMs, <[key := c]> store)
  | None =>
      let n := consumed c + 1 in
      if n <=? points o
      then (Allowed (points o - n) (windowStart c + windowMs o),
            <[key := {| consumed := n; windowStart := windowStart c;
                        blockedUntil := blockedUntil c |}]> store)
      else (Rejected (blockMs o) (now + blockMs o),
            <[key := {| consumed := n; windowStart := windowStart c;
                        blockedUntil := Some (now + blockMs o) |}]> store)
  end.

(** Consecutive calls for one key at the given times. *)
Fixpoint consumeAll (o : limiterOptions) (key : string) (times : list Z)
  (store : gmap string counter) : list consumeResult * gmap string counter :=
  match times with
  | [] => ([], store)
  | now :: later =>
      let (r, store') := consume o now key store in
      let (rs, store'') := consumeAll o key later store' in
      (r :: rs, store'')
  end.

(** The counter of an open window after [n] consumptions. *)
Definition openCounter (n : nat) (start : Z) : counter :=
  {| consumed := Z.of_nat n; windowStart := start; blockedUntil := None |}.

(** The answers to calls number [n + 1], [n + 2], ... of the window that
    started at [start]: allowed, with the remaining points counting
    down. *)
Definition allowedFrom (o : limiterOptions) (start : Z) (n count : nat)
  : list consumeResult :=
  List.map (fun i => Allowed (points o - Z.of_nat i) (start + windowMs o))
    (List.seq (S n) count).

(** 29 call times, 300 ms apart, from 300 ms to 8.7 s. *)
Definition halfMinuteOfCalls : list Z :=
  List.map (fun i => Z.of_nat i * 300) (List.seq 1 29).

(** What a rate-limit middleware does with the request. *)
Inductive handled : Type :=
| Next
| TooManyRequests (retryAfterHeader : Z) (limitHeader : Z)
    (remainingHeader : Z) (resetHeader : Z) (error : string)
    (retryAfter : Z).

(** [Math.round(ms / 1000)] *)
Definition roundSeconds (ms : Z) : Z := (ms + 500) / 1000.

(** [searchRateLimit(req, res, next)] for the request of [key] at [now].
    The rejection carries [msBeforeNext = retryAfter] and no remaining
    points. *)
Definition searchRateLimit (now : Z) (key : string)
  (store : gmap string counter) : handled * gmap string counter :=
  match consume searchRateLimiter now key store with
  | (Allowed _ _, store') => (Next, store')
  | (Rejected msBeforeNext _, store') =>
      (TooManyRequests
         (if roundSeconds msBeforeNext =? 0 then 1
          else roundSeconds msBeforeNext)
         30 0 (now + msBeforeNext)
         "Such-Rate-Limit überschritten"
         (roundSeconds msBeforeNext),
       store')
  end.

End RateLimiter.

(** ** Concrete platforms and inputs used in the examples below *)

Module Examples.
Import JsString SearchService.

(** Number of non-overlapping occurrences of a non-empty [pattern] in
    [text], scanning from the left; [skip] characters are still covered
    by the previous occurrence. *)
Fixpoint countLiteralFrom (skip : nat) (pattern text : string) : nat :=
  match text with
  | EmptyString => 0
  | String _ text' =>
      match skip with
      | S k => countLiteralFrom k pattern text'
      | O =>
          if startsWith text pattern
          then S (countLiteralFrom (String.length pattern - 1) pattern text')
          else countLiteralFrom 0 pattern text'
      end
  end.

(** The match count of a pattern made of letters and digits only, for
    which the regular expression matches exactly its literal text. *)
Definition literalMatchCount (pattern text : string) : option nat :=
  Some (if truthy pattern then countLiteralFrom 0 pattern text
        else S (String.length text)).

Definition parseEmptyOnly (text : string) : option json :=
  if String.eqb text "[]" then Some (JArr [])
  else if String.eqb text "{}" then Some (JObj [])
  else None.

(** Distance 0 for a field equal to the query, 3/10 for a field that
    contains it, 8/10 for a field sharing its first letter. *)
Definition sampleDistance (query field : string) : option Q :=
  if String.eqb (toLowerCase field) (toLowerCase query) then Some 0%Q
  else if includes (toLowerCase field) (toLowerCase query) then Some (3 # 10)%Q
  else if startsWith (toLowerCase field) (substring0 1 (toLowerCase query))
       then Some (8 # 10)%Q
  else None.

(** [path.join(dir, name)] for a normalized [dir] and an entry name. *)
Definition joinPath (dir name : string) : string :=
  if String.eqb dir "." then name else (dir ++ "/" ++ name)%string.

(** A platform for queries made of ASCII letters and digits. *)
Definition plainHost : Host :=
  {| JSON_parse := parseEmptyOnly;
     encodeURIComponent := fun s => Some s;
     path_join := joinPath;
     String_toLowerCase := toLowerCase;
     regexMatchCount := literalMatchCount;
     fieldDistance := sampleDistance |}.

(** The same platform with a web search that always fails. *)
Definition webDownHost : Host :=
  {| JSON_parse := parseEmptyOnly;
     encodeURIComponent := fun _ => None;
     path_join := joinPath;
     String_toLowerCase := toLowerCase;
     regexMatchCount := literalMatchCount;
     fieldDistance := sampleDistance |}.

Definition fooFile : dirent :=
  File "foo.txt" (Some "nothing to see here") (Some (19, 1000)).

Definition barFile : dirent :=
  File "bar.txt" (Some "foo foo foo foo foo") (Some (19, 2000)).

(** A directory with [foo.txt], whose name matches the query [foo] and
    whose text does not, and [bar.txt], whose text has it five times. *)
Definition twoFiles : fileSystem :=
  fun _ => Directory "." (Some [fooFile; barFile]).

Definition emptyDisk : fileSystem := fun _ => Directory "." (Some []).

Definition fooHit : fileHit :=
  {| file_title := "foo.txt"; file_path := "foo.txt"; file_size := 19;
     file_modified := 1000; file_matches := 0;
     file_snippet := "nothing to see here" |}.

Definition barHit : fileHit :=
  {| file_title := "bar.txt"; file_path := "bar.txt"; file_size := 19;
     file_modified := 2000; file_matches := 5;
     file_snippet := "foo foo foo foo foo" |}.

Definition filesOnly : option sourcesArg := Some (SourcesArray ["files"]).
Definition webOnly : option sourcesArg := Some (SourcesArray ["web"]).
Definition noSources : option sourcesArg := Some (SourcesArray []).

Definition noOptions : advancedOptions :=
  {| ao_limit := None; ao_path := None |}.

Definition limit10 : advancedOptions :=
  {| ao_limit := Some 10; ao_path := None |}.

Definition sampleRow (n : Z) (t c : string) (tagsJson : option string)
  (updated : string) : dataRow :=
  {| row_id := n; row_title := t; row_content := c;
     row_category := Some "general"; row_tags := tagsJson;
     row_metadata := None; row_created_at := "2024-01-01T00:00:00.000Z";
     row_updated_at := updated |}.

Definition sampleEntry (n : Z) (t c : string) : dataEntry :=
  {| id := n; title := t; content := c; category := Some "general";
     tags := JArr []; metadata := JObj [];
     created_at := "2024-01-01T00:00:00.000Z";
     updated_at := "2024-01-01T00:00:00.000Z";
     relevance_score := None |}.

(** A store with two rows; only the first mentions [ab], in its content. *)
Definition sampleRows : list dataRow :=
  [ sampleRow 1 "Kontakt" "ab" None "2024-02-01T00:00:00.000Z";
    sampleRow 2 "Other" "zzz" (Some "[]") "2024-03-01T00:00:00.000Z" ].

(** A store with two rows for the query [foo]: the title of the first
    contains it, the title of the second is the query. *)
Definition nearAndExact : list dataRow :=
  [ sampleRow 1 "food" "x" None "2024-03-01T00:00:00.000Z";
    sampleRow 2 "foo" "y" None "2024-02-01T00:00:00.000Z" ].

Definition everySource : option sourcesArg :=
  Some (SourcesArray ["web"; "local"; "files"]).

(** The entries of these rows. *)
Definition nearEntry : dataEntry :=
  {| id := 1; title := "food"; content := "x"; category := Some "general";
     tags := JArr []; metadata := JObj [];
     created_at := "2024-01-01T00:00:00.000Z";
     updated_at := "2024-03-01T00:00:00.000Z";
     relevance_score := None |}.

Definition exactEntry : dataEntry :=
  {| id := 2; title := "foo"; content := "y"; category := Some "general";
     tags := JArr []; metadata := JObj [];
     created_at := "2024-01-01T00:00:00.000Z";
     updated_at := "2024-02-01T00:00:00.000Z";
     relevance_score := None |}.

(** The two simulated web results for the query [foo]. *)
Definition fooOnTheWeb : list result :=
  match searchWeb (H := plainHost) "foo" None with
  | inr results => results
  | inl _ => []
  end.

End Examples.

(** ** Listing the store (getDataFromDB in full, and getData of
    src/services/dataService.js) *)

Module DataListing.
Import JsString.

(** Truthiness of a possibly [undefined] integer. *)
Definition truthyInt (n : option Z) : bool :=
  match n with Some z => negb (z =? 0) | None => false end.

Record listOptions : Type := {
  ls_category : option string;
  ls_search : option string;
  ls_limit : option Z;
  ls_offset : option Z;
  ls_all : option bool
}.

(** [AND (title LIKE ? OR content LIKE ? OR tags LIKE ?)], added when
    [search] is truthy *)
Definition searchFilter (search : option string) (row : dataRow) : bool :=
  if truthyOpt search
  then match search with
       | Some s => Queries.matchesPattern (Sql.containsPattern s) row
       | None => true
       end
  else true.

(** [OFFSET n]: a negative [n] counts as 0. *)
Definition offsetRows {A : Type} (n : Z) (rows : list A) : list A :=
  skipn (Z.to_nat n) rows.

(** [LIMIT ?], added when [all] is falsy and [limit] truthy, with
    [OFFSET ?] added when [offset] is truthy as well *)
Definition pageRows {A : Type} (options : listOptions) (rows : list A)
  : list A :=
  let all := match ls_all options with Some a => a | None => false end in
  if negb all && truthyInt (ls_limit options)
  then match ls_limit options with
       | Some limit =>
           Sql.limitRows limit
             (if truthyInt (ls_offset options)
              then match ls_offset options with
                   | Some offset => offsetRows offset rows
                   | None => rows
                   end
              else rows)
       | None => rows
       end
  else rows.

(** The rows the statement of [getDataFromDB] selects. *)
Definition listedRows (options : listOptions) (rows : list dataRow)
  : list dataRow :=
  pageRows options
    (Sql.orderBy Queries.byUpdatedDesc
       (filter (fun row => Queries.categoryFilter (ls_category options) row
                           && searchFilter (ls_search options) row) rows)).

(** [getDataFromDB(options)] with every option *)
Definition getDataFromDB `{Host} (db : database) (options : listOptions)
  : string + list dataEntry :=
  match db with
  | Some rows =>
      inr (map (fun row => Queries.parseDataEntry row None)
             (listedRows options rows))
  | None => inl "SQLITE_ERROR"
  end.

(** The options of [getData] other than [statsOnly], which is taken to
    be falsy. *)
Record getDataOptions : Type := {
  gd_page : option Z;
  gd_limit : option Z;
  gd_category : option string;
  gd_search : option string;
  gd_all : option bool
}.

Record listing : Type := {
  entries : list dataEntry;
  total : Z
}.

Definition unpaged (options : getDataOptions) : listOptions :=
  {| ls_category := gd_category options; ls_search := gd_search options;
     ls_limit := None; ls_offset := None; ls_all := None |}.

(** [getData(options)] *)
Definition getData `{Host} (db : database) (options : getDataOptions)
  : string + listing :=
  let page := match gd_page options with Some p => p | None => 1 end in
  let limit := match gd_limit options with Some l => l | None => 50 end in
  let all := match gd_all options with Some a => a | None => false end in
  let attempt :=
    if all then
      match getDataFromDB db (unpaged options) with
      | inr data =>
          inr {| entries := data; total := Z.of_nat (List.length data) |}
      | inl e => inl e
      end
    else
      let offset := (page - 1) * limit in
      match getDataFromDB db
              {| ls_category := gd_category options;
                 ls_search := gd_search options;
                 ls_limit := Some limit; ls_offset := Some offset;
                 ls_all := None |} with
      | inr data =>
          match getDataFromDB db (unpaged options) with
          | inr totalData =>
              inr {| entries := data;
                     total := Z.of_nat (List.length totalData) |}
          | inl e => inl e
          end
      | inl e => inl e
      end in
  match attempt with
  | inr found => inr found
  | inl message => inl ("Fehler beim Abrufen der Daten: " ++ message)%string
  end.

(** Page [page] of a list cut into pages of [limit] elements. *)
Definition pageOf {A : Type} (limit page : Z) (l : list A) : list A :=
  firstn (Z.to_nat limit) (skipn (Z.to_nat ((page - 1) * limit)) l).

End DataListing.

(** ** Further notions used in the properties below *)

Module Notions.
Import JsString SearchService.

(** The results of a settled source promise. *)
Definition found (promise : string + list result) : list result :=
  match promise with inr results => results | inl _ => [] end.

(** [kept] is [all] with some elements left out, in the same order. *)
Inductive keptFrom {A : Type} : list A -> list A -> Prop :=
| keptNone : keptFrom [] []
| keptThis (x : A) (kept all : list A) :
    keptFrom kept all -> keptFrom (x :: kept) (x :: all)
| keptSkip (x : A) (kept all : list A) :
    keptFrom kept all -> keptFrom kept (x :: all).

(** The first of the two simulated web results for [query]. *)
Definition firstWebResult (query encoded : string) : result :=
  WebResult
    {| web_title :=
         ("Suchergebnisse für " ++ quoteMark ++ query ++ quoteMark)%string;
       web_url := ("https://example.com/search?q=" ++ encoded)%string;
       web_snippet :=
         ("Dies ist ein simuliertes Suchergebnis für die Anfrage "
          ++ quoteMark ++ query ++ quoteMark
          ++ ". In einer echten Implementierung würde hier eine Search API verwendet werden.")%string;
       web_source := "Web" |}.

End Notions.

(** ** Notions for the order of store results *)

Module StoreOrder.

(** The relevance column of an entry, 0 when the query has none. *)
Definition storeRank (e : dataEntry) : Z :=
  match relevance_score e with Some s => s | None => 0 end.

(** [a] may stand before [b] under [ORDER BY relevance_score DESC,
    updated_at DESC]. *)
Definition listedBefore (a b : dataEntry) : Prop :=
  storeRank b < storeRank a
  \/ (storeRank a = storeRank b
      /\ String.compare (updated_at b) (updated_at a) <> Gt).

(** The order of two rows under [ORDER BY relevance DESC, updated_at
    DESC] for an arbitrary relevance column. *)
Definition rowBefore (relevance : dataRow -> Z) (a b : dataRow) : Prop :=
  relevance b < relevance a
  \/ (relevance a = relevance b
      /\ String.compare (row_updated_at b) (row_updated_at a) <> Gt).

(** An entry without its relevance column. *)
Definition withoutScore (e : dataEntry) : dataEntry :=
  {| id := id e; title := title e; content := content e;
     category := category e; tags := tags e; metadata := metadata e;
     created_at := created_at e; updated_at := updated_at e;
     relevance_score := None |}.

(** A query made of percent signs only. *)
Fixpoint allPercent (query : string) : bool :=
  match query with
  | EmptyString => true
  | String c query' => Ascii.eqb c "%"%char && allPercent query'
  end.

End StoreOrder.

(** ** JSON values as JavaScript sees them *)

Module JsValue.
Import JsString.

(** White space and line terminators among the code units up to 255:
    tab, line feed, vertical tab, form feed, carriage return, space and
    the no-break space. *)
Definition isWhiteSpace (c : ascii) : bool :=
  let n := nat_of_ascii c in
  ((9 <=? n) && (n <=? 13) || (n =? 32) || (n =? 160))%nat.

(** [s.trimStart()] *)
Fixpoint trimStart (s : string) : string :=
  match s with
  | EmptyString => EmptyString
  | String c s' => if isWhiteSpace c then trimStart s' else s
  end.

(** [s.trimEnd()] *)
Fixpoint trimEnd (s : string) : string :=
  match s with
  | EmptyString => EmptyString
  | String c s' =>
      match trimEnd s' with
      | EmptyString => if isWhiteSpace c then EmptyString
                       else String c EmptyString
      | rest => String c rest
      end
  end.

(** [s.trim()] *)
Definition trim (s : string) : string := trimEnd (trimStart s).

(** Truthiness of a property of a parsed body; [None] is [undefined]. *)
Definition truthyValue (v : option json) : bool :=
  match v with
  | None => false
  | Some JNull => false
  | Some (JBool b) => b
  | Some (JNum q) => negb (Qeq_bool q 0)
  | Some (JStr s) => truthy s
  | Some (JArr _) => true
  | Some (JObj _) => true
  end.

(** [typeof v === 'string'] *)
Definition isString (v : option json) : bool :=
  match v with Some (JStr _) => true | _ => false end.

(** [Array.isArray(v)] *)
Definition isArray (v : option json) : bool :=
  match v with Some (JArr _) => true | _ => false end.

(** [typeof v === 'object']: also [null] and arrays. *)
Definition typeofObject (v : option json) : bool :=
  match v with
  | Some JNull => true
  | Some (JArr _) => true
  | Some (JObj _) => true
  | _ => false
  end.

(** [obj[name]] on a parsed object; of two fields with one name the
    later one counts. *)
Fixpoint getField (name : string) (fields : list (string * json))
  : option json :=
  match fields with
  | [] => None
  | (key, v) :: rest =>
      match getField name rest with
      | Some w => Some w
      | None => if String.eqb key name then Some v else None
      end
  end.

End JsValue.

(** ** The validation middleware (src/middleware/validation.js) *)

Module Validation.
Import JsString JsValue.

(** What [validateSearchQuery] does with a request: it calls [next()]
    with the query it has rewritten, or answers with status 400. *)
Inductive queryVerdict : Type :=
| NextQuery (query : string)
| QueryStatus400 (error message : string).

(** [validateSearchQuery]: [query] is [req.body.query]; on success the
    trimmed query is written back. *)
Definition validateSearchQuery (query : option json) : queryVerdict :=
  match query with
  | Some (JStr s) =>
      if negb (truthy s) || (String.length (trim s) =? 0)%nat
      then QueryStatus400 "Suchanfrage ist erforderlich"
             "Bitte geben Sie eine gültige Suchanfrage ein"
      else if (500 <? String.length s)%nat
      then QueryStatus400 "Suchanfrage zu lang"
             "Suchanfrage darf maximal 500 Zeichen lang sein"
      else NextQuery (trim s)
  | _ =>
      (* [!query || typeof query !== 'string'] *)
      QueryStatus400 "Suchanfrage ist erforderlich"
        "Bitte geben Sie eine gültige Suchanfrage ein"
  end.

(** The fields [validateDataInput] reads from [req.body]. *)
Record dataBody : Type := {
  body_title : option json;
  body_content : option json;
  body_category : option json;
  body_tags : option json;
  body_metadata : option json
}.

(** What [validateDataInput] does with a request: it calls [next()]
    with the body it has rewritten, answers with status 400 and the list
    of complaints, or throws a [TypeError]. *)
Inductive bodyVerdict : Type :=
| NextBody (body : dataBody)
| BodyStatus400 (error : string) (messages : list string)
| Throws.

Definition titleRequired : string :=
  "Titel ist erforderlich und muss ein nicht-leerer String sein".
Definition contentRequired : string :=
  "Inhalt ist erforderlich und muss ein nicht-leerer String sein".
Definition categoryNotString : string := "Kategorie muss ein String sein".
Definition tagsNotArray : string := "Tags müssen als Array angegeben werden".
Definition metadataNotObject : string := "Metadaten müssen ein Objekt sein".
Definition titleTooLong : string :=
  "Titel darf maximal 255 Zeichen lang sein".
Definition contentTooLong : string :=
  "Inhalt darf maximal 10.000 Zeichen lang sein".
Definition categoryTooLong : string :=
  "Kategorie darf maximal 50 Zeichen lang sein".
Definition tooManyTags : string := "Maximal 20 Tags sind erlaubt".
Definition tagInvalid : string :=
  "Jeder Tag muss ein String mit maximal 50 Zeichen sein".

(** [if (condition) errors.push(message)] *)
Definition pushIf (condition : bool) (message : string) : list string :=
  if condition then [message] else [].

(** [!v || typeof v !== 'string' || v.trim().length === 0] *)
Definition notFilledString (v : option json) : bool :=
  match v with
  | Some (JStr s) => negb (truthy s) || (String.length (trim s) =? 0)%nat
  | _ => true
  end.

(** [typeof tag !== 'string' || tag.length > 50] *)
Definition badTag (tag : json) : bool :=
  match tag with
  | JStr s => (50 <? String.length s)%nat
  | _ => true
  end.

(** [tags && tags.some(...)]: a truthy value that is no array has no
    [some] to call. [None] stands for the [TypeError]. *)
Definition someBadTag (tags : option json) : option bool :=
  if truthyValue tags
  then match tags with
       | Some (JArr items) => Some (existsb badTag items)
       | _ => None
       end
  else Some false.

(** [if (v) req.body.field = change(v)] for a [change] that is a string
    method. *)
Definition rewriteString (change : string -> string) (v : option json)
  : option (option json) :=
  if truthyValue v
  then match v with
       | Some (JStr s) => Some (Some (JStr (change s)))
       | _ => None
       end
  else Some v.

(** [tag.trim()] for each tag *)
Fixpoint trimTags (items : list json) : option (list json) :=
  match items with
  | [] => Some []
  | JStr s :: rest =>
      match trimTags rest with
      | Some rest' => Some (JStr (trim s) :: rest')
      | None => None
      end
  | _ :: _ => None
  end.

(** [if (tags) req.body.tags = tags.map(tag => tag.trim())] *)
Definition rewriteTags (tags : option json) : option (option json) :=
  if truthyValue tags
  then match tags with
       | Some (JArr items) =>
           match trimTags items with
           | Some items' => Some (Some (JArr items'))
           | None => None
           end
       | _ => None
       end
  else Some tags.

Section DataInput.
Context `{Host}.
(** [v > n] for a value [v] found under the key [length] of an object;
    [None] when the conversion of [v] to a number throws. *)
Variable exceeds : json -> Z -> option bool.

(** [v && v.length > n] *)
Definition tooLong (v : option json) (n : Z) : option bool :=
  if truthyValue v
  then match v with
       | Some (JStr s) => Some (n <? Z.of_nat (String.length s))
       | Some (JArr items) => Some (n <? Z.of_nat (List.length items))
       | Some (JObj fields) =>
           match getField "length" fields with
           | Some w => exceeds w n
           | None => Some false
           end
       | _ => Some false
       end
  else Some false.

(** The [errors] array once every check has run; [None] when a check
    throws. *)
Definition dataErrors (body : dataBody) : option (list string) :=
  match tooLong (body_title body) 255,
        tooLong (body_content body) 10000,
        tooLong (body_category body) 50,
        tooLong (body_tags body) 20,
        someBadTag (body_tags body) with
  | Some longTitle, Some longContent, Some longCategory, Some manyTags,
    Some badTags =>
      Some (pushIf (notFilledString (body_title body)) titleRequired
            ++ pushIf (notFilledString (body_content body)) contentRequired
            ++ pushIf (truthyValue (body_category body)
                       && negb (isString (body_category body)))
                 categoryNotString
            ++ pushIf (truthyValue (body_tags body)
                       && negb (isArray (body_tags body))) tagsNotArray
            ++ pushIf (truthyValue (body_metadata body)
                       && negb (typeofObject (body_metadata body)))
                 metadataNotObject
            ++ pushIf longTitle titleTooLong
            ++ pushIf longContent contentTooLong
            ++ pushIf longCategory categoryTooLong
            ++ pushIf manyTags tooManyTags
            ++ pushIf badTags tagInvalid)
  | _, _, _, _, _ => None
  end.

(** The rewriting of [req.body] after the checks. *)
Definition sanitizeBody (body : dataBody) : option dataBody :=
  match rewriteString trim (body_title body),
        rewriteString trim (body_content body),
        rewriteString (fun c => String_toLowerCase (trim c))
          (body_category body),
        rewriteTags (body_tags body) with
  | Some title', Some content', Some category', Some tags' =>
      Some {| body_title := title'; body_content := content';
              body_category := category'; body_tags := tags';
              body_metadata := body_metadata body |}
  | _, _, _, _ => None
  end.

Definition validateDataInput (body : dataBody) : bodyVerdict :=
  match dataErrors body with
  | None => Throws
  | Some [] =>
      match sanitizeBody body with
      | Some body' => NextBody body'
      | None => Throws
      end
  | Some errors => BodyStatus400 "Validierungsfehler" errors
  end.

End DataInput.

(** A text field as the store wants it: a string that is not empty, has
    no white space at either end and at most [limit] characters. *)
Definition filledText (limit : Z) (v : option json) : Prop :=
  exists s,
    v = Some (JStr s) /\ s <> EmptyString /\ trim s = s
    /\ Z.of_nat (String.length s) <= limit.

(** The category that is handed on for the category of the request: the
    same value when that is falsy; else the string of the request, which
    has at most 50 code units, trimmed and then lowered by the
    platform's [toLowerCase]. *)
Definition cleanCategory `{Host} (requested accepted : option json) : Prop :=
  (truthyValue requested = false /\ accepted = requested)
  \/ exists s,
       requested = Some (JStr s) /\ s <> EmptyString
       /\ Z.of_nat (String.length s) <= 50
       /\ accepted = Some (JStr (String_toLowerCase (trim s))).

(** A category that trimming and lowering leave as it is and that has at
    most 50 code units, or a falsy one. *)
Definition settledCategory `{Host} (v : option json) : Prop :=
  truthyValue v = false
  \/ exists s,
       v = Some (JStr s) /\ Z.of_nat (String.length s) <= 50
       /\ String_toLowerCase (trim s) = s.

Definition cleanTag (tag : json) : Prop :=
  exists s, tag = JStr s /\ trim s = s /\ (String.length s <= 50)%nat.

Definition cleanTags (v : option json) : Prop :=
  truthyValue v = false
  \/ exists items,
       v = Some (JArr items) /\ (List.length items <= 20)%nat
       /\ Forall cleanTag items.

Definition cleanMetadata (v : option json) : Prop :=
  truthyValue v = false \/ typeofObject v = true.

(** The body that is handed on for the body of a request. *)
Definition cleanBody `{Host} (body accepted : dataBody) : Prop :=
  filledText 255 (body_title accepted)
  /\ filledText 10000 (body_content accepted)
  /\ cleanCategory (body_category body) (body_category accepted)
  /\ cleanTags (body_tags accepted)
  /\ cleanMetadata (body_metadata accepted).

(** [input.replace(/c/g, replacement)] for a single character [c] *)
Fixpoint replaceAll (c : ascii) (replacement : string) (input : string)
  : string :=
  match input with
  | EmptyString => EmptyString
  | String a rest =>
      if Ascii.eqb a c
      then (replacement ++ replaceAll c replacement rest)%string
      else String a (replaceAll c replacement rest)
  end.

Definition doubleQuote : ascii := ascii_of_nat 34.

(** [sanitizeInput] on a string *)
Definition sanitizeInput (input : string) : string :=
  replaceAll "/" "&#x2F;"
    (replaceAll "'" "&#x27;"
       (replaceAll doubleQuote "&quot;"
          (replaceAll ">" "&gt;"
             (replaceAll "<" "&lt;" input)))).

(** The characters [sanitizeInput] is there to remove. *)
Definition isMarkup (c : ascii) : bool :=
  Ascii.eqb c "<" || Ascii.eqb c ">" || Ascii.eqb c doubleQuote
  || Ascii.eqb c "'" || Ascii.eqb c "/".

Fixpoint hasMarkup (s : string) : bool :=
  match s with
  | EmptyString => false
  | String c rest => isMarkup c || hasMarkup rest
  end.

(** What one character becomes. *)
Definition escapeOf (c : ascii) : string :=
  if Ascii.eqb c "<" then "&lt;"
  else if Ascii.eqb c ">" then "&gt;"
  else if Ascii.eqb c doubleQuote then "&quot;"
  else if Ascii.eqb c "'" then "&#x27;"
  else if Ascii.eqb c "/" then "&#x2F;"
  else String c EmptyString.

Fixpoint escapeEach (s : string) : string :=
  match s with
  | EmptyString => EmptyString
  | String c rest => (escapeOf c ++ escapeEach rest)%string
  end.

(** [sanitizeObject] as the value the object has afterwards: every
    string found under a key of an object or an index of an array, at any
    depth, is replaced; keys and other values stay. *)
Fixpoint sanitizeValue (v : json) : json :=
  match v with
  | JStr s => JStr (sanitizeInput s)
  | JArr items => JArr (map sanitizeValue items)
  | JObj fields =>
      JObj (map (fun field => (fst field, sanitizeValue (snd field))) fields)
  | other => other
  end.

(** [if (part && typeof part === 'object') sanitizeObject(part)] for
    [req.body] and [req.query] *)
Definition sanitizePart (part : option json) : option json :=
  if truthyValue part && typeofObject part
  then option_map sanitizeValue part
  else part.

Definition sanitizeAllInputs (body query : option json)
  : option json * option json :=
  (sanitizePart body, sanitizePart query).

(** The strings stored in a value, keys not included. *)
Fixpoint stringsIn (v : json) : list string :=
  match v with
  | JStr s => [s]
  | JArr items => flat_map stringsIn items
  | JObj fields => flat_map (fun field => stringsIn (snd field)) fields
  | _ => []
  end.

(** The shape of a value: everything but the text of its strings. *)
Fixpoint shapeOf (v : json) : json :=
  match v with
  | JStr _ => JStr EmptyString
  | JArr items => JArr (map shapeOf items)
  | JObj fields =>
      JObj (map (fun field => (fst field, shapeOf (snd field))) fields)
  | other => other
  end.

(** [part'] is [part] with every string value sanitized. *)
Definition sanitizedFrom (part part' : option json) : Prop :=
  match part with
  | Some (JArr _ as v) | Some (JObj _ as v) =>
      exists v',
        part' = Some v'
        /\ stringsIn v' = map sanitizeInput (stringsIn v)
        /\ Forall (fun s => hasMarkup s = false) (stringsIn v')
        /\ shapeOf v' = shapeOf v
  | _ => part' = part
  end.

End Validation.

(** ** More of the file search: the loop over a directory and hidden
       directories *)

Module FileWalk.
Import JsString SearchService.

Section Loop.
Context `{Host}.
Variable query : string.
Variable limit : Z.
Variable extensions : list string.
Variable includeContent : bool.

(** The body of the [for] loop of [searchInDirectory(dir)] for one entry:
    whether it threw, and the results after it. *)
Definition visitEntry (dir : string) (entry : dirent)
  (results : list fileHit) : bool * list fileHit :=
  match entry with
  | Directory name _ =>
      if negb (startsWith name ".")
      then (false,
            searchInDirectory query limit extensions includeContent
              (path_join dir name) entry results)
      else (false, results)
  | File name data stats =>
      visitFile query extensions includeContent dir name data stats results
  | Special _ => (false, results)
  end.

(** The [for] loop of [searchInDirectory(dir)] over [entries], with its
    [break] once [limit] results are collected and the [catch] that ends
    it when the body throws. *)
Fixpoint walkLoop (dir : string) (entries : list dirent)
  (results : list fileHit) : list fileHit :=
  match entries with
  | [] => results
  | entry :: rest =>
      let (threw, results') := visitEntry dir entry results in
      if threw then results'
      else if limit <=? Z.of_nat (List.length results') then results'
      else walkLoop dir rest results'
  end.

End Loop.

(** A directory tree without its hidden directories: every directory
    entry whose name starts with a dot is removed, at every depth. The
    node the search starts from is kept whatever its name. *)
Fixpoint withoutHidden (node : dirent) : dirent :=
  match node with
  | Directory name (Some entries) =>
      Directory name
        (Some
           ((fix prune (es : list dirent) : list dirent :=
               match es with
               | [] => []
               | entry :: rest =>
                   match entry with
                   | Directory sub _ =>
                       if startsWith sub "."
                       then prune rest
                       else withoutHidden entry :: prune rest
                   | _ => entry :: prune rest
                   end
               end) entries))
  | _ => node
  end.

(** The same pruning of a list of entries. *)
Fixpoint pruneEntries (es : list dirent) : list dirent :=
  match es with
  | [] => []
  | entry :: rest =>
      match entry with
      | Directory sub _ =>
          if startsWith sub "."
          then pruneEntries rest
          else withoutHidden entry :: pruneEntries rest
      | _ => entry :: pruneEntries rest
      end
  end.

(** What every file the search reports satisfies: its name contains the
    query, both lowered by the platform's [toLowerCase], or its text has
    at least one match; the count is not negative; the snippet has at
    most 200 characters and the ellipsis. *)
Definition wellFormedHit `{Host} (query : string) (f : fileHit) : Prop :=
  (nameMatches query (file_title f) = true \/ 0 < file_matches f)
  /\ 0 <= file_matches f
  /\ (String.length (file_snippet f) <= 203)%nat.

(** What a walk does to the results it is given: it appends well-formed
    hits, and it never goes beyond [limit] results by more than the one
    hit of the first file it meets. *)
Definition walkExtends `{Host} (query : string) (limit : Z)
  (results results' : list fileHit) : Prop :=
  exists added,
    results' = results ++ added
    /\ Forall (wellFormedHit query) added
    /\ Z.of_nat (List.length results')
       <= Z.max (Z.of_nat (List.length results) + 1) limit.

(** A directory with a visible file and a hidden directory that holds a
    file matching the query [foo]. *)
Definition diskWithHidden : fileSystem :=
  fun _ =>
    Directory "."
      (Some [ Directory ".git"
                (Some [File "foo.cfg" (Some "foo") (Some (3, 10))]);
              File "bar.txt" (Some "foo foo foo foo foo") (Some (19, 2000)) ]).

End FileWalk.

(** ** The POST routes of the search API (src/routes/search.js) *)

Module SearchPosts.
Import JsString JsValue Validation SearchService.

(** [error.message] of the error a route catches: the message of an
    [Error] the service throws, or the text the engine gives the
    [TypeError] of destructuring [null]. *)
Inductive errorMessage : Type :=
| MessageOf (message : string)
| CannotDestructureNull.

(** The answer of a search route: status 200 with the results and the
    query (and, for the advanced search, the sources), status 400 from
    the validation, or status 500. *)
Inductive postResponse (R : Type) : Type :=
| Found (results : R) (query : string) (path : option string)
    (sources : option sourcesArg) (timestamp type : string)
| BadRequest (error message : string)
| ServerError (error : string) (message : errorMessage).

Arguments Found {R} results query path sources timestamp type.
Arguments BadRequest {R} error message.
Arguments ServerError {R} error message.

(** The property [options] of the request body: left out, [null], or a
    value whose properties are read. Of these properties only the ones
    the service reads are kept, with the types it expects of them; a
    number, a string or a boolean in the place of [options] has none of
    them and is the value [{}]. *)
Inductive bodyOptions (O : Type) : Type :=
| OptionsMissing
| OptionsNull
| OptionsOf (options : O).

Arguments OptionsMissing {O}.
Arguments OptionsNull {O}.
Arguments OptionsOf {O} options.

(** The options object [{}] *)
Definition noLocalOptions : localOptions :=
  {| lo_limit := None; lo_fuzzy := None; lo_threshold := None;
     lo_suggestionsOnly := None; lo_category := None |}.


(** [const { ..., options = {} } = req.body] in the route, followed by
    the destructuring of [options] that opens the service function: the
    default [{}] stands in for a property that is left out, not for
    [null], and destructuring [null] throws. [None] is that
    [TypeError]. *)
Definition destructured {O : Type} (empty : O) (options : bodyOptions O)
  : option O :=
  match options with
  | OptionsMissing => Some empty
  | OptionsNull => None
  | OptionsOf o => Some o
  end.


Section Routes.
Context `{Host}.
(** [new Date().toISOString()] *)
Variable now : string.

(** [POST /local], with the calls it makes to the store. [searchLocal]
    takes its options apart before its [try]: with [options: null] the
    promise it returns is rejected with the [TypeError], no statement
    reaches the store, and the route answers with that error's text. *)
Definition postLocal (db : database) (query : option json)
  (options : bodyOptions localOptions) : M (postResponse localOutput) :=
  match validateSearchQuery query with
  | QueryStatus400 error message => ret (BadRequest error message)
  | NextQuery query =>
      match destructured noLocalOptions options with
      | Some options =>
          tryCatch
            (results <- searchLocal db query options ;;
             ret (Found results query None None now "local"))
            (fun message =>
               ret (ServerError "Lokale Suche fehlgeschlagen"
                      (MessageOf message)))
      | None =>
          ret (ServerError "Lokale Suche fehlgeschlagen"
                 CannotDestructureNull)
      end
  end.


End Routes.

End SearchPosts.

(** ** Writing to the store (src/database/queries.js) *)

Module DataStore.
Import JsString JsValue.

(** [JSON.stringify] on a value that is not [undefined] *)
Class Serializer : Type := {
  JSON_stringify : json -> string
}.

(** The table [data_entries] in the order of its row ids, together with
    the largest id ever given out, which [AUTOINCREMENT] keeps in
    [sqlite_sequence]. *)
Record table : Type := {
  tb_rows : list dataRow;
  tb_sequence : Z
}.

(** The database; [None] when it rejects every statement. *)
Definition store : Type := option table.

(** The table as the queries of the search service see it. *)
Definition databaseOf (s : store) : database := option_map tb_rows s.

(** The object [insertData] takes apart. *)
Record newEntry : Type := {
  ne_title : string;
  ne_content : string;
  ne_category : string;
  ne_tags : json;
  ne_metadata : json;
  ne_created_at : string;
  ne_updated_at : string
}.

(** A value that [JSON.parse] reads back from its [JSON.stringify]. *)
Definition roundTrips `{Host} `{Serializer} (j : json) : Prop :=
  JSON_stringify j <> EmptyString /\ JSON_parse (JSON_stringify j) = Some j.

(** The entry [getDataById] returns for a stored [data]. *)
Definition entryOf (id : Z) (data : newEntry) : dataEntry :=
  {| id := id;
     title := ne_title data;
     content := ne_content data;
     category := Some (ne_category data);
     tags := ne_tags data;
     metadata := ne_metadata data;
     created_at := ne_created_at data;
     updated_at := ne_updated_at data;
     relevance_score := None |}.

Definition maxId (rows : list dataRow) : Z :=
  fold_right (fun row m => Z.max (row_id row) m) 0 rows.

(** The id [AUTOINCREMENT] gives the next row: one more than the largest
    id that ever was in the table. *)
Definition nextId (t : table) : Z :=
  Z.max (tb_sequence t) (maxId (tb_rows t)) + 1.

Definition rowOf `{Serializer} (id : Z) (data : newEntry) : dataRow :=
  {| row_id := id;
     row_title := ne_title data;
     row_content := ne_content data;
     row_category := Some (ne_category data);
     row_tags := Some (JSON_stringify (ne_tags data));
     row_metadata := Some (JSON_stringify (ne_metadata data));
     row_created_at := ne_created_at data;
     row_updated_at := ne_updated_at data |}.

(** [insertData(data)], resolving to [result.id] *)
Definition insertData `{Serializer} (data : newEntry) (s : store)
  : (string + Z) * store :=
  match s with
  | Some t =>
      let id := nextId t in
      (inr id,
       Some {| tb_rows := tb_rows t ++ [rowOf id data]; tb_sequence := id |})
  | None => (inl "SQLITE_ERROR", None)
  end.

Definition hasId (id : Z) (row : dataRow) : bool := row_id row =? id.

(** [getDataById(id)]; [None] is [null]. *)
Definition getDataById `{Host} (id : Z) (s : store)
  : string + option dataEntry :=
  match s with
  | Some t =>
      inr (match filter (hasId id) (tb_rows t) with
           | data :: _ => Some (Queries.parseDataEntry data None)
           | [] => None
           end)
  | None => inl "SQLITE_ERROR"
  end.

(** [deleteDataFromDB(id)] *)
Definition deleteDataFromDB (id : Z) (s : store) : (string + bool) * store :=
  match s with
  | Some t =>
      let changes := List.length (filter (hasId id) (tb_rows t)) in
      (inr (0 <? changes)%nat,
       Some {| tb_rows := filter (fun row => negb (hasId id row)) (tb_rows t);
               tb_sequence := tb_sequence t |})
  | None => (inl "SQLITE_ERROR", None)
  end.

(** The [updates] object: the columns to set, [None] for a key that is
    not there. *)
Record updates : Type := {
  up_updated_at : option string;
  up_title : option string;
  up_content : option string;
  up_category : option string;
  up_tags : option json;
  up_metadata : option json
}.

(** [fields.length === 0] *)
Definition noFields (u : updates) : bool :=
  match up_updated_at u, up_title u, up_content u, up_category u,
        up_tags u, up_metadata u with
  | None, None, None, None, None, None => true
  | _, _, _, _, _, _ => false
  end.

Definition orKeep {A : Type} (new : option A) (old : A) : A :=
  match new with Some a => a | None => old end.

(** [UPDATE data_entries SET ... WHERE id = ?] on one row *)
Definition updateRow `{Serializer} (id : Z) (u : updates) (row : dataRow)
  : dataRow :=
  if hasId id row
  then {| row_id := row_id row;
          row_title := orKeep (up_title u) (row_title row);
          row_content := orKeep (up_content u) (row_content row);
          row_category :=
            match up_category u with
            | Some c => Some c
            | None => row_category row
            end;
          row_tags :=
            match up_tags u with
            | Some j => Some (JSON_stringify j)
            | None => row_tags row
            end;
          row_metadata :=
            match up_metadata u with
            | Some j => Some (JSON_stringify j)
            | None => row_metadata row
            end;
          row_created_at := row_created_at row;
          row_updated_at := orKeep (up_updated_at u) (row_updated_at row) |}
  else row.

(** [updateDataInDB(id, updates)]; [None] is [null]. *)
Definition updateDataInDB `{Host} `{Serializer} (id : Z) (u : updates)
  (s : store) : (string + option dataEntry) * store :=
  if noFields u
  then (inl "Keine Felder zum Aktualisieren angegeben", s)
  else
    match s with
    | Some t =>
        let changes := List.length (filter (hasId id) (tb_rows t)) in
        let s' := Some {| tb_rows := map (updateRow id u) (tb_rows t);
                          tb_sequence := tb_sequence t |} in
        if (0 <? changes)%nat
        then (getDataById id s', s')
        else (inr None, s')
    | None => (inl "SQLITE_ERROR", None)
    end.

(** The rows for [dataArray] with consecutive ids from [id] on. *)
Fixpoint rowsFrom `{Serializer} (id : Z) (dataArray : list newEntry)
  : list dataRow :=
  match dataArray with
  | [] => []
  | data :: rest => rowOf id data :: rowsFrom (id + 1) rest
  end.

(** One entry of the array [bulkInsertData] resolves to. *)
Inductive insertResult : Type :=
| Inserted (id : Z)
| NotInserted (error : string).

(** [bulkInsertData(dataArray)] *)
Fixpoint bulkInsertData `{Serializer} (dataArray : list newEntry) (s : store)
  : list insertResult * store :=
  match dataArray with
  | [] => ([], s)
  | data :: rest =>
      let (result, s') := insertData data s in
      let (results, s'') := bulkInsertData rest s' in
      (match result with
       | inr id => Inserted id
       | inl message => NotInserted message
       end :: results, s'')
  end.

End DataStore.

(** ** The data service (src/services/dataService.js) *)

Module DataService.
Import JsString JsValue Validation DataStore.

(** An error thrown in the service: an [Error] with a message, a
    [TypeError] of the engine, or an [Error] whose message is a prefix
    followed by the message of the error caught. *)
Inductive jsError : Type :=
| Message (text : string)
| TypeError
| Prefixed (prefix : string) (cause : jsError).

(** [v.trim()]; [None] is the TypeError of a value without that
    method. *)
Definition callTrim (v : option json) : option string :=
  match v with Some (JStr s) => Some (trim s) | _ => None end.

(** [v.toLowerCase()] *)
Definition callToLowerCase `{Host} (v : option json) : option string :=
  match v with
  | Some (JStr s) => Some (String_toLowerCase s)
  | _ => None
  end.

(** [typeof metadata === 'object' ? metadata : {}], also for the
    default [{}] of a [metadata] that is [undefined] *)
Definition metadataOr (metadata : option json) : json :=
  match metadata with
  | Some v => if typeofObject metadata then v else JObj []
  | None => JObj []
  end.

(** The [dataEntry] object [addData] builds; [created] and [updated] are
    the two readings of the clock. *)
Definition entryToAdd `{Host} (created updated : string) (input : dataBody)
  : jsError + newEntry :=
  if negb (truthyValue (body_title input))
     || negb (truthyValue (body_content input))
  then inl (Message "Titel und Inhalt sind erforderlich")
  else
    match callTrim (body_title input),
          callTrim (body_content input),
          callToLowerCase (match body_category input with
                           | None => Some (JStr "general")
                           | given => given
                           end) with
    | Some title, Some content, Some category =>
        inr {| ne_title := title;
               ne_content := content;
               ne_category := category;
               ne_tags :=
                 match body_tags input with
                 | None => JArr []
                 | Some (JArr items) => JArr items
                 | Some other => JArr [other]
                 end;
               ne_metadata := metadataOr (body_metadata input);
               ne_created_at := created;
               ne_updated_at := updated |}
    | _, _, _ => inl TypeError
    end.

Definition addFailed : string := "Fehler beim Hinzufügen der Daten: ".

(** [addData(input)], resolving to the id and the entry *)
Definition addData `{Host} `{Serializer} (created updated : string)
  (input : dataBody) (s : store) : (jsError + Z * newEntry) * store :=
  match entryToAdd created updated input with
  | inr entry =>
      match insertData entry s with
      | (inr id, s') => (inr (id, entry), s')
      | (inl message, s') => (inl (Prefixed addFailed (Message message)), s')
      end
  | inl e => (inl (Prefixed addFailed e), s)
  end.

Definition deleteFailed : string := "Fehler beim Löschen der Daten: ".

(** [deleteData(id)] *)
Definition deleteData (id : Z) (s : store) : (jsError + bool) * store :=
  if id =? 0
  then (inl (Prefixed deleteFailed (Message "ID ist erforderlich")), s)
  else
    match deleteDataFromDB id s with
    | (inr deleted, s') => (inr deleted, s')
    | (inl message, s') => (inl (Prefixed deleteFailed (Message message)), s')
    end.

Definition updateFailed : string := "Fehler beim Aktualisieren der Daten: ".

(** [if (v !== undefined) updates.key = method(v)] *)
Definition setWith (method : option json -> option string) (v : option json)
  : option (option string) :=
  match v with
  | None => Some None
  | given => option_map Some (method given)
  end.

(** The [updates] object [updateData] builds. *)
Definition updatesOf `{Host} (updated : string) (input : dataBody)
  : jsError + updates :=
  match setWith callTrim (body_title input),
        setWith callTrim (body_content input),
        setWith callToLowerCase (body_category input) with
  | Some title, Some content, Some category =>
      inr {| up_updated_at := Some updated;
             up_title := title;
             up_content := content;
             up_category := category;
             up_tags :=
               match body_tags input with
               | None => None
               | Some (JArr items) => Some (JArr items)
               | Some other => Some (JArr [other])
               end;
             up_metadata :=
               match body_metadata input with
               | None => None
               | given => Some (metadataOr given)
               end |}
  | _, _, _ => inl TypeError
  end.

(** [updateData(id, input)] *)
Definition updateData `{Host} `{Serializer} (updated : string) (id : Z)
  (input : dataBody) (s : store) : (jsError + option dataEntry) * store :=
  if id =? 0
  then (inl (Prefixed updateFailed (Message "ID ist erforderlich")), s)
  else
    match updatesOf updated input with
    | inr u =>
        match updateDataInDB id u s with
        | (inr result, s') => (inr result, s')
        | (inl message, s') =>
            (inl (Prefixed updateFailed (Message message)), s')
        end
    | inl e => (inl (Prefixed updateFailed e), s)
    end.

(** An item of the array given to [importData]: an object with these
    properties, [created_at] being a string when it is there. *)
Record importItem : Type := {
  im_title : option json;
  im_content : option json;
  im_category : option json;
  im_tags : option json;
  im_metadata : option json;
  im_created_at : option string
}.

(** The [dataEntry] object built for one item. *)
Definition entryToImport `{Host} (created updated : string)
  (item : importItem)
  : jsError + newEntry :=
  if negb (truthyValue (im_title item))
     || negb (truthyValue (im_content item))
  then inl (Message "Titel und Inhalt sind erforderlich")
  else
    match callTrim (im_title item),
          callTrim (im_content item),
          callToLowerCase (if truthyValue (im_category item)
                           then im_category item
                           else Some (JStr "general")) with
    | Some title, Some content, Some category =>
        inr {| ne_title := title;
               ne_content := content;
               ne_category := category;
               ne_tags :=
                 match im_tags item with
                 | Some (JArr items) => JArr items
                 | other =>
                     if truthyValue other
                     then match other with
                          | Some v => JArr [v]
                          | None => JArr []
                          end
                     else JArr []
                 end;
               ne_metadata := metadataOr (im_metadata item);
               ne_created_at :=
                 if truthyOpt (im_created_at item)
                 then match im_created_at item with
                      | Some c => c
                      | None => created
                      end
                 else created;
               ne_updated_at := updated |}
    | _, _, _ => inl TypeError
    end.

Record importError : Type := {
  ie_index : nat;
  ie_error : jsError
}.

(** The loop over the items from index [i] on: the valid entries and
    the errors, in the order found. *)
Fixpoint prepare `{Host} (clock : nat -> string * string) (i : nat)
  (items : list importItem) : list newEntry * list importError :=
  match items with
  | [] => ([], [])
  | item :: rest =>
      let (validData, errors) := prepare clock (S i) rest in
      match entryToImport (fst (clock i)) (snd (clock i)) item with
      | inr entry => (entry :: validData, errors)
      | inl e => (validData, {| ie_index := i; ie_error := e |} :: errors)
      end
  end.

Record importReport : Type := {
  imported : nat;
  failed : nat;
  errors : list importError
}.

(** [importData(dataArray)] for an array; [clock i] are the two
    readings of the clock while item [i] is prepared. *)
Definition importData `{Host} `{Serializer}
  (clock : nat -> string * string)
  (dataArray : list importItem) (s : store) : importReport * store :=
  let (validData, errors) := prepare clock 0 dataArray in
  let s' := match validData with
            | [] => s
            | _ => snd (bulkInsertData validData s)
            end in
  ({| imported := List.length validData;
      failed := List.length errors;
      errors := if (10 <? List.length errors)%nat
                then JsArray.slice0 10 errors
                else errors |},
   s').

End DataService.

(** ** The route that adds an entry (src/routes/data.js) *)

Module DataRoutes.
Import JsString JsValue Validation DataStore DataService.

(** The answer to [POST /api/data]: status 201 with the stored entry,
    status 400 from the validation, status 500 from the handler, or the
    status 500 of the application's error handler after a throw in the
    middleware. *)
Inductive dataResponse : Type :=
| Created (id : Z) (entry : newEntry) (message : string)
| Invalid (error : string) (messages : list string)
| Failed (error : string)
| Unhandled.

Definition postData `{Host} `{Serializer}
  (exceeds : json -> Z -> option bool)
  (created updated : string) (body : dataBody) (s : store)
  : dataResponse * store :=
  match validateDataInput exceeds body with
  | NextBody body' =>
      match addData created updated body' s with
      | (inr (id, entry), s') =>
          (Created id entry "Daten erfolgreich hinzugefügt", s')
      | (inl _, s') => (Failed "Daten konnten nicht hinzugefügt werden", s')
      end
  | BodyStatus400 error messages => (Invalid error messages, s)
  | Throws => (Unhandled, s)
  end.

End DataRoutes.

(** ** Suggestions of the data service (getDataSuggestions) *)

Module DataSuggestions.
Import JsString JsValue DataListing DataService.

Record suggestOptions : Type := {
  sg_limit : option Z;
  sg_type : option string
}.

(** [text.toLowerCase().includes(query.toLowerCase())] *)
Definition includesNoCase `{Host} (text query : string) : bool :=
  includes (String_toLowerCase text) (String_toLowerCase query).

(** [set.add(x)] on the elements of a [Set] in insertion order *)
Definition addOnce {A : Type} (eqb : A -> A -> bool) (set : list A) (x : A)
  : list A :=
  if existsb (eqb x) set then set else set ++ [x].

Definition sameCategory (a b : option string) : bool :=
  match a, b with
  | Some x, Some y => String.eqb x y
  | None, None => true
  | _, _ => false
  end.

(** [categories.filter(category =>
    category.toLowerCase().includes(...))]; a [null] category has no
    [toLowerCase]. [None] is the TypeError. *)
Fixpoint filterCategories `{Host} (query : string)
  (categories : list (option string))
  : option (list string) :=
  match categories with
  | [] => Some []
  | None :: _ => None
  | Some c :: rest =>
      match filterCategories query rest with
      | Some kept =>
          Some (if includesNoCase c query then c :: kept else kept)
      | None => None
      end
  end.

(** The inner [forEach] over the tags of one item. *)
Fixpoint addTags `{Host} (query : string) (tags : list json)
  (allTags : list string)
  : option (list string) :=
  match tags with
  | [] => Some allTags
  | JStr tag :: rest =>
      addTags query rest
        (if includesNoCase tag query
         then addOnce String.eqb allTags tag
         else allTags)
  | _ :: _ => None
  end.

(** The outer [forEach] over the items. *)
Fixpoint collectTags `{Host} (query : string) (data : list dataEntry)
  (allTags : list string) : option (list string) :=
  match data with
  | [] => Some allTags
  | item :: rest =>
      if truthyValue (Some (tags item))
      then match tags item with
           | JArr items =>
               match addTags query items allTags with
               | Some allTags' => collectTags query rest allTags'
               | None => None
               end
           | _ => None
           end
      else collectTags query rest allTags
  end.

Definition suggestFailed : string := "Fehler beim Abrufen der Vorschläge: ".

(** [getDataSuggestions(query, options)] *)
Definition getDataSuggestions `{Host} (db : database) (query : string)
  (options : suggestOptions) : jsError + list string :=
  let limit := match sg_limit options with Some l => l | None => 5 end in
  let type := match sg_type options with Some t => t | None => "title" end in
  match getDataFromDB db
          {| ls_category := None; ls_search := Some query;
             ls_limit := Some (limit * 3); ls_offset := None;
             ls_all := None |} with
  | inl message => inl (Prefixed suggestFailed (Message message))
  | inr data =>
      let suggestions :=
        if String.eqb type "title" then
          Some (filter (fun t => includesNoCase t query) (map title data))
        else if String.eqb type "category" then
          filterCategories query
            (fold_left (addOnce sameCategory) (map category data) [])
        else if String.eqb type "tags" then
          collectTags query data []
        else Some [] in
      match suggestions with
      | Some found => inr (JsArray.slice0 limit found)
      | None => inl (Prefixed suggestFailed TypeError)
      end
  end.

End DataSuggestions.

(** ** Further inputs used in the examples below *)

Module MoreExamples.
Import JsString JsValue Validation DataStore DataService.

(** No object in these examples has a [length] that is too large. *)
Definition neverExceeds : json -> Z -> option bool := fun _ _ => Some false.

(** A request body with white space around its texts, an upper-case
    category and one tag. *)
Definition sampleBody : dataBody :=
  {| body_title := Some (JStr " Kontakt ");
     body_content := Some (JStr "Telefon und Adresse");
     body_category := Some (JStr " Allgemein");
     body_tags := Some (JArr [JStr " buero "]);
     body_metadata := None |}.

Definition sampleAccepted : dataBody :=
  {| body_title := Some (JStr "Kontakt");
     body_content := Some (JStr "Telefon und Adresse");
     body_category := Some (JStr "allgemein");
     body_tags := Some (JArr [JStr "buero"]);
     body_metadata := None |}.

(** The same body with the category [null]. *)
Definition nullCategoryBody : dataBody :=
  {| body_title := Some (JStr "Kontakt");
     body_content := Some (JStr "Telefon und Adresse");
     body_category := Some JNull;
     body_tags := None;
     body_metadata := None |}.

(** [JSON.stringify] on the empty array and the empty object, the values
    [Examples.parseEmptyOnly] reads back. *)
Definition stringifyEmptyOnly : Serializer :=
  {| JSON_stringify := fun j =>
       match j with
       | JArr [] => "[]"
       | JObj [] => "{}"
       | _ => "null"
       end |}.

Definition sampleTable : table :=
  {| tb_rows := Examples.sampleRows; tb_sequence := 2 |}.

Definition sampleNew : newEntry :=
  {| ne_title := "Neu"; ne_content := "Inhalt"; ne_category := "general";
     ne_tags := JArr []; ne_metadata := JObj [];
     ne_created_at := "2024-04-01T00:00:00.000Z";
     ne_updated_at := "2024-04-01T00:00:00.000Z" |}.

Definition titleOnly : dataBody :=
  {| body_title := Some (JStr " Neuer Titel ");
     body_content := None; body_category := None; body_tags := None;
     body_metadata := None |}.

End MoreExamples.


(** * Properties *)

(** ** Arrays: [slice] and [sort] *)

Module JsArrayFacts.
Import JsArray.

Lemma firstn_prefix (A : Type) (n : nat) (l : list A) :
  exists rest, l = firstn n l ++ rest.
Proof. exists (skipn n l). symmetry. apply firstn_skipn. Qed.

Lemma slice0_prefix (A : Type) (limit : Z) (l : list A) :
  exists rest, l = slice0 limit l ++ rest.
Proof. unfold slice0. destruct (limit <? 0); apply firstn_prefix. Qed.

Lemma slice0_nil (A : Type) (limit : Z) : slice0 limit (@nil A) = [].
Proof. unfold slice0. destruct (limit <? 0); apply firstn_nil. Qed.

Lemma slice0_In (A : Type) (limit : Z) (l : list A) (x : A) :
  In x (slice0 limit l) -> In x l.
Proof.
  destruct (slice0_prefix limit l) as [rest E]. intros Hx.
  rewrite E. apply in_or_app. now left.
Qed.

Lemma slice0_map (A B : Type) (f : A -> B) (limit : Z) (l : list A) :
  slice0 limit (map f l) = map f (slice0 limit l).
Proof.
  unfold slice0. rewrite length_map.
  destruct (limit <? 0); apply firstn_map.
Qed.

Lemma StronglySorted_app_l (A : Type) (R : A -> A -> Prop) (l1 l2 : list A) :
  StronglySorted R (l1 ++ l2) -> StronglySorted R l1.
Proof.
  induction l1 as [|a l1 IH]; simpl; intros Hs.
  - constructor.
  - inversion Hs as [|? ? Hs' Hall]; subst. constructor.
    + now apply IH.
    + apply Forall_app in Hall. tauto.
Qed.

Lemma StronglySorted_weaken (A : Type) (R R' : A -> A -> Prop) (l : list A) :
  (forall a b, R a b -> R' a b) ->
  StronglySorted R l -> StronglySorted R' l.
Proof.
  intros HR. induction 1 as [|a l Hs IH Hall]; constructor.
  - assumption.
  - eapply Forall_impl; [|exact Hall]. intros b. apply HR.
Qed.

Lemma slice0_sorted (A : Type) (R : A -> A -> Prop) (limit : Z) (l : list A) :
  StronglySorted R l -> StronglySorted R (slice0 limit l).
Proof.
  destruct (slice0_prefix limit l) as [rest E]. intros Hs.
  rewrite E in Hs. now apply StronglySorted_app_l in Hs.
Qed.

Lemma NoDup_app_l (A : Type) (l1 l2 : list A) :
  NoDup (l1 ++ l2) -> NoDup l1.
Proof.
  induction l1 as [|a l1 IH]; simpl; intros Hn.
  - constructor.
  - inversion Hn as [|? ? Hnot Hn']; subst. constructor.
    + intros Hin. apply Hnot. apply in_or_app. now left.
    + now apply IH.
Qed.

Section SortFacts.
Variable A : Type.
Variable comparefn : A -> A -> Q.

Lemma shiftIn_perm (x : A) (rp : list A) :
  Permutation (shiftIn comparefn x rp) (x :: rp).
Proof.
  induction rp as [|y rp IH]; simpl.
  - apply Permutation_refl.
  - destruct (comparefn y x ?= 0)%Q.
    + apply Permutation_refl.
    + apply Permutation_refl.
    + apply Permutation_trans with (y :: x :: rp).
      * now apply perm_skip.
      * apply perm_swap.
Qed.

Lemma sortLoop_perm (l acc : list A) :
  Permutation (sortLoop comparefn l acc) (rev l ++ acc).
Proof.
  revert acc. induction l as [|x l IH]; intros acc; simpl.
  - apply Permutation_refl.
  - unfold sortLoop in *. simpl. eapply Permutation_trans. { apply IH. }
    rewrite <- app_assoc. simpl. apply Permutation_app_head.
    apply shiftIn_perm.
Qed.

Lemma js_sort_perm (l : list A) : Permutation (js_sort comparefn l) l.
Proof.
  unfold js_sort. eapply Permutation_trans.
  { apply Permutation_sym, Permutation_rev. }
  eapply Permutation_trans. { apply sortLoop_perm. }
  rewrite app_nil_r. apply Permutation_sym, Permutation_rev.
Qed.

Lemma js_sort_In (l : list A) (x : A) : In x (js_sort comparefn l) <-> In x l.
Proof.
  split; apply Permutation_in.
  - apply js_sort_perm.
  - apply Permutation_sym, js_sort_perm.
Qed.

Lemma js_sort_nil : js_sort comparefn [] = [].
Proof. reflexivity. Qed.

Lemma shiftIn_stops_at (a x : A) (p r : list A) :
  (comparefn a x ?= 0)%Q <> Gt ->
  shiftIn comparefn x (p ++ a :: r) = shiftIn comparefn x p ++ a :: r.
Proof.
  intros Ha. induction p as [|y p IH]; simpl.
  - destruct (comparefn a x ?= 0)%Q; congruence.
  - destruct (comparefn y x ?= 0)%Q; simpl; try reflexivity.
    now rewrite IH.
Qed.

Lemma sortLoop_behind (a : A) (l p r : list A) :
  (forall x, (comparefn a x ?= 0)%Q <> Gt) ->
  sortLoop comparefn l (p ++ a :: r) = sortLoop comparefn l p ++ a :: r.
Proof.
  intros Ha. revert p. induction l as [|x l IH]; intros p.
  - reflexivity.
  - unfold sortLoop in *. simpl. rewrite shiftIn_stops_at by apply Ha.
    apply IH.
Qed.

Lemma sortLoop_app (l1 l2 acc : list A) :
  sortLoop comparefn (l1 ++ l2) acc
  = sortLoop comparefn l2 (sortLoop comparefn l1 acc).
Proof. unfold sortLoop. apply fold_left_app. Qed.

Lemma shiftIn_inert (a : A) (rp : list A) :
  inert comparefn a -> shiftIn comparefn a rp = a :: rp.
Proof.
  intros Ha. destruct rp as [|y rp]; simpl; [reflexivity|].
  destruct (Ha y) as [_ Hy]. destruct (comparefn y a ?= 0)%Q; congruence.
Qed.

(** Sorting around an inert element sorts what is before it and what is
    after it, and leaves it where it was. *)
Lemma js_sort_inert (a : A) (l1 l2 : list A) :
  inert comparefn a ->
  js_sort comparefn (l1 ++ a :: l2)
  = js_sort comparefn l1 ++ a :: js_sort comparefn l2.
Proof.
  intros Ha. unfold js_sort.
  rewrite sortLoop_app. change (a :: l2) with ([a] ++ l2).
  rewrite sortLoop_app.
  replace (sortLoop comparefn [a] (sortLoop comparefn l1 []))
    with ([] ++ a :: sortLoop comparefn l1 []).
  2:{ unfold sortLoop at 2. simpl. now rewrite shiftIn_inert. }
  rewrite sortLoop_behind by (intros x; apply Ha).
  rewrite rev_app_distr. simpl. rewrite <- app_assoc. reflexivity.
Qed.

Lemma sortLoop_stays_behind (a : A) (l p r : list A) :
  Forall (fun x => (comparefn a x ?= 0)%Q <> Gt) l ->
  sortLoop comparefn l (p ++ a :: r) = sortLoop comparefn l p ++ a :: r.
Proof.
  intros Ha. revert p. induction Ha as [|x l Hx Hl IH]; intros p.
  - reflexivity.
  - unfold sortLoop in *. simpl. rewrite shiftIn_stops_at by exact Hx.
    apply IH.
Qed.

Lemma sortLoop_nil_inv (l acc : list A) :
  sortLoop comparefn l acc = [] -> l = [] /\ acc = [].
Proof.
  intros E. pose proof (sortLoop_perm l acc) as Hp. rewrite E in Hp.
  apply Permutation_nil in Hp. apply app_eq_nil in Hp.
  destruct Hp as [Hl Hacc]. split; [|assumption].
  destruct l as [|x l]; [reflexivity|]. simpl in Hl.
  apply app_eq_nil in Hl. destruct Hl as [_ Hx]. discriminate.
Qed.

(** When no element of the second part may pass an element of the first
    part, the two parts are sorted on their own. *)
Lemma js_sort_parts (l1 l2 : list A) :
  (forall a x, In a l1 -> In x l2 -> (comparefn a x ?= 0)%Q <> Gt) ->
  js_sort comparefn (l1 ++ l2) = js_sort comparefn l1 ++ js_sort comparefn l2.
Proof.
  intros Hpass. unfold js_sort. rewrite sortLoop_app.
  destruct (sortLoop comparefn l1 []) as [|a r] eqn:E.
  - reflexivity.
  - assert (Ha : In a l1).
    { apply in_rev. rewrite <- (app_nil_r (rev l1)).
      apply Permutation_in with (a :: r); [|now left].
      rewrite <- E. apply sortLoop_perm. }
    change (a :: r) with ([] ++ a :: r).
    rewrite sortLoop_stays_behind.
    + rewrite rev_app_distr. reflexivity.
    + apply Forall_forall. intros x Hx. now apply Hpass.
Qed.

Lemma js_sort_inert_first (ws l : list A) :
  Forall (inert comparefn) ws ->
  js_sort comparefn (ws ++ l) = ws ++ js_sort comparefn l.
Proof.
  induction 1 as [|w ws Hw Hws IH]; [reflexivity|].
  simpl. change (w :: ws ++ l) with ([] ++ w :: (ws ++ l)).
  rewrite js_sort_inert by exact Hw. rewrite IH. reflexivity.
Qed.

End SortFacts.

Section SortExt.
Variable A : Type.
Variables comparefn comparefn' : A -> A -> Q.

Lemma shiftIn_ext (x : A) (rp : list A) :
  Forall (fun y => (comparefn y x ?= 0)%Q = (comparefn' y x ?= 0)%Q) rp ->
  shiftIn comparefn x rp = shiftIn comparefn' x rp.
Proof.
  induction 1 as [|y rp Hy Hrp IH]; simpl; [reflexivity|].
  rewrite Hy, IH. reflexivity.
Qed.

Lemma sortLoop_ext (l acc : list A) :
  (forall a b, In a (l ++ acc) -> In b (l ++ acc) ->
               (comparefn a b ?= 0)%Q = (comparefn' a b ?= 0)%Q) ->
  sortLoop comparefn l acc = sortLoop comparefn' l acc.
Proof.
  revert acc. induction l as [|x l IH]; intros acc Hagree; [reflexivity|].
  unfold sortLoop in *. simpl.
  assert (E : shiftIn comparefn x acc = shiftIn comparefn' x acc).
  { apply shiftIn_ext. apply Forall_forall. intros y Hy.
    apply Hagree; simpl; [right; apply in_or_app; now right|now left]. }
  rewrite E. apply IH. intros a b Ha Hb.
  assert (Hin : forall c, In c (l ++ shiftIn comparefn' x acc) ->
                          In c ((x :: l) ++ acc)).
  { intros c Hc. apply in_app_or in Hc. destruct Hc as [Hc|Hc].
    - simpl. right. apply in_or_app. now left.
    - apply (Permutation_in c (shiftIn_perm comparefn' x acc)) in Hc.
      destruct Hc as [<-|Hc]; [now left|].
      simpl. right. apply in_or_app. now right. }
  apply Hagree; now apply Hin.
Qed.

(** Two comparison functions that agree in sign on the elements of an
    array sort it alike. *)
Lemma js_sort_ext (l : list A) :
  (forall a b, In a l -> In b l ->
               (comparefn a b ?= 0)%Q = (comparefn' a b ?= 0)%Q) ->
  js_sort comparefn l = js_sort comparefn' l.
Proof.
  intros Hagree. unfold js_sort. f_equal. apply sortLoop_ext.
  intros a b. rewrite app_nil_r. apply Hagree.
Qed.

End SortExt.

End JsArrayFacts.

Module SortByKey.
Import JsArray JsArrayFacts.

Lemma StronglySorted_app_intro (A : Type) (R : A -> A -> Prop)
  (l1 l2 : list A) :
  StronglySorted R l1 -> StronglySorted R l2 ->
  (forall x y, In x l1 -> In y l2 -> R x y) ->
  StronglySorted R (l1 ++ l2).
Proof.
  induction l1 as [|a l1 IH]; simpl; intros H1 H2 H12; [assumption|].
  inversion H1 as [|? ? H1' Hall]; subst. constructor.
  - apply IH; auto.
  - apply Forall_app. split; [assumption|].
    apply Forall_forall. intros y Hy. apply H12; auto.
Qed.

Lemma StronglySorted_rev (A : Type) (R : A -> A -> Prop) (l : list A) :
  StronglySorted (fun a b => R b a) l -> StronglySorted R (rev l).
Proof.
  induction 1 as [|a l Hs IH Hall]; simpl.
  - constructor.
  - apply StronglySorted_app_intro.
    + assumption.
    + repeat constructor.
    + intros x y Hx [<-|[]]. rewrite Forall_forall in Hall.
      apply Hall. now apply in_rev.
Qed.

Lemma firstn_In_le (A : Type) (k1 k2 : nat) (p : list A) (x : A) :
  (k1 <= k2)%nat -> In x (firstn k1 p) -> In x (firstn k2 p).
Proof.
  intros Hk Hx. replace (firstn k1 p) with (firstn k1 (firstn k2 p)) in Hx.
  - destruct (firstn_prefix k1 (firstn k2 p)) as [rest E].
    rewrite E. apply in_or_app. now left.
  - rewrite firstn_firstn. now rewrite Nat.min_l.
Qed.

(** Cutting a list and cutting an extension of it at the same limit. *)
Lemma slice0_extend (A : Type) (limit : Z) (p r : list A) (x : A) :
  In x (slice0 limit p) -> In x (slice0 limit (p ++ r)).
Proof.
  unfold slice0. destruct (limit <? 0).
  - intros Hx. rewrite firstn_app. apply in_or_app. left.
    revert Hx. apply firstn_In_le. rewrite length_app. lia.
  - intros Hx. rewrite firstn_app. apply in_or_app. now left.
Qed.

Section Keyed.
Variable A : Type.
Variable comparefn : A -> A -> Q.
Variable key : A -> Q.
Hypothesis comparefn_key :
  forall a b, (comparefn a b ?= 0)%Q = Gt <-> (key b < key a)%Q.

Lemma shiftIn_descending (x : A) (rp : list A) :
  descendingBy key rp -> descendingBy key (shiftIn comparefn x rp).
Proof.
  unfold descendingBy.
  induction 1 as [|y rp Hs IH Hall]; simpl.
  - repeat constructor.
  - destruct (comparefn y x ?= 0)%Q eqn:E.
    + constructor; [now constructor|]. constructor.
      * destruct (Qlt_le_dec (key x) (key y)) as [Hlt|Hle]; [|assumption].
        apply comparefn_key in Hlt. congruence.
      * eapply Forall_impl; [|exact Hall]. simpl. intros b Hb.
        destruct (Qlt_le_dec (key x) (key y)) as [Hlt|Hle]; [|lra].
        apply comparefn_key in Hlt. congruence.
    + constructor; [now constructor|]. constructor.
      * destruct (Qlt_le_dec (key x) (key y)) as [Hlt|Hle]; [|assumption].
        apply comparefn_key in Hlt. congruence.
      * eapply Forall_impl; [|exact Hall]. simpl. intros b Hb.
        destruct (Qlt_le_dec (key x) (key y)) as [Hlt|Hle]; [|lra].
        apply comparefn_key in Hlt. congruence.
    + apply comparefn_key in E. constructor; [assumption|].
      eapply Permutation_Forall.
      { apply Permutation_sym, shiftIn_perm. }
      constructor; [lra|assumption].
Qed.

Lemma sortLoop_descending (l acc : list A) :
  descendingBy key acc -> descendingBy key (sortLoop comparefn l acc).
Proof.
  revert acc. induction l as [|x l IH]; intros acc Hacc; [assumption|].
  unfold sortLoop in *. simpl. apply IH. now apply shiftIn_descending.
Qed.

(** With a comparison function that compares keys, the sorted array is
    ascending in the key. *)
Lemma js_sort_ascending (l : list A) :
  ascendingBy key (js_sort comparefn l).
Proof.
  unfold js_sort, ascendingBy. apply StronglySorted_rev.
  apply (sortLoop_descending l). constructor.
Qed.

Variable keep : A -> bool.
Hypothesis keep_down :
  forall x y, (key y <= key x)%Q -> keep x = true -> keep y = true.

Lemma filter_shiftIn (x : A) (rp : list A) :
  filter keep (shiftIn comparefn x rp)
  = if keep x then shiftIn comparefn x (filter keep rp) else filter keep rp.
Proof.
  induction rp as [|y rp IH]; simpl.
  - destruct (keep x); reflexivity.
  - destruct (comparefn y x ?= 0)%Q eqn:E; simpl.
    + destruct (keep x) eqn:Kx; [|reflexivity].
      assert (Ky : keep y = true).
      { apply keep_down with x; [|assumption].
        destruct (Qlt_le_dec (key x) (key y)) as [Hlt|Hle]; [|assumption].
        apply comparefn_key in Hlt. congruence. }
      rewrite Ky. simpl. now rewrite E.
    + destruct (keep x) eqn:Kx; [|reflexivity].
      assert (Ky : keep y = true).
      { apply keep_down with x; [|assumption].
        destruct (Qlt_le_dec (key x) (key y)) as [Hlt|Hle]; [|assumption].
        apply comparefn_key in Hlt. congruence. }
      rewrite Ky. simpl. now rewrite E.
    + rewrite IH. destruct (keep y) eqn:Ky; destruct (keep x) eqn:Kx;
        simpl; try rewrite E; reflexivity.
Qed.

Lemma filter_sortLoop (l acc : list A) :
  filter keep (sortLoop comparefn l acc)
  = sortLoop comparefn (filter keep l) (filter keep acc).
Proof.
  revert acc. induction l as [|x l IH]; intros acc; [reflexivity|].
  unfold sortLoop in *. simpl. rewrite IH, filter_shiftIn.
  destruct (keep x); reflexivity.
Qed.

(** Sorting by key and keeping the entries below a bound commute. *)
Lemma filter_js_sort (l : list A) :
  js_sort comparefn (filter keep l) = filter keep (js_sort comparefn l).
Proof.
  unfold js_sort. rewrite filter_rev. f_equal.
  symmetry. apply (filter_sortLoop l []).
Qed.

Variable keep' : A -> bool.
Hypothesis keep_keep' : forall x, keep x = true -> keep' x = true.

(** In an ascending array the entries below the smaller bound are the
    first of the entries below the larger bound. *)
Lemma filter_ascending_prefix (l : list A) :
  ascendingBy key l ->
  exists rest, filter keep' l = filter keep l ++ rest.
Proof.
  induction 1 as [|x l Hs IH Hall]; simpl.
  - exists []. reflexivity.
  - destruct (keep x) eqn:Kx.
    + rewrite (keep_keep' Kx). destruct IH as [rest E].
      exists rest. simpl. now rewrite E.
    + assert (Hnone : filter keep l = []).
      { clear IH Hs. induction l as [|y l IHl]; [reflexivity|].
        inversion Hall as [|? ? Hy Hall']; subst. simpl.
        destruct (keep y) eqn:Ky.
        - rewrite (keep_down Hy Ky) in Kx. discriminate.
        - now apply IHl. }
      rewrite Hnone. simpl. eexists. reflexivity.
Qed.

End Keyed.

End SortByKey.

(** ** The model on concrete inputs *)

Module ModelExamples.
Import JsString JsArray SearchService Examples.

Example extname_samples :
  Path.extname "notes.txt" = ".txt"
  /\ Path.extname "archive.tar.gz" = ".gz"
  /\ Path.extname ".bashrc" = EmptyString
  /\ Path.extname "Makefile" = EmptyString
  /\ Path.extname "trailing." = ".".
Proof. repeat split. Qed.

Example like_samples :
  Sql.like (Sql.containsPattern "such") "Lokale Suche" = true
  /\ Sql.like (Sql.containsPattern "a_c") "xabcx" = true
  /\ Sql.like (Sql.containsPattern "abc") "ab" = false
  /\ includes "Lokale Suche" "such" = false.
Proof. repeat split. Qed.

Example slice0_samples :
  slice0 2 [1; 2; 3] = [1; 2]
  /\ slice0 5 [1; 2; 3] = [1; 2; 3]
  /\ slice0 (-1) [1; 2; 3] = [1; 2]
  /\ slice0 0 [1; 2; 3] = [].
Proof. repeat split. Qed.

Example sort_numbers :
  js_sort (fun a b => inject_Z (a - b)) [3; 1; 2; 1] = [1; 1; 2; 3].
Proof. reflexivity. Qed.

Example searchFiles_twoFiles :
  searchFiles (H := plainHost) twoFiles "foo" None
    {| fo_limit := None; fo_extensions := None; fo_includeContent := None |}
  = [FileResult fooHit; FileResult barHit].
Proof. reflexivity. Qed.

Example walk_stops_at_limit :
  searchFiles (H := plainHost) twoFiles "foo" None
    {| fo_limit := Some 1; fo_extensions := None; fo_includeContent := None |}
  = [FileResult fooHit].
Proof. reflexivity. Qed.

Example searchWeb_limit_1 :
  option_map (map title_of)
    (match searchWeb (H := plainHost) "foo" (Some 1) with
     | inr results => Some results
     | inl _ => None
     end)
  = Some [("Suchergebnisse für " ++ quoteMark ++ "foo" ++ quoteMark)%string].
Proof. reflexivity. Qed.

Example mixed_sources :
  option_map (map title_of)
    (match searchAdvanced (H := plainHost) (Some sampleRows) twoFiles "foo"
             (Some (SourcesArray ["web"; "local"; "files"])) noOptions with
     | inr results => Some results
     | inl _ => None
     end)
  = Some [("Suchergebnisse für " ++ quoteMark ++ "foo" ++ quoteMark)%string;
          "foo - Wikipedia"; "foo.txt"; "bar.txt"].
Proof. reflexivity. Qed.

End ModelExamples.

(** ** File search *)

Module FileSearchFacts.
Import JsString JsArray JsArrayFacts SearchService.

Lemma byRelevance_key (H : Host) (query : string) (a b : fileHit) :
  (byRelevance query a b ?= 0)%Q = Gt
  <-> (inject_Z (- relevance query b) < inject_Z (- relevance query a))%Q.
Proof.
  unfold byRelevance. rewrite <- Qgt_alt, <- Zlt_Qlt.
  change 0%Q with (inject_Z 0). rewrite <- Zlt_Qlt. lia.
Qed.

Lemma sort_byRelevance_descending (H : Host) (query : string)
  (hits : list fileHit) :
  StronglySorted (fun a b => relevance query b <= relevance query a)
    (js_sort (byRelevance query) hits).
Proof.
  apply StronglySorted_weaken
    with (R := fun a b => (inject_Z (- relevance query a)
                           <= inject_Z (- relevance query b))%Q).
  - intros a b Hab. rewrite <- Zle_Qle in Hab. lia.
  - apply SortByKey.js_sort_ascending. apply byRelevance_key.
Qed.

(** C7: [searchFiles] returns file results whose ranking value is the
    match count plus 10 when the file name, lowered by the platform's
    [toLowerCase], contains the query lowered in the same way (plus 0
    otherwise), in descending order of that value. This holds whatever
    letters [toLowerCase] lowers. *)
Theorem searchFiles_ranked_by_relevance (H : Host) (fs : fileSystem)
  (query : string) (searchPath : option string) (options : fileOptions) :
  exists hits : list fileHit,
    searchFiles fs query searchPath options = map FileResult hits
    /\ Forall (fun f =>
                 relevance query f
                 = file_matches f
                   + (if includes (String_toLowerCase (file_title f))
                                  (String_toLowerCase query)
                      then 10 else 0)) hits
    /\ StronglySorted (fun a b => relevance query b <= relevance query a)
         hits.
Proof.
  unfold searchFiles. eexists. split; [reflexivity|]. split.
  - apply Forall_forall. intros f _. reflexivity.
  - apply slice0_sorted. apply sort_byRelevance_descending.
Qed.

End FileSearchFacts.

(** ** The aggregator *)

Module AggregatorFacts.
Import JsString JsArray JsArrayFacts SearchService Examples.

(** *** Deduplication *)





Lemma FOP_snoc (A : Type) (R : A -> A -> Prop) (l : list A) (x : A) :
  ForallOrdPairs R l -> Forall (fun e => R e x) l ->
  ForallOrdPairs R (l ++ [x]).
Proof.
  induction 1 as [|a l Hall Hfop IH]; simpl; intros Hx.
  - constructor; constructor.
  - inversion Hx as [|? ? Hax Hx']; subst. constructor.
    + apply Forall_app. split; [assumption|]. repeat constructor. assumption.
    + now apply IH.
Qed.

Lemma FOP_app_l (A : Type) (R : A -> A -> Prop) (l1 l2 : list A) :
  ForallOrdPairs R (l1 ++ l2) -> ForallOrdPairs R l1.
Proof.
  induction l1 as [|a l1 IH]; simpl; intros Hf.
  - constructor.
  - inversion Hf as [|? ? Hall Hf']; subst. constructor.
    + apply Forall_app in Hall. tauto.
    + now apply IH.
Qed.


Lemma pushUnique_distinct (unique : list result) (item : result) :
  ForallOrdPairs distinctResults unique ->
  ForallOrdPairs distinctResults (pushUnique unique item).
Proof.
  intros Hf. unfold pushUnique.
  destruct (existsb _ unique) eqn:E; [assumption|].
  apply FOP_snoc; [assumption|].
  apply Forall_forall. intros e He. unfold distinctResults.
  destruct (isDuplicateOf e item) eqn:D; [|reflexivity].
  assert (existsb (fun existing => isDuplicateOf existing item) unique = true).
  { apply existsb_exists. eauto. }
  congruence.
Qed.

Lemma fold_pushUnique_distinct (l unique : list result) :
  ForallOrdPairs distinctResults unique ->
  ForallOrdPairs distinctResults (fold_left pushUnique l unique).
Proof.
  revert unique. induction l as [|x l IH]; intros unique Hf; simpl.
  - assumption.
  - apply IH. now apply pushUnique_distinct.
Qed.

Lemma removeDuplicates_distinct (combined : list result) :
  ForallOrdPairs distinctResults (removeDuplicates combined).
Proof. apply fold_pushUnique_distinct. constructor. Qed.




Lemma FOP_before (A : Type) (R : A -> A -> Prop) (l1 l2 : list A) (x : A) :
  ForallOrdPairs R (l1 ++ x :: l2) -> Forall (fun e => R e x) l1.
Proof.
  induction l1 as [|a l1 IH]; simpl; intros Hf.
  - constructor.
  - inversion Hf as [|? ? Hall Hf']; subst. constructor.
    + apply Forall_app in Hall. destruct Hall as [_ Hall].
      now inversion Hall.
    + now apply IH.
Qed.

Lemma fold_pushUnique_all_distinct (l unique : list result) :
  ForallOrdPairs distinctResults (unique ++ l) ->
  fold_left pushUnique l unique = unique ++ l.
Proof.
  revert unique. induction l as [|x l IH]; intros unique Hf; simpl.
  - now rewrite app_nil_r.
  - assert (E : pushUnique unique x = unique ++ [x]).
    { unfold pushUnique.
      destruct (existsb _ unique) eqn:E; [|reflexivity].
      apply existsb_exists in E. destruct E as [y [Hy Hd]].
      apply FOP_before in Hf. rewrite Forall_forall in Hf.
      specialize (Hf y Hy). unfold distinctResults in Hf. congruence. }
    rewrite E, IH; rewrite <- app_assoc; [reflexivity|assumption].
Qed.

Lemma removeDuplicates_all_distinct (combined : list result) :
  ForallOrdPairs distinctResults combined ->
  removeDuplicates combined = combined.
Proof. intros Hf. apply (fold_pushUnique_all_distinct combined []). exact Hf. Qed.











(** *** Failing sources and the sources argument *)

Lemma aggregate_nothing (limit : Z) (searchResults : list settled) :
  combine searchResults = [] -> aggregate limit searchResults = [].
Proof.
  intros E. unfold aggregate. rewrite E. unfold removeDuplicates. simpl.
  rewrite js_sort_nil. apply slice0_nil.
Qed.

Lemma combine_requested (flag : bool) (message : string)
  (promise : string + list result) (others : list settled) :
  (flag = true -> exists e, promise = inl e) ->
  combine ((if flag then [catchAs message promise] else []) ++ others)
  = combine others.
Proof.
  intros Hfail. destruct flag; [|reflexivity].
  destruct (Hfail eq_refl) as [e ->]. reflexivity.
Qed.

(** C2: when every requested source fails, [searchAdvanced] resolves to
    the empty list; no error is raised. *)
Theorem all_requested_sources_fail (sources : sourcesArg) (limit : Z)
  (webSearch localSearch fileSearch : string + list result) :
  sources <> SourcesOther ->
  (sourcesIncludes sources "web" = Some true ->
   exists e, webSearch = inl e) ->
  (sourcesIncludes sources "local" = Some true ->
   exists e, localSearch = inl e) ->
  (sourcesIncludes sources "files" = Some true ->
   exists e, fileSearch = inl e) ->
  searchAdvancedWith sources limit webSearch localSearch fileSearch = inr [].
Proof.
  intros Hsrc Hweb Hlocal Hfiles. unfold searchAdvancedWith, dispatch.
  destruct (sourcesIncludes sources "web") as [w|] eqn:Ew;
    [|destruct sources; simpl in Ew; congruence].
  destruct (sourcesIncludes sources "local") as [l|] eqn:El;
    [|destruct sources; simpl in El; congruence].
  destruct (sourcesIncludes sources "files") as [f|] eqn:Ef;
    [|destruct sources; simpl in Ef; congruence].
  f_equal. apply aggregate_nothing.
  rewrite combine_requested by (intros ->; auto).
  rewrite combine_requested by (intros ->; auto).
  rewrite <- (app_nil_r (if f then _ else _)).
  rewrite combine_requested by (intros ->; auto).
  reflexivity.
Qed.

(** With the web source down and only the web source requested, the
    call with limit 10 resolves to the empty list. *)
Lemma web_down_web_only :
  searchAdvanced (H := webDownHost) (Some []) emptyDisk "q" webOnly limit10
  = inr [].
Proof.
  unfold searchAdvanced, webOnly. apply all_requested_sources_fail.
  - discriminate.
  - intros _. eexists. reflexivity.
  - simpl. discriminate.
  - simpl. discriminate.
Defined.

(** C4, as stated, fails: with an empty [sources] array the call
    resolves normally, to the empty list. *)
Lemma no_sources_is_no_error :
  searchAdvanced (H := plainHost) (Some []) twoFiles "foo" noSources noOptions
  = inr [].
Proof. reflexivity. Qed.

(** C4, amended: with no sources selected [searchAdvanced] raises no
    error; it resolves to the empty list. *)
Theorem no_sources_empty_list (H : Host) (db : database) (fs : fileSystem)
  (query : string) (options : advancedOptions) :
  searchAdvanced db fs query (Some (SourcesArray [])) options = inr [].
Proof.
  unfold searchAdvanced, searchAdvancedWith, dispatch. simpl.
  f_equal. now apply aggregate_nothing.
Qed.

(** The only hard error: a [sources] value without [includes]. *)
Lemma sources_without_includes (H : Host) (db : database) (fs : fileSystem)
  (query : string) (options : advancedOptions) :
  searchAdvanced db fs query (Some SourcesOther) options
  = inl "Erweiterte Suche fehlgeschlagen".
Proof. reflexivity. Qed.

(** *** The final sort *)

Lemma zero_score_compares_equal (e : dataEntry) (s : Q) (b : result) :
  (s == 0)%Q ->
  advancedCompare (LocalResult e (Some s)) b = 0%Q
  /\ advancedCompare b (LocalResult e (Some s)) = 0%Q.
Proof.
  intros Hs. unfold advancedCompare. simpl.
  apply Qeq_bool_iff in Hs. rewrite Hs. simpl.
  rewrite !andb_false_r. auto.
Qed.

Lemma zero_score_inert (e : dataEntry) (s : Q) :
  (s == 0)%Q -> inert advancedCompare (LocalResult e (Some s)).
Proof.
  intros Hs x. destruct (zero_score_compares_equal e x Hs) as [-> ->].
  split; discriminate.
Qed.

(** *** The final sort away from zero values *)

Lemma scored_is_local (r : result) :
  isScored r = true ->
  exists e s, r = LocalResult e (Some s) /\ Qeq_bool s 0 = false.
Proof.
  unfold isScored. destruct r as [w|e [s|]|f]; simpl; try discriminate.
  intros Hs. exists e, s. split; [reflexivity|].
  now apply negb_true_iff.
Qed.

Lemma counted_is_file (r : result) :
  isCounted r = true ->
  exists f, r = FileResult f /\ Qeq_bool (inject_Z (file_matches f)) 0 = false.
Proof.
  unfold isCounted. destruct r as [w|e [s|]|f]; simpl;
    rewrite ?andb_false_r; try discriminate.
  intros Hf. exists f. split; [reflexivity|]. now apply negb_true_iff.
Qed.

Lemma unranked_inert (r : result) :
  isUnranked r = true -> inert advancedCompare r.
Proof.
  unfold isUnranked. intros Hr. apply andb_true_iff in Hr.
  destruct Hr as [Hs Hm]. apply negb_true_iff in Hs, Hm.
  intros x. unfold advancedCompare. rewrite Hs, Hm. simpl.
  rewrite !andb_false_r. split; discriminate.
Qed.

Lemma scored_before_counted (a x : result) :
  isScored a = true -> isCounted x = true ->
  (advancedCompare a x ?= 0)%Q <> Gt.
Proof.
  intros Ha Hx. destruct (scored_is_local a Ha) as [e [s [-> Hs]]].
  destruct (counted_is_file x Hx) as [f [-> Hf]].
  unfold advancedCompare. simpl. rewrite andb_false_r. discriminate.
Qed.

Lemma compare_scored (a b : result) :
  isScored a = true -> isScored b = true ->
  advancedCompare a b = byScoreOnly a b.
Proof.
  unfold isScored, advancedCompare. now intros -> ->.
Qed.

Lemma compare_counted (a b : result) :
  isCounted a = true -> isCounted b = true ->
  advancedCompare a b = byCountOnly a b.
Proof.
  unfold isCounted, advancedCompare. intros Ha Hb.
  apply andb_true_iff in Ha, Hb. destruct Ha as [Ha1 Ha2], Hb as [Hb1 Hb2].
  apply negb_true_iff in Ha1. rewrite Ha1, Ha2, Hb2. reflexivity.
Qed.

Lemma byScoreOnly_key (a b : result) :
  (byScoreOnly a b ?= 0)%Q = Gt
  <-> (numberOr0 (score_of b) < numberOr0 (score_of a))%Q.
Proof. unfold byScoreOnly. rewrite <- Qgt_alt. split; intros; lra. Qed.

Lemma byCountOnly_key (a b : result) :
  (byCountOnly a b ?= 0)%Q = Gt
  <-> (- numberOr0 (matchesNumber b) < - numberOr0 (matchesNumber a))%Q.
Proof. unfold byCountOnly. rewrite <- Qgt_alt. split; intros; lra. Qed.

Lemma FOP_app (A : Type) (R : A -> A -> Prop) (l1 l2 : list A) :
  ForallOrdPairs R l1 -> ForallOrdPairs R l2 ->
  (forall a b, In a l1 -> In b l2 -> R a b) ->
  ForallOrdPairs R (l1 ++ l2).
Proof.
  induction 1 as [|a l1 Hall Hf IH]; simpl; intros H2 H12; [assumption|].
  constructor.
  - apply Forall_app. split; [assumption|].
    apply Forall_forall. intros b Hb. apply H12; [now left|assumption].
  - apply IH; [assumption|]. intros x y Hx Hy. apply H12; [now right|assumption].
Qed.

Lemma sorted_pairs (A : Type) (R R' : A -> A -> Prop) (P : A -> Prop)
  (l : list A) :
  (forall a b, P a -> P b -> R a b -> R' a b) ->
  Forall P l -> StronglySorted R l -> ForallOrdPairs R' l.
Proof.
  intros HR HP. induction 1 as [|a l Hs IH Hall]; [constructor|].
  inversion HP as [|? ? Pa Pl]; subst. constructor.
  - apply Forall_forall. intros b Hb. rewrite Forall_forall in Hall, Pl.
    apply HR; auto.
  - now apply IH.
Qed.

(** Away from the value 0 the final sort does order as stated: with the
    results that have neither a score nor a count first (as the web
    results are), then results that all have a non-zero score, then
    results that all have a non-zero count, the sorted list keeps the
    first part, has the scored results in ascending order of score and
    the counted results in descending order of count, in this order. *)
Lemma final_sort_away_from_zero (ws ss fs : list result) :
  Forall (fun r => score_of r = None /\ matches_of r = None) ws ->
  Forall (fun r => isScored r = true) ss ->
  Forall (fun r => isCounted r = true) fs ->
  js_sort advancedCompare (ws ++ ss ++ fs)
  = ws ++ js_sort byScoreOnly ss ++ js_sort byCountOnly fs
  /\ ascendingBy (fun r => numberOr0 (score_of r)) (js_sort byScoreOnly ss)
  /\ descendingBy (fun r => numberOr0 (matchesNumber r))
       (js_sort byCountOnly fs)
  /\ claimedOrder (js_sort advancedCompare (ws ++ ss ++ fs)).
Proof.
  intros Hws Hss Hfs.
  assert (Hsorted : js_sort advancedCompare (ws ++ ss ++ fs)
                    = ws ++ js_sort byScoreOnly ss ++ js_sort byCountOnly fs).
  { rewrite js_sort_inert_first.
    - f_equal. rewrite js_sort_parts.
      + f_equal; apply js_sort_ext; intros a b Ha Hb.
        * rewrite Forall_forall in Hss.
          now rewrite compare_scored by auto.
        * rewrite Forall_forall in Hfs.
          now rewrite compare_counted by auto.
      + intros a x Ha Hx. rewrite Forall_forall in Hss, Hfs.
        apply scored_before_counted; auto.
    - eapply Forall_impl; [|exact Hws]. intros r [Hs Hm].
      apply unranked_inert. unfold isUnranked, matchesNumber.
      now rewrite Hs, Hm. }
  assert (Hasc : ascendingBy (fun r => numberOr0 (score_of r))
                   (js_sort byScoreOnly ss)).
  { apply SortByKey.js_sort_ascending. apply byScoreOnly_key. }
  assert (Hdesc : descendingBy (fun r => numberOr0 (matchesNumber r))
                    (js_sort byCountOnly fs)).
  { unfold descendingBy.
    apply StronglySorted_weaken
      with (R := fun a b => (- numberOr0 (matchesNumber a)
                             <= - numberOr0 (matchesNumber b))%Q).
    - intros a b Hab. lra.
    - apply (SortByKey.js_sort_ascending byCountOnly
               (fun r => (- numberOr0 (matchesNumber r))%Q) byCountOnly_key). }
  split; [exact Hsorted|]. split; [exact Hasc|]. split; [exact Hdesc|].
  rewrite Hsorted. unfold claimedOrder.
  assert (Hss' : Forall (fun r => isScored r = true) (js_sort byScoreOnly ss)).
  { eapply Permutation_Forall; [|exact Hss].
    apply Permutation_sym, js_sort_perm. }
  assert (Hfs' : Forall (fun r => isCounted r = true) (js_sort byCountOnly fs)).
  { eapply Permutation_Forall; [|exact Hfs].
    apply Permutation_sym, js_sort_perm. }
  rewrite Forall_forall in Hws.
  apply FOP_app; [|apply FOP_app|].
  - clear Hsorted. induction ws as [|w ws IHw]; constructor.
    + apply Forall_forall. intros b Hb.
      destruct (Hws w (or_introl eq_refl)) as [Hs Hm].
      destruct (Hws b (or_intror Hb)) as [Hs' Hm'].
      unfold inClaimedOrder. now rewrite Hs, Hs', Hm.
    + apply IHw. intros x Hx. apply Hws. now right.
  - refine (@sorted_pairs _ _ _ (fun r => isScored r = true) _ _ Hss' Hasc).
    intros a b Ha Hb Hab.
    destruct (scored_is_local a Ha) as [ea [sa [-> _]]].
    destruct (scored_is_local b Hb) as [eb [sb [-> _]]].
    exact Hab.
  - refine (@sorted_pairs _ _ _ (fun r => isCounted r = true) _ _ Hfs' Hdesc).
    intros a b Ha Hb Hab.
    destruct (counted_is_file a Ha) as [fa [-> _]].
    destruct (counted_is_file b Hb) as [fb [-> _]].
    unfold inClaimedOrder. simpl in *. rewrite Zle_Qle. exact Hab.
  - intros a b Ha Hb. rewrite Forall_forall in Hss', Hfs'.
    destruct (scored_is_local a (Hss' a Ha)) as [ea [sa [-> _]]].
    destruct (counted_is_file b (Hfs' b Hb)) as [fb [-> _]].
    exact I.
  - intros a b Ha Hb. destruct (Hws a Ha) as [Hs Hm].
    unfold inClaimedOrder. rewrite Hs, Hm.
    destruct (score_of b); [reflexivity|exact I].
Qed.

(** C1 at a failing input: for the query [foo], a file whose name matches
    and whose text does not (count 0) stays before a file with count 5,
    so the count-only entries are not in descending order of count. *)
Theorem zero_count_stays_first :
  searchAdvanced (H := plainHost) (Some []) twoFiles "foo" filesOnly noOptions
  = inr [FileResult fooHit; FileResult barHit]
  /\ matches_of (FileResult fooHit) = Some 0
  /\ matches_of (FileResult barHit) = Some 5
  /\ ~ claimedOrder [FileResult fooHit; FileResult barHit].
Proof.
  split; [reflexivity|]. split; [reflexivity|]. split; [reflexivity|].
  intros Hc. inversion Hc as [|? ? Hall _]; subst.
  inversion Hall as [|? ? Hab _]; subst.
  unfold inClaimedOrder in Hab. simpl in Hab. lia.
Qed.

End AggregatorFacts.

(** ** The local search and the suggestions route *)

Module LocalSearchFacts.
Import JsString JsArray JsArrayFacts SearchService SearchRoutes Examples.

(** *** Threshold of the fuzzy search *)

Lemma byScore_key (a b : Fuse.fuseResult) :
  (Fuse.byScore a b ?= 0)%Q = Gt <-> (Fuse.score b < Fuse.score a)%Q.
Proof. unfold Fuse.byScore. rewrite <- Qgt_alt. split; intros; lra. Qed.

Lemma withinThreshold_down (t : Q) (x y : Fuse.fuseResult) :
  (Fuse.score y <= Fuse.score x)%Q ->
  Fuse.withinThreshold t x = true -> Fuse.withinThreshold t y = true.
Proof.
  unfold Fuse.withinThreshold. rewrite !Qle_bool_iff. intros; lra.
Qed.

Lemma withinThreshold_mono (t1 t2 : Q) (x : Fuse.fuseResult) :
  (t1 <= t2)%Q -> Fuse.withinThreshold t1 x = true -> Fuse.withinThreshold t2 x = true.
Proof.
  unfold Fuse.withinThreshold. rewrite !Qle_bool_iff. intros; lra.
Qed.

Lemma search_filters_sorted (H : Host) (t : Q) (query : string)
  (corpus : list dataEntry) :
  Fuse.search t query corpus
  = filter (Fuse.withinThreshold t)
      (js_sort Fuse.byScore (Fuse.scoreAll query corpus)).
Proof.
  unfold Fuse.search.
  apply (SortByKey.filter_js_sort Fuse.byScore Fuse.score byScore_key
           (Fuse.withinThreshold t)).
  intros x y. apply withinThreshold_down.
Qed.

Lemma search_extends (H : Host) (t1 t2 : Q) (query : string)
  (corpus : list dataEntry) :
  (t1 <= t2)%Q ->
  exists rest,
    Fuse.search t2 query corpus = Fuse.search t1 query corpus ++ rest.
Proof.
  intros Ht. rewrite !search_filters_sorted.
  apply SortByKey.filter_ascending_prefix with (key := Fuse.score).
  - intros x y. apply withinThreshold_down.
  - intros x. now apply withinThreshold_mono.
  - apply SortByKey.js_sort_ascending. apply byScore_key.
Qed.

Lemma fuzzyResults_monotone (H : Host) (t1 t2 : Q) (limit : Z)
  (query : string) (corpus : list dataEntry) :
  (t1 <= t2)%Q ->
  incl (fuzzyResults t1 limit query corpus)
       (fuzzyResults t2 limit query corpus).
Proof.
  intros Ht r. unfold fuzzyResults.
  destruct (search_extends H query corpus Ht) as [rest ->].
  rewrite map_app. apply SortByKey.slice0_extend.
Qed.

(** C6: raising the threshold of the fuzzy local search never removes a
    result. Both searches fail together when the store fails; otherwise
    every result returned at [t1] is returned at [t2]. *)
Theorem threshold_monotone (H : Host) (db : database) (query : string)
  (limit : option Z) (category : option string) (t1 t2 : Q) :
  (t1 <= t2)%Q ->
  match outcome (searchLocal db query
                   {| lo_limit := limit; lo_fuzzy := None;
                      lo_threshold := Some t1; lo_suggestionsOnly := None;
                      lo_category := category |}),
        outcome (searchLocal db query
                   {| lo_limit := limit; lo_fuzzy := None;
                      lo_threshold := Some t2; lo_suggestionsOnly := None;
                      lo_category := category |}) with
  | inr (Entries atLower), inr (Entries atHigher) => incl atLower atHigher
  | inl _, inl _ => True
  | _, _ => False
  end.
Proof.
  intros Ht. destruct db as [rows|]; simpl; [|exact I].
  now apply fuzzyResults_monotone.
Qed.

(** The search for [kontakt] at thresholds 3/10 and 6/10 over a store
    with two rows. *)
Lemma threshold_monotone_sample :
  (3 # 10 <= 6 # 10)%Q
  /\ match outcome (searchLocal (H := plainHost) (Some sampleRows) "kontakt"
                      {| lo_limit := Some 5; lo_fuzzy := None;
                         lo_threshold := Some (3 # 10)%Q;
                         lo_suggestionsOnly := None; lo_category := None |}),
           outcome (searchLocal (H := plainHost) (Some sampleRows) "kontakt"
                      {| lo_limit := Some 5; lo_fuzzy := None;
                         lo_threshold := Some (6 # 10)%Q;
                         lo_suggestionsOnly := None; lo_category := None |})
     with
     | inr (Entries atLower), inr (Entries atHigher) => incl atLower atHigher
     | inl _, inl _ => True
     | _, _ => False
     end.
Proof.
  assert (Hle : (3 # 10 <= 6 # 10)%Q) by (unfold Qle; simpl; lia).
  split; [exact Hle|].
  exact (threshold_monotone plainHost (Some sampleRows) "kontakt" (Some 5)
           None Hle).
Defined.

(** *** The two kinds of output *)

Lemma searchLocal_entries (H : Host) (db : database) (query : string)
  (options : localOptions) :
  lo_suggestionsOnly options = None ->
  match outcome (searchLocal db query options) with
  | inr (Titles _) => False
  | _ => True
  end.
Proof.
  intros E. unfold searchLocal. rewrite E.
  destruct db as [rows|], (lo_fuzzy options) as [[|]|]; simpl; exact I.
Qed.

Lemma searchLocal_titles (H : Host) (db : database) (query : string) :
  match outcome (searchLocal db query suggestionOptions) with
  | inr (Entries _) => False
  | _ => True
  end.
Proof. destruct db as [rows|]; simpl; exact I. Qed.

(** *** Suggestions *)

Lemma long_query_truthy (q : string) :
  (2 <= String.length q)%nat ->
  negb (truthy q) || (String.length q <? 2)%nat = false.
Proof.
  intros Hq. destruct q as [|c q]; simpl in *; [lia|].
  apply Nat.ltb_ge. simpl. lia.
Qed.

Lemma short_query_falls_out (q : string) :
  (String.length q < 2)%nat ->
  negb (truthy q) || (String.length q <? 2)%nat = true.
Proof.
  intros Hq. apply orb_true_iff. right. now apply Nat.ltb_lt.
Qed.

(** C8: a missing [q] and every [q] shorter than 2 characters yield the
    empty suggestions list with no call to the store; a [q] of length 2
    or more is passed to the local search, whose single store query and
    whose titles (or failure) make up the answer. *)
Theorem suggestions_need_two_characters (H : Host) (db : database) :
  getSuggestions db None = ([], inr (SuggestionsJson []))
  /\ (forall q : string,
         (String.length q < 2)%nat ->
         getSuggestions db (Some q) = ([], inr (SuggestionsJson [])))
  /\ (forall q : string,
         (2 <= String.length q)%nat ->
         calls (getSuggestions db (Some q))
         = calls (searchLocal db q suggestionOptions)
         /\ calls (getSuggestions db (Some q))
            = [CallSearchDataInDB q 5 None true]
         /\ outcome (getSuggestions db (Some q))
            = match outcome (searchLocal db q suggestionOptions) with
              | inr (Titles titles) => inr (SuggestionsJson titles)
              | inr (Entries _) => inr (SuggestionsJson [])
              | inl _ => inr (Status500 suggestionsFailed)
              end).
Proof.
  split; [reflexivity|]. split.
  - intros q Hq. unfold getSuggestions.
    now rewrite (short_query_falls_out q Hq).
  - intros q Hq. unfold getSuggestions.
    rewrite (long_query_truthy q Hq).
    destruct db as [rows|]; simpl; auto.
Qed.

(** One character: nothing is looked up. Two characters: one query. *)
Lemma suggestions_sample :
  getSuggestions (H := plainHost) (Some sampleRows) (Some "z")
  = ([], inr (SuggestionsJson []))
  /\ calls (getSuggestions (H := plainHost) (Some sampleRows) (Some "zz"))
     = [CallSearchDataInDB "zz" 5 None true].
Proof.
  split.
  - apply (proj1 (proj2 (suggestions_need_two_characters plainHost
                           (Some sampleRows)))).
    simpl. lia.
  - apply (proj2 (proj2 (suggestions_need_two_characters plainHost
                           (Some sampleRows)))).
    simpl. lia.
Defined.

(** *** What the suggestions are *)

Lemma like_percent (pattern text : string) :
  Sql.like (String "%" pattern) text
  = Sql.like pattern text
    || match text with
       | EmptyString => false
       | String _ text' => Sql.like (String "%" pattern) text'
       end.
Proof. destruct text; reflexivity. Qed.

Lemma like_percent_only (text : string) : Sql.like "%" text = true.
Proof.
  induction text as [|c text IH].
  - reflexivity.
  - rewrite like_percent, IH. apply orb_true_r.
Qed.










End LocalSearchFacts.

(** ** The rate limiter *)

Module RateLimiterFacts.
Import stdpp.base stdpp.option stdpp.fin_maps stdpp.gmap stdpp.strings.
Import RateLimiter.
#[local] Open Scope Z_scope.

Lemma tier_positive (t : tier) :
  0 < points (limiterOf t) /\ 0 < windowMs (limiterOf t)
  /\ windowMs (limiterOf t) <= blockMs (limiterOf t).
Proof. destruct t; cbv; repeat split; congruence. Qed.

Lemma consume_first (o : limiterOptions) (now : Z) (key : string)
  (store : gmap string counter) :
  0 < points o -> 0 < windowMs o -> store !! key = None ->
  consume o now key store
  = (Allowed (points o - 1) (now + windowMs o),
     <[key := openCounter 1 now]> store).
Proof.
  intros Hp Hw Hnone. unfold consume, counterOf, refreshWindow.
  rewrite Hnone. simpl.
  replace (now - now) with 0 by lia.
  destruct (Z.leb_spec (windowMs o) 0) as [Hle|_]; [lia|].
  unfold isBlocked. simpl. change (0 + 1) with 1.
  destruct (Z.leb_spec 1 (points o)) as [_|Hlt]; [|lia].
  reflexivity.
Qed.

Lemma consume_open (o : limiterOptions) (now start : Z) (n : nat)
  (key : string) (store : gmap string counter) :
  store !! key = Some (openCounter n start) ->
  now - start < windowMs o -> Z.of_nat n < points o ->
  consume o now key store
  = (Allowed (points o - Z.of_nat (S n)) (start + windowMs o),
     <[key := openCounter (S n) start]> store).
Proof.
  intros Hsome Hw Hn. unfold consume, counterOf, refreshWindow.
  rewrite Hsome. simpl.
  destruct (Z.leb_spec (windowMs o) (now - start)) as [Hle|_]; [lia|].
  unfold isBlocked. simpl.
  destruct (Z.leb_spec (Z.of_nat n + 1) (points o)) as [_|Hlt]; [|lia].
  unfold openCounter. repeat f_equal; lia.
Qed.

Lemma consume_full (o : limiterOptions) (now start : Z) (n : nat)
  (key : string) (store : gmap string counter) :
  store !! key = Some (openCounter n start) ->
  now - start < windowMs o -> points o <= Z.of_nat n ->
  consume o now key store
  = (Rejected (blockMs o) (now + blockMs o),
     <[key := {| consumed := Z.of_nat n + 1; windowStart := start;
                 blockedUntil := Some (now + blockMs o) |}]> store).
Proof.
  intros Hsome Hw Hn. unfold consume, counterOf, refreshWindow.
  rewrite Hsome. simpl.
  destruct (Z.leb_spec (windowMs o) (now - start)) as [Hle|_]; [lia|].
  unfold isBlocked. simpl.
  destruct (Z.leb_spec (Z.of_nat n + 1) (points o)) as [Hle|_]; [lia|].
  reflexivity.
Qed.

Lemma consume_after_block (o : limiterOptions) (now start untilMs n : Z)
  (key : string) (store : gmap string counter) :
  store !! key = Some {| consumed := n; windowStart := start;
                         blockedUntil := Some untilMs |} ->
  0 < points o -> windowMs o <= now - start -> untilMs <= now ->
  consume o now key store
  = (Allowed (points o - 1) (now + windowMs o),
     <[key := {| consumed := 1; windowStart := now;
                 blockedUntil := Some untilMs |}]> store).
Proof.
  intros Hsome Hp Hw Hu. unfold consume, counterOf, refreshWindow.
  rewrite Hsome. simpl.
  destruct (Z.leb_spec (windowMs o) (now - start)) as [_|Hlt]; [|lia].
  unfold isBlocked. simpl.
  destruct (Z.ltb_spec now untilMs) as [Hlt|_]; [lia|].
  change (0 + 1) with 1.
  destruct (Z.leb_spec 1 (points o)) as [_|Hlt]; [|lia].
  reflexivity.
Qed.

Lemma consumeAll_open (o : limiterOptions) (start : Z) (key : string)
  (times : list Z) (n : nat) (store : gmap string counter) :
  store !! key = Some (openCounter n start) ->
  Forall (fun now => start <= now < start + windowMs o) times ->
  Z.of_nat (n + List.length times) <= points o ->
  fst (consumeAll o key times store)
  = allowedFrom o start n (List.length times)
  /\ snd (consumeAll o key times store) !! key
     = Some (openCounter (n + List.length times) start).
Proof.
  revert n store. induction times as [|now later IH]; intros n store Hs Hall Hn.
  - simpl. rewrite Nat.add_0_r. auto.
  - inversion Hall as [|? ? Hnow Hlater]; subst. simpl in Hn.
    simpl. rewrite (consume_open o now key store Hs) by lia.
    specialize (IH (S n) (<[key := openCounter (S n) start]> store)).
    destruct (consumeAll o key later
                (<[key := openCounter (S n) start]> store)) as [rs store'].
    simpl in *.
    destruct IH as [IHr IHs]; [apply lookup_insert_eq|assumption|lia|].
    split.
    + unfold allowedFrom in *. simpl. now rewrite IHr.
    + rewrite IHs. f_equal. f_equal. lia.
Qed.

Lemma allowedFrom_allowed (o : limiterOptions) (start : Z) (n count : nat) :
  Forall (fun r => isAllowed r = true) (allowedFrom o start n count).
Proof.
  unfold allowedFrom. apply List.Forall_forall. intros r Hr.
  apply List.in_map_iff in Hr. destruct Hr as [i [<- _]]. reflexivity.
Qed.

(** C3: for every tier and key, starting from no counter: the calls of
    one window up to the capacity are all allowed, the next call in that
    window is rejected with [retryAfter] the block duration, and a call
    made once the block duration has elapsed since the rejecting call is
    allowed with [consumed] back at 1. For the search tier the rejected
    request is answered 429 with Retry-After 120. *)
Theorem capacity_then_block_then_reset (t : tier) (key : string)
  (store : gmap string counter) (first : Z) (others : list Z)
  (rejecting next : Z) :
  store !! key = None ->
  Z.of_nat (S (List.length others)) = points (limiterOf t) ->
  Forall (fun now => first <= now < first + windowMs (limiterOf t)) others ->
  first <= rejecting < first + windowMs (limiterOf t) ->
  rejecting + blockMs (limiterOf t) <= next ->
  let o := limiterOf t in
  let inWindow := consumeAll o key (first :: others) store in
  let rejected := consume o rejecting key (snd inWindow) in
  let afterBlock := consume o next key (snd rejected) in
  fst inWindow = allowedFrom o first 0 (S (List.length others))
  /\ Forall (fun r => isAllowed r = true) (fst inWindow)
  /\ fst rejected = Rejected (blockMs o) (rejecting + blockMs o)
  /\ fst afterBlock = Allowed (points o - 1) (next + windowMs o)
  /\ consumed <$> (snd afterBlock !! key) = Some 1
  /\ (t = Search ->
      fst (searchRateLimit rejecting key (snd inWindow))
      = TooManyRequests 120 30 0 (rejecting + 120000)
          "Such-Rate-Limit überschritten" 120).
Proof.
  intros Hnone Hcap Hothers Hrej Hnext o inWindow rejected afterBlock.
  destruct (tier_positive t) as [Hp [Hw Hb]].
  fold o in Hp, Hw, Hb, Hcap, Hothers, Hrej, Hnext.
  assert (Hin : fst inWindow = allowedFrom o first 0 (S (List.length others))
                /\ snd inWindow !! key
                   = Some (openCounter (S (List.length others)) first)).
  { unfold inWindow. simpl.
    rewrite (consume_first o first key store Hp Hw Hnone).
    assert (Hn : Z.of_nat (1 + List.length others) <= points o)
      by (rewrite <- Hcap; apply Z.le_refl).
    destruct (@consumeAll_open o first key others 1
                (<[key := openCounter 1 first]> store)
                (lookup_insert_eq _ _ _) Hothers Hn) as [Hr Hs].
    destruct (consumeAll o key others
                (<[key := openCounter 1 first]> store)) as [rs store'].
    cbn [fst snd] in *.
    split; [|exact Hs].
    rewrite Hr. reflexivity. }
  destruct Hin as [Hres Hstate].
  assert (Hrejected :
            rejected
            = (Rejected (blockMs o) (rejecting + blockMs o),
               <[key := {| consumed := Z.of_nat (S (List.length others)) + 1;
                           windowStart := first;
                           blockedUntil := Some (rejecting + blockMs o) |}]>
                 (snd inWindow))).
  { unfold rejected. apply consume_full; [assumption|lia|lia]. }
  assert (Hafter :
            afterBlock
            = (Allowed (points o - 1) (next + windowMs o),
               <[key := {| consumed := 1; windowStart := next;
                           blockedUntil := Some (rejecting + blockMs o) |}]>
                 (snd rejected))).
  { unfold afterBlock.
    apply (@consume_after_block o next first (rejecting + blockMs o)
             (Z.of_nat (S (List.length others)) + 1) key (snd rejected)).
    - rewrite Hrejected. simpl. apply lookup_insert_eq.
    - assumption.
    - lia.
    - lia. }
  split; [assumption|].
  split; [rewrite Hres; apply allowedFrom_allowed|].
  split; [now rewrite Hrejected|].
  split; [now rewrite Hafter|].
  split.
  - rewrite Hafter. simpl. now rewrite lookup_insert_eq.
  - intros ->. unfold searchRateLimit.
    change (consume searchRateLimiter rejecting key (snd inWindow))
      with rejected.
    rewrite Hrejected. reflexivity.
Qed.

(** The search tier, key [k1]: 30 calls 300 ms apart from time 0, a 31st
    call at 9 s, and a call 120 s after that one. *)
Lemma search_tier_31_calls :
  fst (consumeAll searchRateLimiter "k1" (0 :: halfMinuteOfCalls) ∅)
  = allowedFrom searchRateLimiter 0 0 30
  /\ fst (consume searchRateLimiter 9000 "k1"
            (snd (consumeAll searchRateLimiter "k1"
                    (0 :: halfMinuteOfCalls) ∅)))
     = Rejected 120000 129000
  /\ fst (searchRateLimit 9000 "k1"
            (snd (consumeAll searchRateLimiter "k1"
                    (0 :: halfMinuteOfCalls) ∅)))
     = TooManyRequests 120 30 0 129000 "Such-Rate-Limit überschritten" 120.
Proof.
  assert (Hnone : (∅ : gmap string counter) !! "k1" = None)
    by apply lookup_empty.
  assert (Hcap : Z.of_nat (S (List.length halfMinuteOfCalls))
                 = points (limiterOf Search)) by reflexivity.
  assert (Hothers : Forall (fun now => 0 <= now < 0 + windowMs (limiterOf Search))
                      halfMinuteOfCalls).
  { unfold halfMinuteOfCalls. apply List.Forall_forall. intros now Hin.
    apply List.in_map_iff in Hin. destruct Hin as [i [<- Hi]].
    apply List.in_seq in Hi. cbv [windowMs limiterOf searchRateLimiter duration].
    lia. }
  assert (Hrej : 0 <= 9000 < 0 + windowMs (limiterOf Search))
    by (cbv; split; congruence).
  assert (Hnext : 9000 + blockMs (limiterOf Search) <= 129000)
    by (cbv; congruence).
  pose proof (@capacity_then_block_then_reset Search "k1" ∅ 0
                halfMinuteOfCalls 9000 129000
                Hnone Hcap Hothers Hrej Hnext) as Hthm.
  cbv zeta in Hthm.
  destruct Hthm as [Hall [_ [Hr [_ [_ Hmw]]]]].
  split; [exact Hall|]. split; [exact Hr|]. exact (Hmw eq_refl).
Defined.

End RateLimiterFacts.

(** ** The walk of the file search *)

Module FileWalkFacts.
Import JsString JsArray JsArrayFacts SearchService FileWalk.

(** Induction over a directory tree, with the property available for
    every entry of a directory. *)
Lemma dirent_tree_ind (P : dirent -> Prop) :
  (forall name data stats, P (File name data stats)) ->
  (forall name, P (Special name)) ->
  (forall name, P (Directory name None)) ->
  (forall name entries, Forall P entries -> P (Directory name (Some entries))) ->
  forall node, P node.
Proof.
  intros Hfile Hspecial Hnone Hdir.
  fix IH 1. intros [name data stats|name [entries|]|name].
  - apply Hfile.
  - apply Hdir. induction entries as [|e es IHes]; constructor.
    + apply IH.
    + exact IHes.
  - apply Hnone.
  - apply Hspecial.
Qed.

Lemma length_string_app (a b : string) :
  String.length (a ++ b)%string = (String.length a + String.length b)%nat.
Proof. induction a as [|c a IH]; simpl; [reflexivity|]. now rewrite IH. Qed.

Lemma length_substring0 (n : nat) (s : string) :
  (String.length (substring0 n s) <= n)%nat.
Proof.
  revert s. induction n as [|n IH]; intros [|c s]; simpl; try lia.
  specialize (IH s). lia.
Qed.

Lemma snippetOf_short (text : string) :
  (String.length (snippetOf text) <= 203)%nat.
Proof.
  unfold snippetOf. destruct (Nat.ltb_spec 200 (String.length text)).
  - rewrite length_string_app. pose proof (length_substring0 200 text) as Hs.
    remember (substring0 200 text) as prefix. simpl. lia.
  - lia.
Qed.

Section LoopFacts.
Context `{Host}.
Variable query : string.
Variable limit : Z.
Variable extensions : list string.
Variable includeContent : bool.

Lemma readContent_count (data : option string) :
  0 <= snd (readContent query data)
  /\ (String.length (snippetOf (fst (readContent query data))) <= 203)%nat.
Proof.
  split; [|apply snippetOf_short].
  unfold readContent. destruct data as [text|]; simpl; [|lia].
  destruct (regexMatchCount _ _); simpl; lia.
Qed.

Lemma searchInDirectory_loop (dir name : string) (entries : list dirent)
  (results : list fileHit) :
  searchInDirectory query limit extensions includeContent dir
    (Directory name (Some entries)) results
  = walkLoop query limit extensions includeContent dir entries results.
Proof.
  simpl. revert results. induction entries as [|e es IH]; intros results.
  - reflexivity.
  - simpl. destruct e as [n d s|n sub|n]; simpl.
    + destruct (visitFile query extensions includeContent dir n d s results)
        as [threw results'].
      destruct threw; [reflexivity|].
      destruct (limit <=? Z.of_nat (List.length results')); [reflexivity|].
      apply IH.
    + destruct (negb (startsWith n ".")).
      * destruct (limit <=? Z.of_nat _); [reflexivity|]. apply IH.
      * destruct (limit <=? Z.of_nat _); [reflexivity|]. apply IH.
    + destruct (limit <=? Z.of_nat _); [reflexivity|]. apply IH.
Qed.

(** One file adds nothing or one well-formed hit. *)
Lemma visitFile_adds (dir name : string) (data : option string)
  (stats : option (Z * Z)) (results : list fileHit) :
  exists added,
    snd (visitFile query extensions includeContent dir name data stats results)
    = results ++ added
    /\ Forall (wellFormedHit query) added
    /\ (List.length added <= 1)%nat.
Proof.
  unfold visitFile.
  destruct (nameMatches query name
            || ((List.length extensions =? 0)%nat
                || arrayIncludes extensions (Path.extname name))) eqn:Ecand;
    [|exists []; simpl; rewrite app_nil_r; auto].
  set (read := if includeContent
                  && arrayIncludes textExtensions (Path.extname name)
               then readContent query data else (EmptyString, 0)).
  assert (Hread : 0 <= snd read
                  /\ (String.length (snippetOf (fst read)) <= 203)%nat).
  { unfold read. destruct (includeContent && _).
    - apply readContent_count.
    - split; [simpl; lia|apply snippetOf_short]. }
  destruct read as [text matches]. simpl in Hread.
  destruct (nameMatches query name || (0 <? matches)) eqn:Einc;
    [|exists []; simpl; rewrite app_nil_r; auto].
  destruct stats as [[size mtime]|];
    [|exists []; simpl; rewrite app_nil_r; auto].
  eexists. simpl. split; [reflexivity|]. split; [|simpl; lia].
  constructor; [|constructor]. unfold wellFormedHit. simpl.
  split; [|tauto].
  apply orb_true_iff in Einc. destruct Einc as [Hn|Hm]; [now left|right].
  now apply Z.ltb_lt.
Qed.

Lemma walkExtends_refl (results : list fileHit) : walkExtends query limit results results.
Proof.
  exists []. rewrite app_nil_r. split; [reflexivity|]. split; [constructor|].
  lia.
Qed.

Lemma walkExtends_step (r0 r1 r2 : list fileHit) :
  walkExtends query limit r0 r1 -> walkExtends query limit r1 r2 ->
  Z.of_nat (List.length r1) < limit ->
  walkExtends query limit r0 r2.
Proof.
  intros [a1 [-> [W1 B1]]] [a2 [-> [W2 B2]]] Hlt.
  exists (a1 ++ a2). rewrite app_assoc. split; [reflexivity|].
  split; [apply Forall_app; auto|]. lia.
Qed.

Lemma walkLoop_extends (dir : string) (entries : list dirent) :
  Forall (fun node =>
            forall dir results,
              walkExtends query limit results
                (searchInDirectory query limit extensions includeContent
                   dir node results)) entries ->
  forall results,
    walkExtends query limit results
      (walkLoop query limit extensions includeContent dir entries results).
Proof.
  induction 1 as [|e es He Hes IH]; intros results; simpl.
  - apply walkExtends_refl.
  - assert (Hvisit : walkExtends query limit results
              (snd (visitEntry query limit extensions includeContent
                      dir e results))).
    { destruct e as [n d s|n sub|n]; simpl.
      - destruct (visitFile_adds dir n d s results) as [added [E [W L]]].
        exists added. rewrite E. split; [reflexivity|]. split; [exact W|].
        rewrite length_app. lia.
      - destruct (negb (startsWith n ".")); simpl.
        + apply He.
        + apply walkExtends_refl.
      - apply walkExtends_refl. }
    destruct (visitEntry query limit extensions includeContent dir e results)
      as [threw results'].
    simpl in Hvisit. destruct threw; [exact Hvisit|].
    destruct (Z.leb_spec limit (Z.of_nat (List.length results')));
      [exact Hvisit|].
    eapply walkExtends_step; [exact Hvisit|apply IH|assumption].
Qed.

Lemma searchInDirectory_extends (node : dirent) :
  forall dir results,
    walkExtends query limit results
      (searchInDirectory query limit extensions includeContent
         dir node results).
Proof.
  induction node as [name data stats|name|name|name entries IH]
    using dirent_tree_ind; intros dir results;
    try apply walkExtends_refl.
  rewrite searchInDirectory_loop. now apply walkLoop_extends.
Qed.


Lemma withoutHidden_directory (name : string) (entries : list dirent) :
  withoutHidden (Directory name (Some entries))
  = Directory name (Some (pruneEntries entries)).
Proof.
  simpl. apply f_equal. apply f_equal.
  induction entries as [|e es IH]; [reflexivity|].
  simpl. rewrite IH. reflexivity.
Qed.

Lemma walkLoop_withoutHidden (dir : string) (entries : list dirent) :
  Forall (fun node =>
            forall dir results,
              Z.of_nat (List.length results) < limit ->
              searchInDirectory query limit extensions includeContent dir
                (withoutHidden node) results
              = searchInDirectory query limit extensions includeContent dir
                  node results) entries ->
  forall results,
    Z.of_nat (List.length results) < limit ->
    walkLoop query limit extensions includeContent dir
      (pruneEntries entries) results
    = walkLoop query limit extensions includeContent dir entries results.
Proof.
  induction 1 as [|e es He Hes IH]; intros results Hlt; [reflexivity|].
  destruct e as [n d s|n sub|n].
  - simpl.
    destruct (visitFile query extensions includeContent dir n d s results)
      as [threw results'].
    destruct threw; [reflexivity|].
    destruct (Z.leb_spec limit (Z.of_nat (List.length results')));
      [reflexivity|]. now apply IH.
  - cbn [pruneEntries]. destruct (startsWith n ".") eqn:Edot.
    + rewrite IH by assumption. simpl. rewrite Edot. simpl.
      destruct (Z.leb_spec limit (Z.of_nat (List.length results))); [lia|].
      reflexivity.
    + assert (Evisit :
        visitEntry query limit extensions includeContent dir
          (withoutHidden (Directory n sub)) results
        = visitEntry query limit extensions includeContent dir
            (Directory n sub) results).
      { specialize (He (path_join dir n) results Hlt).
        destruct sub as [sub|].
        - rewrite withoutHidden_directory in *. simpl. rewrite Edot. simpl.
          f_equal. exact He.
        - reflexivity. }
      cbn [walkLoop]. rewrite Evisit.
      destruct (visitEntry query limit extensions includeContent dir
                  (Directory n sub) results) as [threw results'].
      destruct threw; [reflexivity|].
      destruct (Z.leb_spec limit (Z.of_nat (List.length results')));
        [reflexivity|]. now apply IH.
  - simpl.
    destruct (Z.leb_spec limit (Z.of_nat (List.length results)));
      [reflexivity|]. now apply IH.
Qed.

Lemma searchInDirectory_withoutHidden (node : dirent) :
  forall dir results,
    Z.of_nat (List.length results) < limit ->
    searchInDirectory query limit extensions includeContent dir
      (withoutHidden node) results
    = searchInDirectory query limit extensions includeContent dir
        node results.
Proof.
  induction node as [name data stats|name|name|name entries IH]
    using dirent_tree_ind; intros dir results Hlt; try reflexivity.
  rewrite withoutHidden_directory, !searchInDirectory_loop.
  now apply walkLoop_withoutHidden.
Qed.

End LoopFacts.

(** X1: the walk of [searchFiles] stops at [limit] hits. For a limit of at
    least 1 it collects at most [limit] files, so the later [slice]
    removes nothing and the files returned are the first [limit]
    qualifying files in walk order, sorted. *)
Theorem searchFiles_walk_stops_at_limit (H : Host) (fs : fileSystem)
  (query : string) (searchPath : string) (limit : Z)
  (extensions : option (list string)) (includeContent : option bool) :
  1 <= limit ->
  let exts := match extensions with Some e => e | None => textExtensions end in
  let inc := match includeContent with Some b => b | None => true end in
  let found := searchInDirectory query limit exts inc searchPath
                 (fs searchPath) [] in
  Z.of_nat (List.length found) <= limit
  /\ searchFiles fs query (Some searchPath)
       {| fo_limit := Some limit; fo_extensions := extensions;
          fo_includeContent := includeContent |}
     = map FileResult (js_sort (byRelevance query) found).
Proof.
  intros Hlimit exts inc found.
  assert (Hlen : Z.of_nat (List.length found) <= limit).
  { destruct (searchInDirectory_extends query limit exts inc
                (fs searchPath) searchPath []) as [added [_ [_ Hb]]].
    fold found in Hb. simpl in Hb. lia. }
  split; [exact Hlen|].
  unfold searchFiles. simpl. fold exts inc found. f_equal.
  unfold slice0. destruct (Z.ltb_spec limit 0); [lia|].
  apply firstn_all2.
  rewrite (Permutation_length (js_sort_perm (byRelevance query) found)).
  lia.
Qed.

(** The file system of the examples with limit 1. *)
Lemma walk_stops_sample :
  1 <= 1
  /\ searchFiles (H := Examples.plainHost) Examples.twoFiles "foo" (Some ".")
       {| fo_limit := Some 1; fo_extensions := None;
          fo_includeContent := None |}
     = [FileResult Examples.fooHit].
Proof.
  split; [lia|].
  rewrite (proj2 (@searchFiles_walk_stops_at_limit Examples.plainHost
                    Examples.twoFiles "foo" "." 1 None None
                    (Z.le_refl 1))).
  reflexivity.
Defined.

(** X2: every file [searchFiles] reports has a name that contains the
    query, both lowered by the platform's [toLowerCase], or a text with
    at least one match, a match count that is not negative, and a
    snippet of at most 203 code units. This holds whatever letters
    [toLowerCase] lowers. *)
Theorem searchFiles_hits_well_formed (H : Host) (fs : fileSystem)
  (query : string) (searchPath : option string) (options : fileOptions) :
  exists hits : list fileHit,
    searchFiles fs query searchPath options = map FileResult hits
    /\ Forall (wellFormedHit query) hits.
Proof.
  unfold searchFiles. eexists. split; [reflexivity|].
  apply Forall_forall. intros f Hf. apply slice0_In in Hf.
  apply js_sort_In in Hf.
  match type of Hf with
  | In f (searchInDirectory ?q ?l ?e ?i ?p ?n []) =>
      destruct (searchInDirectory_extends q l e i n p [])
        as [added [E [W _]]]
  end.
  rewrite E in Hf. simpl in Hf. rewrite Forall_forall in W. now apply W.
Qed.

(** X3: the search never looks inside a hidden directory. For a limit of
    at least 1, removing every directory whose name starts with a dot
    from the tree, at any depth below the start, changes nothing in the
    result. *)
Theorem searchFiles_skips_hidden_directories (H : Host) (fs : fileSystem)
  (query : string) (searchPath : option string) (options : fileOptions) :
  1 <= match fo_limit options with Some l => l | None => 50 end ->
  searchFiles (fun path => withoutHidden (fs path)) query searchPath options
  = searchFiles fs query searchPath options.
Proof.
  intros Hlimit. unfold searchFiles.
  rewrite searchInDirectory_withoutHidden; [reflexivity|]. simpl. lia.
Qed.


(** A tree with a [.git] directory that holds a matching file. *)
Lemma hidden_directory_sample :
  1 <= 50
  /\ searchFiles (H := Examples.plainHost)
       (fun path => withoutHidden (diskWithHidden path)) "foo" None
       {| fo_limit := None; fo_extensions := None;
          fo_includeContent := None |}
     = searchFiles (H := Examples.plainHost) diskWithHidden "foo" None
         {| fo_limit := None; fo_extensions := None;
            fo_includeContent := None |}.
Proof.
  assert (Hlimit : 1 <= 50) by lia.
  split; [exact Hlimit|].
  exact (@searchFiles_skips_hidden_directories Examples.plainHost
           diskWithHidden "foo" None
           {| fo_limit := None; fo_extensions := None;
              fo_includeContent := None |} Hlimit).
Defined.

End FileWalkFacts.

(** ** More of the aggregator *)

Module AggregatorMore.
Import JsString JsArray JsArrayFacts SearchService.

Lemma aggregate_combine (limit : Z) (rs rs' : list settled) :
  combine rs = combine rs' -> aggregate limit rs = aggregate limit rs'.
Proof. intros E. unfold aggregate. now rewrite E. Qed.

Lemma combine_app (rs rs' : list settled) :
  combine (rs ++ rs') = combine rs ++ combine rs'.
Proof. unfold combine. apply flat_map_app. Qed.

Lemma combine_one (flag : bool) (s : settled) :
  combine (if flag then [s] else [])
  = if flag
    then match s with ResultArray r => r | ErrorObject _ r => r end
    else [].
Proof. destruct flag; simpl; [apply app_nil_r|reflexivity]. Qed.

(** X4: a source that fails counts as a source that found nothing. In
    each of the three positions, replacing a rejected source promise by
    one resolved to the empty array leaves the outcome of
    [searchAdvanced] unchanged, whatever the other sources return. *)
Theorem failed_source_counts_as_empty (sources : sourcesArg) (limit : Z)
  (e : string) (webSearch localSearch fileSearch : string + list result) :
  searchAdvancedWith sources limit (inl e) localSearch fileSearch
  = searchAdvancedWith sources limit (inr []) localSearch fileSearch
  /\ searchAdvancedWith sources limit webSearch (inl e) fileSearch
     = searchAdvancedWith sources limit webSearch (inr []) fileSearch
  /\ searchAdvancedWith sources limit webSearch localSearch (inl e)
     = searchAdvancedWith sources limit webSearch localSearch (inr []).
Proof.
  unfold searchAdvancedWith, dispatch.
  destruct (sourcesIncludes sources "web") as [w|],
           (sourcesIncludes sources "local") as [l|],
           (sourcesIncludes sources "files") as [f|]; auto.
  repeat split; f_equal; apply aggregate_combine;
    rewrite !combine_app, !combine_one; destruct w, l, f; reflexivity.
Qed.

Lemma combine_dispatch (sources : sourcesArg) (message1 message2 message3 : string)
  (w l f : string + list result) (rs : list settled) :
  dispatch sources (catchAs message1 w) (catchAs message2 l)
    (catchAs message3 f) = Some rs ->
  incl (combine rs) (Notions.found w ++ Notions.found l ++ Notions.found f).
Proof.
  unfold dispatch.
  destruct (sourcesIncludes sources "web") as [fw|]; [|discriminate].
  destruct (sourcesIncludes sources "local") as [fl|]; [|discriminate].
  destruct (sourcesIncludes sources "files") as [ff|]; [|discriminate].
  intros E. injection E as <-. rewrite !combine_app, !combine_one.
  intros r Hr. apply in_app_or in Hr. destruct Hr as [Hr|Hr].
  - destruct fw; [|destruct Hr]. apply in_or_app. left.
    destruct w; simpl in *; [destruct Hr|exact Hr].
  - apply in_app_or in Hr. destruct Hr as [Hr|Hr].
    + destruct fl; [|destruct Hr]. apply in_or_app. right.
      apply in_or_app. left. destruct l; simpl in *; [destruct Hr|exact Hr].
    + destruct ff; [|destruct Hr]. apply in_or_app. right.
      apply in_or_app. right. destruct f; simpl in *; [destruct Hr|exact Hr].
Qed.

Lemma removeDuplicates_incl (l : list result) : incl (removeDuplicates l) l.
Proof.
  unfold removeDuplicates.
  assert (G : forall l acc, incl (fold_left pushUnique l acc) (acc ++ l)).
  { clear l. induction l as [|x l IH]; intros acc.
    - simpl. rewrite app_nil_r. apply incl_refl.
    - simpl. intros r Hr. apply IH in Hr. apply in_app_or in Hr.
      destruct Hr as [Hr|Hr].
      + unfold pushUnique in Hr.
        destruct (existsb _ acc).
        * apply in_or_app. now left.
        * apply in_app_or in Hr. destruct Hr as [Hr|[<-|[]]].
          -- apply in_or_app. now left.
          -- apply in_or_app. right. now left.
      + apply in_or_app. right. now right. }
  apply (G l []).
Qed.

Lemma slice0_length (A : Type) (limit : Z) (l : list A) :
  0 <= limit -> Z.of_nat (List.length (slice0 limit l)) <= limit.
Proof.
  intros Hl. unfold slice0. destruct (Z.ltb_spec limit 0); [lia|].
  pose proof (firstn_le_length (Z.to_nat limit) l).
  rewrite length_firstn. lia.
Qed.

(** X5: [searchAdvanced] invents nothing and respects its limit. Every
    result it returns was returned by one of the three sources, and for a
    limit that is not negative it returns at most [limit] results. *)
Theorem searchAdvanced_bounded_by_sources (sources : sourcesArg) (limit : Z)
  (webSearch localSearch fileSearch : string + list result)
  (results : list result) :
  0 <= limit ->
  searchAdvancedWith sources limit webSearch localSearch fileSearch
  = inr results ->
  Z.of_nat (List.length results) <= limit
  /\ incl results (Notions.found webSearch ++ Notions.found localSearch ++ Notions.found fileSearch).
Proof.
  intros Hlimit. unfold searchAdvancedWith.
  destruct (dispatch sources _ _ _) as [rs|] eqn:E; [|discriminate].
  intros R. injection R as <-. split.
  - unfold aggregate. now apply slice0_length.
  - intros r Hr. unfold aggregate in Hr. apply slice0_In in Hr.
    apply js_sort_In in Hr. apply removeDuplicates_incl in Hr.
    revert r Hr. eapply combine_dispatch. exact E.
Qed.

Lemma bounded_by_sources_sample :
  let fooBar := [FileResult Examples.fooHit; FileResult Examples.barHit] in
  let results := [FileResult Examples.fooHit] in
  (0 <= 1
   /\ searchAdvancedWith (SourcesArray ["files"]) 1 (inl "down") (inr [])
        (inr fooBar) = inr results)
  /\ Z.of_nat (List.length results) <= 1
  /\ incl results
       (Notions.found (inl "down") ++ Notions.found (inr [])
        ++ Notions.found (inr fooBar)).
Proof.
  intros fooBar results.
  assert (Hlimit : 0 <= 1) by lia.
  assert (Hrun : searchAdvancedWith (SourcesArray ["files"]) 1 (inl "down")
                   (inr []) (inr fooBar) = inr results)
    by (vm_compute; reflexivity).
  split; [split; assumption|].
  exact (@searchAdvanced_bounded_by_sources (SourcesArray ["files"]) 1
           (inl "down") (inr []) (inr fooBar) results Hlimit Hrun).
Defined.

Lemma fold_pushUnique_sublist (l acc : list result) :
  exists kept,
    fold_left pushUnique l acc = acc ++ kept /\ Notions.keptFrom kept l.
Proof.
  revert acc. induction l as [|x l IH]; intros acc; simpl.
  - exists []. rewrite app_nil_r. split; [reflexivity|constructor].
  - unfold pushUnique at 2. destruct (existsb _ acc).
    + destruct (IH acc) as [kept [E S]]. exists kept.
      split; [exact E|]. now apply Notions.keptSkip.
    + destruct (IH (acc ++ [x])) as [kept [E S]]. exists (x :: kept).
      rewrite E, <- app_assoc. split; [reflexivity|].
      now apply Notions.keptThis.
Qed.

Lemma removeDuplicates_head (first : result) (rest : list result) :
  exists kept, removeDuplicates (first :: rest) = first :: kept.
Proof.
  unfold removeDuplicates. simpl.
  destruct (fold_pushUnique_sublist rest [first]) as [kept [E _]].
  exists kept. exact E.
Qed.

(** X6: deduplication only deletes. The deduplicated list is the combined
    list with some results left out, in the same order; the first
    combined result is always kept; and deduplicating again changes
    nothing. *)
Theorem removeDuplicates_only_deletes (combined : list result) :
  Notions.keptFrom (removeDuplicates combined) combined
  /\ removeDuplicates (removeDuplicates combined) = removeDuplicates combined
  /\ (forall first rest,
         combined = first :: rest ->
         exists kept, removeDuplicates combined = first :: kept).
Proof.
  split; [|split].
  - destruct (fold_pushUnique_sublist combined []) as [kept [E S]].
    unfold removeDuplicates. now rewrite E.
  - apply AggregatorFacts.removeDuplicates_all_distinct.
    apply AggregatorFacts.removeDuplicates_distinct.
  - intros first rest ->. apply removeDuplicates_head.
Qed.

Lemma ceilDiv_positive (limit n : Z) :
  1 <= limit -> 1 <= n -> 1 <= ceilDiv limit n.
Proof.
  intros Hl Hn. unfold ceilDiv.
  assert ((- limit) / n < 0) by (apply Z.div_lt_upper_bound; lia).
  lia.
Qed.

Lemma arrayIncludes_nonempty (names : list string) (name : string) :
  arrayIncludes names name = true -> (1 <= Z.of_nat (List.length names)).
Proof. destruct names; simpl; [discriminate|lia]. Qed.

Lemma web_result_inert (w : webHit) : inert advancedCompare (WebResult w).
Proof. apply AggregatorFacts.unranked_inert. reflexivity. Qed.

(** X7: the simulated web result always comes first. Whenever [web] is
    among the requested sources, the query can be URI-encoded and the
    limit is at least 1, the first result of [searchAdvanced] is the
    simulated web hit for the query, whatever the local and the file
    search found. *)
Theorem web_result_comes_first (H : Host) (db : database) (fs : fileSystem)
  (query encoded : string) (names : list string)
  (options : advancedOptions) :
  arrayIncludes names "web" = true ->
  encodeURIComponent query = Some encoded ->
  1 <= match ao_limit options with Some l => l | None => 50 end ->
  exists others,
    searchAdvanced db fs query (Some (SourcesArray names)) options
    = inr (Notions.firstWebResult query encoded :: others).
Proof.
  intros Hweb Henc Hlimit.
  unfold searchAdvanced, searchAdvancedWith, dispatch. simpl.
  rewrite Hweb.
  set (limit := match ao_limit options with Some l => l | None => 50 end)
    in *.
  assert (Hshare : 1 <= ceilDiv limit (Z.of_nat (List.length names))).
  { apply ceilDiv_positive; [assumption|].
    now apply arrayIncludes_nonempty with "web". }
  unfold searchWeb. rewrite Henc.
  set (share := ceilDiv limit (Z.of_nat (List.length names))) in *.
  match goal with
  | |- context [catchAs "Web search failed" (inr (slice0 share ?mocks))] =>
      assert (Hmocks : exists t, slice0 share mocks
                                 = Notions.firstWebResult query encoded :: t)
  end.
  { unfold slice0. destruct (Z.ltb_spec share 0); [lia|].
    destruct (Z.to_nat share) as [|k] eqn:Ek; [lia|].
    simpl. eexists. reflexivity. }
  destruct Hmocks as [t ->]. simpl catchAs at 1.
  match goal with
  | |- exists others, inr (aggregate limit ([ResultArray ?ws] ++ ?rest)) = _ =>
      remember rest as tail
  end.
  unfold aggregate. rewrite combine_app. simpl combine at 1.
  rewrite app_nil_r. simpl app at 1.
  destruct (removeDuplicates_head (Notions.firstWebResult query encoded)
              (t ++ combine tail)) as [kept ->].
  change (Notions.firstWebResult query encoded :: kept)
    with ([] ++ Notions.firstWebResult query encoded :: kept).
  rewrite js_sort_inert by apply web_result_inert.
  simpl. unfold slice0. destruct (Z.ltb_spec limit 0); [lia|].
  destruct (Z.to_nat limit) as [|k] eqn:Ek; [lia|].
  simpl. eexists. reflexivity.
Qed.

Lemma web_first_sample :
  (arrayIncludes ["files"; "web"] "web" = true
   /\ @encodeURIComponent Examples.plainHost "foo" = Some "foo"
   /\ 1 <= 10)
  /\ exists others,
       @searchAdvanced Examples.plainHost (Some Examples.sampleRows)
         Examples.twoFiles "foo" (Some (SourcesArray ["files"; "web"]))
         Examples.limit10
       = inr (Notions.firstWebResult "foo" "foo" :: others).
Proof.
  assert (Hweb : arrayIncludes ["files"; "web"] "web" = true)
    by reflexivity.
  assert (Henc : @encodeURIComponent Examples.plainHost "foo" = Some "foo")
    by reflexivity.
  assert (Hlimit : 1 <= 10) by lia.
  split; [repeat split; assumption|].
  exact (@web_result_comes_first Examples.plainHost (Some Examples.sampleRows)
           Examples.twoFiles "foo" "foo" ["files"; "web"] Examples.limit10
           Hweb Henc Hlimit).
Defined.

End AggregatorMore.

(** ** The final sort and the results it finds in place *)

Module FinalSortFacts.
Import JsString JsArray JsArrayFacts SearchService Examples.

Section InPlace.
Variable A : Type.
Variable comparefn : A -> A -> Q.

(** An array in which no element compares above a later one is left as
    it is. *)
Lemma sortLoop_in_place (l acc : list A) :
  (forall a x, In a acc -> In x l -> (comparefn a x ?= 0)%Q <> Gt) ->
  ForallOrdPairs (fun a x => (comparefn a x ?= 0)%Q <> Gt) l ->
  sortLoop comparefn l acc = rev l ++ acc.
Proof.
  revert acc. induction l as [|x l IH]; intros acc Hacc Hl; [reflexivity|].
  inversion Hl as [|? ? Hx Hl']; subst.
  assert (E : shiftIn comparefn x acc = x :: acc).
  { destruct acc as [|tmp rest]; [reflexivity|]. simpl.
    pose proof (Hacc tmp x (or_introl eq_refl) (or_introl eq_refl)) as Hn.
    destruct (comparefn tmp x ?= 0)%Q; congruence. }
  unfold sortLoop. simpl. fold (sortLoop comparefn l (shiftIn comparefn x acc)).
  rewrite E, IH; [now rewrite <- app_assoc| |exact Hl'].
  intros a y [<-|Ha] Hy.
  - rewrite Forall_forall in Hx. now apply Hx.
  - apply Hacc; [exact Ha|now right].
Qed.

Lemma js_sort_in_place (l : list A) :
  ForallOrdPairs (fun a x => (comparefn a x ?= 0)%Q <> Gt) l ->
  js_sort comparefn l = l.
Proof.
  intros Hl. unfold js_sort. rewrite sortLoop_in_place.
  - rewrite app_nil_r. apply rev_involutive.
  - intros a x [].
  - exact Hl.
Qed.

End InPlace.

Lemma FOP_where (A : Type) (R R' : A -> A -> Prop) (P : A -> Prop)
  (l : list A) :
  (forall a b, P a -> R a b -> R' a b) ->
  Forall P l -> ForallOrdPairs R l -> ForallOrdPairs R' l.
Proof.
  intros HR HP. induction 1 as [|a l Hall Hf IH]; [constructor|].
  inversion HP as [|? ? Pa Pl]; subst. constructor.
  - eapply Forall_impl; [|exact Hall]. intros b. now apply HR.
  - now apply IH.
Qed.

Lemma FOP_kept (A : Type) (R : A -> A -> Prop) (kept all : list A) :
  Notions.keptFrom kept all -> ForallOrdPairs R all -> ForallOrdPairs R kept.
Proof.
  induction 1 as [|x kept all Hk IH|x kept all Hk IH]; intros Hf.
  - constructor.
  - inversion Hf as [|? ? Hall Hf']; subst. constructor; [|now apply IH].
    apply Forall_forall. intros y Hy. rewrite Forall_forall in Hall.
    apply Hall. clear - Hk Hy.
    induction Hk as [|z kept all Hk IHk|z kept all Hk IHk].
    + destruct Hy.
    + destruct Hy as [->|Hy]; [now left|right; now apply IHk].
    + right. now apply IHk.
  - inversion Hf; subst. now apply IH.
Qed.

Lemma FOP_sorted (A B : Type) (R : A -> A -> Prop) (R' : B -> B -> Prop)
  (f : A -> B) (l : list A) :
  (forall a b, R a b -> R' (f a) (f b)) ->
  StronglySorted R l -> ForallOrdPairs R' (map f l).
Proof.
  intros HR. induction 1 as [|a l Hs IH Hall]; simpl; constructor.
  - apply Forall_forall. intros y Hy. apply in_map_iff in Hy.
    destruct Hy as [b [<- Hb]]. rewrite Forall_forall in Hall. auto.
  - exact IH.
Qed.

(** *** The comparison function on results in their order of arrival *)

Lemma arrived_not_above (a x : result) :
  (forall f, a <> FileResult f) -> arrivalOrder a x ->
  (advancedCompare a x ?= 0)%Q <> Gt.
Proof.
  intros Hfile Hax. unfold advancedCompare.
  destruct a as [w|e sa|f]; [| |now destruct (Hfile f)].
  - simpl. discriminate.
  - destruct x as [w|e' sx|f]; simpl in Hax; [destruct Hax| |].
    + simpl.
      destruct (truthyNumber sa && truthyNumber sx); [|discriminate].
      intros Hgt. apply Qgt_alt in Hgt. lra.
    + simpl. rewrite andb_false_r. discriminate.
Qed.

Lemma before_local_no_file (e : dataEntry) (s : option Q) (a : result) :
  arrivalOrder a (LocalResult e s) -> forall f, a <> FileResult f.
Proof.
  destruct a as [w|e' s'|f']; simpl; intros Ha f;
    [discriminate|discriminate|destruct Ha].
Qed.

(** *** The results of the three sources *)

Lemma combine_caught (message : string) (promise : string + list result) :
  combine [catchAs message promise] = Notions.found promise.
Proof. destruct promise; simpl; [reflexivity|apply app_nil_r]. Qed.

Lemma combine_dispatched (w l f : bool) (web local files : settled) :
  combine ((if w then [web] else []) ++ (if l then [local] else [])
           ++ (if f then [files] else []))
  = (if w then combine [web] else [])
    ++ (if l then combine [local] else [])
    ++ (if f then combine [files] else []).
Proof.
  unfold combine. rewrite !flat_map_app. destruct w, l, f; reflexivity.
Qed.

Lemma searchWeb_web_results (H : Host) (query : string) (limit : option Z) :
  Forall (fun r => exists w, r = WebResult w)
    (Notions.found (searchWeb query limit)).
Proof.
  unfold searchWeb. destruct (encodeURIComponent query); simpl; [|constructor].
  apply Forall_forall. intros r Hr. apply slice0_In in Hr.
  destruct Hr as [<-|[<-|[]]]; eexists; reflexivity.
Qed.

Lemma fuzzyResults_arrive_ascending (H : Host) (threshold : Q) (limit : Z)
  (query : string) (allData : list dataEntry) :
  asArrived (fuzzyResults threshold limit query allData)
  /\ Forall (fun r => exists e s, r = LocalResult e s)
       (fuzzyResults threshold limit query allData).
Proof.
  unfold fuzzyResults. rewrite slice0_map. split.
  - apply FOP_sorted
      with (R := fun a b => (Fuse.score a <= Fuse.score b)%Q).
    + intros a b Hab. exact Hab.
    + apply slice0_sorted. unfold Fuse.search.
      apply (SortByKey.js_sort_ascending Fuse.byScore Fuse.score
               LocalSearchFacts.byScore_key).
  - apply Forall_forall. intros r Hr. apply in_map_iff in Hr.
    destruct Hr as [x [<- _]]. unfold fromFuse. eauto.
Qed.

Lemma searchLocal_arrives_ascending (H : Host) (db : database)
  (query : string) (limit : Z) :
  let results :=
    Notions.found
      (entriesOf
         (outcome (searchLocal db query
                     {| lo_limit := Some limit; lo_fuzzy := None;
                        lo_threshold := None; lo_suggestionsOnly := None;
                        lo_category := None |}))) in
  asArrived results
  /\ Forall (fun r => exists e s, r = LocalResult e s) results.
Proof.
  unfold searchLocal, Queries.getDataFromDB, Queries.runQuery. simpl.
  destruct db as [rows|]; simpl.
  - apply fuzzyResults_arrive_ascending.
  - split; constructor.
Qed.

Lemma searchFiles_file_results (H : Host) (fs : fileSystem) (query : string)
  (searchPath : option string) (options : fileOptions) :
  Forall (fun r => exists f, r = FileResult f)
    (searchFiles fs query searchPath options).
Proof.
  unfold searchFiles. apply Forall_forall. intros r Hr.
  apply in_map_iff in Hr. destruct Hr as [f [<- _]]. eauto.
Qed.

Lemma arrived_in_parts (ws ls fs : list result) :
  Forall (fun r => exists w, r = WebResult w) ws ->
  asArrived ls -> Forall (fun r => exists e s, r = LocalResult e s) ls ->
  Forall (fun r => exists f, r = FileResult f) fs ->
  asArrived (ws ++ ls ++ fs).
Proof.
  intros Hws Hls Hlocal Hfs. rewrite Forall_forall in Hws, Hlocal, Hfs.
  unfold asArrived. apply AggregatorFacts.FOP_app;
    [|apply AggregatorFacts.FOP_app|].
  - clear - Hws. induction ws as [|w ws IH]; constructor.
    + apply Forall_forall. intros b _.
      destruct (Hws w (or_introl eq_refl)) as [w' ->]. exact I.
    + apply IH. intros r Hr. apply Hws. now right.
  - exact Hls.
  - clear - Hfs. induction fs as [|f fs IH]; constructor.
    + apply Forall_forall. intros b Hb.
      destruct (Hfs f (or_introl eq_refl)) as [f' ->].
      destruct (Hfs b (or_intror Hb)) as [b' ->]. exact I.
    + apply IH. intros r Hr. apply Hfs. now right.
  - intros a b Ha Hb. destruct (Hlocal a Ha) as [e [s ->]].
    destruct (Hfs b Hb) as [f ->]. exact I.
  - intros a b Ha _. destruct (Hws a Ha) as [w ->]. exact I.
Qed.

Lemma arrived_if (flag : bool) (P : result -> Prop) (l : list result) :
  Forall P l -> Forall P (if flag then l else []).
Proof. destruct flag; [auto|constructor]. Qed.

(** What reaches the final sort of [searchAdvanced] is in the order of
    arrival. *)
Lemma uniqueResults_as_arrived (H : Host) (db : database) (fs : fileSystem)
  (query : string) (sources : option sourcesArg) (options : advancedOptions)
  (unique : list result) :
  uniqueResults db fs query sources options = Some unique ->
  asArrived unique.
Proof.
  unfold uniqueResults, dispatch.
  destruct (sourcesIncludes _ "web") as [w|]; [|discriminate].
  destruct (sourcesIncludes _ "local") as [l|]; [|discriminate].
  destruct (sourcesIncludes _ "files") as [f|]; [|discriminate].
  simpl. intros E. injection E as <-.
  unfold removeDuplicates.
  match goal with
  | |- asArrived (fold_left pushUnique ?combined []) =>
      destruct (AggregatorMore.fold_pushUnique_sublist combined [])
        as [kept [Ek Hk]]
  end.
  rewrite Ek. simpl.
  apply (FOP_kept Hk). rewrite combine_dispatched, !combine_caught.
  apply arrived_in_parts.
  - apply arrived_if, searchWeb_web_results.
  - destruct l; [|constructor]. apply searchLocal_arrives_ascending.
  - apply arrived_if.
    apply (searchLocal_arrives_ascending H db query).
  - apply arrived_if. simpl. rewrite app_nil_r.
    apply searchFiles_file_results.
Qed.

Lemma searchAdvanced_sorts_unique (H : Host) (db : database)
  (fs : fileSystem) (query : string) (sources : option sourcesArg)
  (options : advancedOptions) (unique : list result) :
  uniqueResults db fs query sources options = Some unique ->
  searchAdvanced db fs query sources options
  = inr (slice0 (match ao_limit options with Some l => l | None => 50 end)
           (js_sort advancedCompare unique)).
Proof.
  unfold uniqueResults, searchAdvanced, searchAdvancedWith.
  destruct (dispatch _ _ _ _) as [searchResults|]; simpl; [|discriminate].
  intros E. injection E as <-. reflexivity.
Qed.

(** C9: a local result whose score is 0 compares as equal, in both
    directions, with every other result, whatever its score. In an array
    that is in the order of arrival (web results, local results in
    ascending order of score, file results) the final sort leaves it at
    its index, with the same results before it in the same order and the
    same results behind it. Every array that [searchAdvanced] hands to
    its final sort is in that order, and the call resolves to the sorted
    array cut at the limit. *)
Theorem zero_score_never_ordered (e : dataEntry) (s : Q) :
  (s == 0)%Q ->
  (forall b : result,
      advancedCompare (LocalResult e (Some s)) b = 0%Q
      /\ advancedCompare b (LocalResult e (Some s)) = 0%Q)
  /\ (forall before after : list result,
         asArrived (before ++ LocalResult e (Some s) :: after) ->
         exists after',
           Permutation after after'
           /\ js_sort advancedCompare
                (before ++ LocalResult e (Some s) :: after)
              = before ++ LocalResult e (Some s) :: after'
           /\ nth_error
                (js_sort advancedCompare
                   (before ++ LocalResult e (Some s) :: after))
                (List.length before)
              = Some (LocalResult e (Some s)))
  /\ (forall (H : Host) (db : database) (fs : fileSystem) (query : string)
        (sources : option sourcesArg) (options : advancedOptions)
        (unique : list result),
         uniqueResults db fs query sources options = Some unique ->
         asArrived unique
         /\ searchAdvanced db fs query sources options
            = inr (slice0
                     (match ao_limit options with Some l => l | None => 50 end)
                     (js_sort advancedCompare unique))).
Proof.
  intros Hs. split; [|split].
  - intros b. now apply AggregatorFacts.zero_score_compares_equal.
  - intros before after Harrived.
    assert (Hsorted : js_sort advancedCompare
                        (before ++ LocalResult e (Some s) :: after)
                      = before ++ LocalResult e (Some s)
                          :: js_sort advancedCompare after).
    { rewrite js_sort_inert by now apply AggregatorFacts.zero_score_inert.
      f_equal. apply js_sort_in_place.
      apply FOP_where
        with (R := arrivalOrder) (P := fun a => forall f, a <> FileResult f).
      - intros a b Ha Hab. now apply arrived_not_above.
      - eapply Forall_impl;
          [|exact (AggregatorFacts.FOP_before _ _ _ Harrived)].
        intros a. apply before_local_no_file.
      - exact (AggregatorFacts.FOP_app_l _ _ Harrived). }
    exists (js_sort advancedCompare after). split; [|split].
    + apply Permutation_sym, js_sort_perm.
    + exact Hsorted.
    + rewrite Hsorted, nth_error_app2 by apply Nat.le_refl.
      now rewrite Nat.sub_diag.
  - intros H db fs query sources options unique Hu. split.
    + eapply uniqueResults_as_arrived. exact Hu.
    + apply searchAdvanced_sorts_unique. exact Hu.
Qed.

(** For the query [foo] over all three sources the exact match [foo]
    arrives third, behind the two web results and before the near match
    [food] and the two files, and is third after the sort. *)
Lemma exact_match_stays_third :
  (0 == 0)%Q
  /\ uniqueResults (H := plainHost) (Some nearAndExact) twoFiles "foo"
       everySource noOptions
     = Some (fooOnTheWeb
             ++ LocalResult exactEntry (Some 0%Q)
                :: [LocalResult nearEntry (Some (3 # 10)%Q);
                    FileResult fooHit; FileResult barHit])
  /\ exists after',
       Permutation
         [LocalResult nearEntry (Some (3 # 10)%Q);
          FileResult fooHit; FileResult barHit] after'
       /\ js_sort advancedCompare
            (fooOnTheWeb
             ++ LocalResult exactEntry (Some 0%Q)
                :: [LocalResult nearEntry (Some (3 # 10)%Q);
                    FileResult fooHit; FileResult barHit])
          = fooOnTheWeb ++ LocalResult exactEntry (Some 0%Q) :: after'
       /\ nth_error
            (js_sort advancedCompare
               (fooOnTheWeb
                ++ LocalResult exactEntry (Some 0%Q)
                   :: [LocalResult nearEntry (Some (3 # 10)%Q);
                       FileResult fooHit; FileResult barHit]))
            (List.length fooOnTheWeb)
          = Some (LocalResult exactEntry (Some 0%Q)).
Proof.
  split; [reflexivity|]. split; [reflexivity|].
  apply (proj1 (proj2 (zero_score_never_ordered exactEntry (s := 0%Q)
                         (Qeq_refl 0)))).
  apply (proj2 (proj2 (zero_score_never_ordered exactEntry (s := 0%Q)
                         (Qeq_refl 0)))
           plainHost (Some nearAndExact) twoFiles "foo" everySource
           noOptions).
  reflexivity.
Defined.

End FinalSortFacts.

(** ** Sorting by a total preorder *)

Module SortByOrder.
Import JsArray JsArrayFacts SortByKey.

Section Ordered.
Variable A : Type.
Variable comparefn : A -> A -> Q.
Variable le : A -> A -> Prop.
Hypothesis le_trans : forall a b c, le a b -> le b c -> le a c.
Hypothesis above_le :
  forall a b, (comparefn a b ?= 0)%Q = Gt -> le b a.
Hypothesis not_above_le :
  forall a b, (comparefn a b ?= 0)%Q <> Gt -> le a b.

Lemma shiftIn_ordered (x : A) (rp : list A) :
  StronglySorted (fun a b => le b a) rp ->
  StronglySorted (fun a b => le b a) (shiftIn comparefn x rp).
Proof.
  induction 1 as [|y rp Hs IH Hall]; simpl.
  - repeat constructor.
  - destruct (comparefn y x ?= 0)%Q eqn:E.
    + assert (Hyx : le y x) by (apply not_above_le; congruence).
      constructor; [now constructor|]. constructor; [assumption|].
      eapply Forall_impl; [|exact Hall]. simpl. intros b Hb.
      now apply le_trans with y.
    + assert (Hyx : le y x) by (apply not_above_le; congruence).
      constructor; [now constructor|]. constructor; [assumption|].
      eapply Forall_impl; [|exact Hall]. simpl. intros b Hb.
      now apply le_trans with y.
    + apply above_le in E. constructor; [assumption|].
      eapply Permutation_Forall.
      { apply Permutation_sym, shiftIn_perm. }
      constructor; assumption.
Qed.

Lemma sortLoop_ordered (l acc : list A) :
  StronglySorted (fun a b => le b a) acc ->
  StronglySorted (fun a b => le b a) (sortLoop comparefn l acc).
Proof.
  revert acc. induction l as [|x l IH]; intros acc Hacc; [assumption|].
  unfold sortLoop in *. simpl. apply IH. now apply shiftIn_ordered.
Qed.

Lemma js_sort_ordered (l : list A) : StronglySorted le (js_sort comparefn l).
Proof.
  unfold js_sort. apply StronglySorted_rev.
  apply (sortLoop_ordered l). constructor.
Qed.

End Ordered.

End SortByOrder.

(** ** The order of store results *)

Module StoreFacts.
Import JsString JsArray JsArrayFacts SortByKey StoreOrder.

Lemma ascii_compare_refl (a : ascii) : Ascii.compare a a = Eq.
Proof. unfold Ascii.compare. apply N.compare_refl. Qed.

Lemma string_compare_refl (s : string) : String.compare s s = Eq.
Proof.
  induction s as [|a s IH]; simpl; [reflexivity|].
  now rewrite ascii_compare_refl.
Qed.

Lemma string_compare_lt_trans (a b c : string) :
  String.compare a b = Lt -> String.compare b c = Lt ->
  String.compare a c = Lt.
Proof.
  revert b c. induction a as [|x a IH]; intros [|y b] [|z c]; simpl;
    try discriminate; try reflexivity.
  unfold Ascii.compare.
  destruct (N.compare_spec (N_of_ascii x) (N_of_ascii y)) as [Exy|Lxy|Gxy];
    try discriminate;
    destruct (N.compare_spec (N_of_ascii y) (N_of_ascii z)) as [Eyz|Lyz|Gyz];
    try discriminate; intros Hab Hbc.
  - rewrite Exy, Eyz, N.compare_refl. now apply IH with b.
  - rewrite Exy. now apply N.compare_lt_iff in Lyz as ->.
  - rewrite <- Eyz. now apply N.compare_lt_iff in Lxy as ->.
  - assert (L : (N_of_ascii x < N_of_ascii z)%N) by lia.
    now apply N.compare_lt_iff in L as ->.
Qed.

Lemma string_compare_not_gt_trans (a b c : string) :
  String.compare a b <> Gt -> String.compare b c <> Gt ->
  String.compare a c <> Gt.
Proof.
  intros Hab Hbc.
  destruct (String.compare a b) eqn:Eab; [| |congruence].
  - apply String.compare_eq_iff in Eab. now subst b.
  - destruct (String.compare b c) eqn:Ebc; [| |congruence].
    + apply String.compare_eq_iff in Ebc. subst c. now rewrite Eab.
    + now rewrite (string_compare_lt_trans _ _ _ Eab Ebc).
Qed.

Lemma signOf_compare (c : comparison) : (Sql.signOf c ?= 0)%Q = c.
Proof. destruct c; reflexivity. Qed.

Lemma rowBefore_trans (relevance : dataRow -> Z) (a b c : dataRow) :
  rowBefore relevance a b -> rowBefore relevance b c ->
  rowBefore relevance a c.
Proof.
  unfold rowBefore. intros [Hab|[Eab Uab]] [Hbc|[Ebc Ubc]].
  - left. lia.
  - left. lia.
  - left. lia.
  - right. split; [lia|]. now apply string_compare_not_gt_trans with (row_updated_at b).
Qed.

Lemma byRelevanceThenUpdatedDesc_above (pattern : string) (a b : dataRow) :
  Queries.byRelevanceThenUpdatedDesc pattern a b = Gt ->
  rowBefore (Queries.relevanceCase pattern) b a.
Proof.
  unfold Queries.byRelevanceThenUpdatedDesc, Queries.byUpdatedDesc, rowBefore.
  destruct (Z.compare_spec (Queries.relevanceCase pattern b)
              (Queries.relevanceCase pattern a)) as [E|L|G];
    try discriminate.
  - intros Hs. right. split; [exact E|].
    rewrite String.compare_antisym, Hs. discriminate.
  - intros _. left. exact G.
Qed.

Lemma byRelevanceThenUpdatedDesc_not_above (pattern : string)
  (a b : dataRow) :
  Queries.byRelevanceThenUpdatedDesc pattern a b <> Gt ->
  rowBefore (Queries.relevanceCase pattern) a b.
Proof.
  unfold Queries.byRelevanceThenUpdatedDesc, Queries.byUpdatedDesc, rowBefore.
  destruct (Z.compare_spec (Queries.relevanceCase pattern b)
              (Queries.relevanceCase pattern a)) as [E|L|G].
  - intros Hs. right. split; [now symmetry|exact Hs].
  - intros _. left. exact L.
  - intros Hs. now elim Hs.
Qed.

Lemma byUpdatedDesc_rowBefore (a b : dataRow) :
  (Queries.byUpdatedDesc a b = Gt -> rowBefore (fun _ => 0) b a)
  /\ (Queries.byUpdatedDesc a b <> Gt -> rowBefore (fun _ => 0) a b).
Proof.
  unfold Queries.byUpdatedDesc, rowBefore. split; intros Hs; right.
  - split; [reflexivity|]. rewrite String.compare_antisym, Hs. discriminate.
  - split; [reflexivity|exact Hs].
Qed.

Lemma orderBy_relevance_sorted (pattern : string) (rows : list dataRow) :
  StronglySorted (rowBefore (Queries.relevanceCase pattern))
    (Sql.orderBy (Queries.byRelevanceThenUpdatedDesc pattern) rows).
Proof.
  unfold Sql.orderBy. apply SortByOrder.js_sort_ordered.
  - apply rowBefore_trans.
  - intros a b. rewrite signOf_compare.
    apply byRelevanceThenUpdatedDesc_above.
  - intros a b. rewrite signOf_compare.
    apply byRelevanceThenUpdatedDesc_not_above.
Qed.

Lemma orderBy_updated_sorted (rows : list dataRow) :
  StronglySorted (rowBefore (fun _ => 0))
    (Sql.orderBy Queries.byUpdatedDesc rows).
Proof.
  unfold Sql.orderBy. apply SortByOrder.js_sort_ordered.
  - apply rowBefore_trans.
  - intros a b. rewrite signOf_compare. apply byUpdatedDesc_rowBefore.
  - intros a b. rewrite signOf_compare. apply byUpdatedDesc_rowBefore.
Qed.

Lemma limitRows_prefix (A : Type) (n : Z) (rows : list A) :
  exists rest, rows = Sql.limitRows n rows ++ rest.
Proof.
  unfold Sql.limitRows. destruct (n <? 0).
  - exists []. now rewrite app_nil_r.
  - apply firstn_prefix.
Qed.

Lemma limitRows_length (A : Type) (n : Z) (rows : list A) :
  0 <= n -> Z.of_nat (List.length (Sql.limitRows n rows)) <= n.
Proof.
  intros Hn. unfold Sql.limitRows. destruct (Z.ltb_spec n 0); [lia|].
  pose proof (firstn_le_length (Z.to_nat n) rows). lia.
Qed.

Lemma limitRows_map (A B : Type) (f : A -> B) (n : Z) (rows : list A) :
  Sql.limitRows n (map f rows) = map f (Sql.limitRows n rows).
Proof.
  unfold Sql.limitRows. destruct (n <? 0); [reflexivity|].
  apply firstn_map.
Qed.

Lemma limitRows_sorted (A : Type) (R : A -> A -> Prop) (n : Z)
  (rows : list A) :
  StronglySorted R rows -> StronglySorted R (Sql.limitRows n rows).
Proof.
  intros Hs. destruct (limitRows_prefix n rows) as [rest E].
  rewrite E in Hs. now apply StronglySorted_app_l in Hs.
Qed.

Lemma limitRows_In (A : Type) (n : Z) (rows : list A) (x : A) :
  In x (Sql.limitRows n rows) -> In x rows.
Proof.
  intros Hx. destruct (limitRows_prefix n rows) as [rest E].
  rewrite E. apply in_or_app. now left.
Qed.

Lemma orderBy_In (A : Type) (cmp : A -> A -> comparison) (rows : list A)
  (x : A) :
  In x (Sql.orderBy cmp rows) -> In x rows.
Proof. unfold Sql.orderBy. apply js_sort_In. Qed.

Lemma StronglySorted_map (A B : Type) (R : A -> A -> Prop)
  (S : B -> B -> Prop) (f : A -> B) (l : list A) :
  (forall a b, R a b -> S (f a) (f b)) ->
  StronglySorted R l -> StronglySorted S (map f l).
Proof.
  intros HRS. induction 1 as [|a l Hs IH Hall]; simpl; constructor.
  - exact IH.
  - apply Forall_map. eapply Forall_impl; [|exact Hall]. intros b. apply HRS.
Qed.

Lemma matching_row_relevance (pattern : string) (row : dataRow) :
  Queries.matchesPattern pattern row = true ->
  1 <= Queries.relevanceCase pattern row <= 3.
Proof.
  unfold Queries.matchesPattern, Queries.relevanceCase.
  destruct (Sql.like pattern (row_title row)); [lia|].
  destruct (Sql.like pattern (row_content row)); [lia|].
  destruct (Sql.columnLike (row_tags row) pattern); [lia|discriminate].
Qed.

(** X8: the store search returns its rows ranked. With the fuzzy flag
    every returned entry carries a relevance between 1 and 3 and the
    entries are listed by falling relevance, entries of equal relevance
    by falling [updated_at]; without the flag no entry carries a relevance
    and the entries are listed by falling [updated_at]. For a limit that
    is not negative at most [limit] entries are returned. *)
Theorem searchDataInDB_ranked (H : Host) (rows : list dataRow)
  (query : string) (options : Queries.searchOptions) :
  let limit :=
    match Queries.so_limit options with Some l => l | None => 20 end in
  let fuzzy :=
    match Queries.so_fuzzy options with Some f => f | None => false end in
  exists entries,
    outcome (Queries.searchDataInDB (Some rows) query options) = inr entries
    /\ StronglySorted listedBefore entries
    /\ Forall (fun e =>
                 if fuzzy
                 then exists s, relevance_score e = Some s /\ 1 <= s <= 3
                 else relevance_score e = None) entries
    /\ (0 <= limit -> Z.of_nat (List.length entries) <= limit).
Proof.
  intros limit fuzzy. unfold Queries.searchDataInDB. fold limit. fold fuzzy.
  simpl. eexists. split; [reflexivity|].
  set (pattern := Sql.containsPattern query).
  set (keep := fun row => Queries.matchesPattern pattern row
                          && Queries.categoryFilter
                               (Queries.so_category options) row).
  destruct fuzzy.
  - unfold Queries.selectFuzzy. fold keep. rewrite map_map. simpl.
    split; [|split].
    + apply StronglySorted_map
        with (R := rowBefore (Queries.relevanceCase pattern)).
      * intros a b Hab. exact Hab.
      * apply limitRows_sorted, orderBy_relevance_sorted.
    + apply Forall_map. apply Forall_forall. intros row Hrow.
      apply limitRows_In, orderBy_In, filter_In in Hrow.
      destruct Hrow as [_ Hk]. apply andb_true_iff in Hk.
      simpl. eexists. split; [reflexivity|].
      apply matching_row_relevance. tauto.
    + intros Hl. rewrite length_map. now apply limitRows_length.
  - unfold Queries.selectExact. fold keep. rewrite map_map. simpl.
    split; [|split].
    + apply StronglySorted_map with (R := rowBefore (fun _ => 0)).
      * intros a b Hab. exact Hab.
      * apply limitRows_sorted, orderBy_updated_sorted.
    + apply Forall_map. apply Forall_forall. intros row Hrow. reflexivity.
    + intros Hl. rewrite length_map. now apply limitRows_length.
Qed.

Lemma like_percents (query text : string) :
  allPercent query = true -> Sql.like (Sql.containsPattern query) text = true.
Proof.
  unfold Sql.containsPattern.
  change ("%" ++ query ++ "%")%string with (String "%" (query ++ "%")).
  intros Hq.
  assert (G : forall text, Sql.like (query ++ "%") text = true).
  { clear text. induction query as [|c query IH]; intros text.
    - apply LocalSearchFacts.like_percent_only.
    - simpl in Hq. apply andb_true_iff in Hq. destruct Hq as [Hc Hq].
      apply Ascii.eqb_eq in Hc. subst c.
      change (String "%" query ++ "%")%string
        with (String "%" (query ++ "%")).
      rewrite LocalSearchFacts.like_percent, IH by assumption.
      reflexivity. }
  rewrite LocalSearchFacts.like_percent, G. reflexivity.
Qed.

Lemma filter_all (A : Type) (f g : A -> bool) (l : list A) :
  (forall x, f x = true) ->
  filter (fun x => f x && g x) l = filter g l.
Proof.
  intros Hf. apply filter_ext. intros x. now rewrite Hf.
Qed.

(** X9: percent signs in a query are wildcards. A store search without
    the fuzzy flag whose query consists of percent signs only (or is
    empty) selects every row: it returns the first [limit] entries of the
    listing [getDataFromDB] gives for the same category. *)
Theorem percent_query_lists_everything (H : Host) (db : database)
  (query : string) (limit : Z) (category : option string) :
  allPercent query = true ->
  outcome (Queries.searchDataInDB db query
             {| Queries.so_limit := Some limit;
                Queries.so_category := category;
                Queries.so_fuzzy := None |})
  = match outcome (Queries.getDataFromDB db category) with
    | inr listing => inr (Sql.limitRows limit listing)
    | inl e => inl e
    end.
Proof.
  intros Hq. destruct db as [rows|]; [|reflexivity].
  unfold Queries.searchDataInDB, Queries.getDataFromDB, Queries.selectExact.
  simpl. rewrite map_map. simpl. rewrite limitRows_map.
  rewrite filter_all; [reflexivity|].
  intros row. unfold Queries.matchesPattern.
  now rewrite like_percents.
Qed.

Lemma percent_query_sample :
  allPercent "%" = true
  /\ outcome (Queries.searchDataInDB (H := Examples.plainHost)
                (Some Examples.sampleRows) "%"
                {| Queries.so_limit := Some 1;
                   Queries.so_category := Some "general";
                   Queries.so_fuzzy := None |})
     = match outcome (Queries.getDataFromDB (H := Examples.plainHost)
                        (Some Examples.sampleRows) (Some "general")) with
       | inr listing => inr (Sql.limitRows 1 listing)
       | inl e => inl e
       end.
Proof.
  assert (Hq : allPercent "%" = true) by reflexivity.
  split; [exact Hq|].
  exact (@percent_query_lists_everything Examples.plainHost
           (Some Examples.sampleRows) "%" 1 (Some "general") Hq).
Defined.

Lemma searchLocal_calls_one (H : Host) (db : database) (query : string)
  (options : SearchService.localOptions) :
  exists call,
    calls (SearchService.searchLocal db query options) = [call]
    /\ (outcome (SearchService.searchLocal db query options)
        = inl "Lokale Suche fehlgeschlagen"
        \/ exists found,
             outcome (SearchService.searchLocal db query options)
             = inr found).
Proof.
  unfold SearchService.searchLocal.
  destruct db as [rows|];
    destruct (match SearchService.lo_suggestionsOnly options with
              | Some s => s | None => false end),
             (match SearchService.lo_fuzzy options with
              | Some f => f | None => true end);
    simpl; eexists; (split; [reflexivity|]);
    first [left; reflexivity | right; eexists; reflexivity].
Qed.

(** X10: the local search asks the store exactly once, and what it asks
    depends on the mode only: for suggestions the fuzzy store search with
    limit 5 and no category, in fuzzy mode the whole category without the
    query, otherwise the plain store search. When the store fails the
    local search fails with its own message, whatever the store
    reported. *)
Theorem searchLocal_asks_once (H : Host) (db : database) (query : string)
  (options : SearchService.localOptions) :
  let limit :=
    match SearchService.lo_limit options with Some l => l | None => 20 end in
  let fuzzy :=
    match SearchService.lo_fuzzy options with Some f => f | None => true end in
  let suggestionsOnly :=
    match SearchService.lo_suggestionsOnly options with
    | Some s => s | None => false end in
  calls (SearchService.searchLocal db query options)
  = [ if suggestionsOnly then CallSearchDataInDB query 5 None true
      else if fuzzy
           then CallGetDataFromDB (SearchService.lo_category options)
           else CallSearchDataInDB query limit
                  (SearchService.lo_category options) false ]
  /\ (db = None ->
      outcome (SearchService.searchLocal db query options)
      = inl "Lokale Suche fehlgeschlagen")
  /\ (db <> None ->
      exists found,
        outcome (SearchService.searchLocal db query options) = inr found).
Proof.
  intros limit fuzzy suggestionsOnly.
  unfold SearchService.searchLocal.
  fold limit. fold fuzzy. fold suggestionsOnly.
  destruct db as [rows|]; destruct suggestionsOnly, fuzzy; simpl;
    (split; [reflexivity|split; [intros E|intros E]]);
    try discriminate; try reflexivity; try (now elim E);
    eexists; reflexivity.
Qed.

End StoreFacts.

(** ** Listing the store *)

Module DataListingFacts.
Import JsString DataListing.

Lemma getDataFromDB_category_only (H : Host) (db : database)
  (category : option string) :
  getDataFromDB db
    {| ls_category := category; ls_search := None; ls_limit := None;
       ls_offset := None; ls_all := None |}
  = outcome (Queries.getDataFromDB db category).
Proof.
  destruct db as [rows|]; [|reflexivity].
  unfold getDataFromDB, Queries.getDataFromDB, listedRows, pageRows.
  simpl. do 3 f_equal. apply filter_ext. intros row.
  unfold searchFilter. simpl. apply andb_true_r.
Qed.

Lemma pageRows_unpaged (A : Type) (options : getDataOptions) (rows : list A) :
  pageRows (unpaged options) rows = rows.
Proof. reflexivity. Qed.

Lemma pageRows_page (A : Type) (category search : option string)
  (limit page : Z) (rows : list A) :
  1 <= limit -> 1 <= page ->
  pageRows {| ls_category := category; ls_search := search;
              ls_limit := Some limit;
              ls_offset := Some ((page - 1) * limit); ls_all := None |} rows
  = pageOf limit page rows.
Proof.
  intros Hl Hp. unfold pageRows, pageOf, truthyInt, Sql.limitRows, offsetRows.
  simpl. destruct (Z.eqb_spec limit 0); [lia|]. simpl.
  destruct (Z.ltb_spec limit 0); [lia|].
  destruct (Z.eqb_spec ((page - 1) * limit) 0) as [E|E]; simpl.
  - rewrite E. reflexivity.
  - reflexivity.
Qed.

Lemma pageRows_no_limit (A : Type) (category search : option string)
  (limit page : Z) (rows : list A) :
  limit <= 0 -> 1 <= page ->
  pageRows {| ls_category := category; ls_search := search;
              ls_limit := Some limit;
              ls_offset := Some ((page - 1) * limit); ls_all := None |} rows
  = rows.
Proof.
  intros Hl Hp. unfold pageRows, truthyInt, Sql.limitRows, offsetRows.
  simpl. destruct (Z.eqb_spec limit 0); [reflexivity|]. simpl.
  destruct (Z.ltb_spec limit 0); [|lia].
  destruct (Z.eqb_spec ((page - 1) * limit) 0) as [E|E]; simpl;
    [reflexivity|].
  replace (Z.to_nat ((page - 1) * limit)) with 0%nat by nia.
  reflexivity.
Qed.

Lemma pageOf_map (A B : Type) (f : A -> B) (limit page : Z) (l : list A) :
  pageOf limit page (map f l) = map f (pageOf limit page l).
Proof. unfold pageOf. now rewrite skipn_map, firstn_map. Qed.

(** The pages 1 to [n], one after the other, are the first [n * limit]
    elements. *)
Lemma pages_concat (A : Type) (limit : Z) (l : list A) (n : nat) :
  1 <= limit ->
  List.concat (map (fun p => pageOf limit (Z.of_nat p) l) (seq 1 n))
  = firstn (n * Z.to_nat limit) l.
Proof.
  intros Hl. induction n as [|n IH]; [reflexivity|].
  rewrite seq_S, map_app, concat_app, IH. simpl.
  rewrite app_nil_r. unfold pageOf.
  replace (Z.to_nat ((Z.of_nat (S n) - 1) * limit))
    with (n * Z.to_nat limit)%nat by nia.
  rewrite <- (firstn_skipn (n * Z.to_nat limit)
                (firstn (Z.to_nat limit + n * Z.to_nat limit) l)).
  rewrite firstn_firstn.
  replace (Init.Nat.min (n * Z.to_nat limit)
             (Z.to_nat limit + n * Z.to_nat limit))
    with (n * Z.to_nat limit)%nat by lia.
  f_equal. rewrite skipn_firstn_comm. f_equal. lia.
Qed.

(** X11: [getData] pages through the listing. With a limit of at least 1
    and a page of at least 1, the entries returned are page [page] of what
    [getData] returns with [all] set, and [total] is the length of that
    whole listing; the pages 1 to [n], one after the other, are its first
    [n * limit] entries. With a limit of 0 or less the whole listing is
    returned on every page. *)
Theorem getData_pages (H : Host) (rows : list dataRow)
  (category search : option string) (limit page : Z) :
  1 <= page ->
  let paged p :=
    getData (Some rows)
      {| gd_page := Some p; gd_limit := Some limit;
         gd_category := category; gd_search := search; gd_all := None |} in
  exists whole,
    getData (Some rows)
      {| gd_page := None; gd_limit := None; gd_category := category;
         gd_search := search; gd_all := Some true |}
    = inr {| entries := whole; total := Z.of_nat (List.length whole) |}
    /\ (1 <= limit ->
        paged page
        = inr {| entries := pageOf limit page whole;
                 total := Z.of_nat (List.length whole) |}
        /\ forall n,
             List.concat (map (fun p =>
                            match paged (Z.of_nat p) with
                            | inr found => entries found
                            | inl _ => []
                            end) (seq 1 n))
             = firstn (n * Z.to_nat limit) whole)
    /\ (limit <= 0 ->
        paged page
        = inr {| entries := whole; total := Z.of_nat (List.length whole) |}).
Proof.
  intros Hp paged.
  set (sorted := Sql.orderBy Queries.byUpdatedDesc
       (filter (fun row => Queries.categoryFilter category row
                           && searchFilter search row) rows)).
  exists (map (fun row => Queries.parseDataEntry row None) sorted).
  assert (Paged : forall p, 1 <= p -> 1 <= limit ->
            paged p
            = inr {| entries :=
                       pageOf limit p
                         (map (fun row => Queries.parseDataEntry row None)
                            sorted);
                     total := Z.of_nat (List.length
                         (map (fun row => Queries.parseDataEntry row None)
                            sorted)) |}).
  { intros p Hp' Hl. unfold paged, getData, getDataFromDB, listedRows.
    cbn [gd_page gd_limit gd_category gd_search gd_all unpaged
         ls_category ls_search].
    fold sorted. rewrite pageRows_page by assumption.
    rewrite pageRows_unpaged. now rewrite pageOf_map. }
  split; [reflexivity|]. split.
  - intros Hl. split; [now apply Paged|].
    intros n. rewrite <- pages_concat by assumption.
    f_equal. apply map_ext_in. intros p Hin. apply in_seq in Hin.
    rewrite Paged by lia. reflexivity.
  - intros Hl. unfold paged, getData, getDataFromDB, listedRows.
    cbn [gd_page gd_limit gd_category gd_search gd_all unpaged
         ls_category ls_search].
    fold sorted. rewrite pageRows_no_limit by assumption.
    now rewrite pageRows_unpaged.
Qed.

End DataListingFacts.

(** ** Two ways to the same rows *)

Module StoreAgreement.
Import JsString JsArray JsArrayFacts StoreOrder DataListing.

Lemma limitRows_length_perm (A : Type) (n : Z) (l l' : list A) :
  Permutation l l' ->
  List.length (Sql.limitRows n l) = List.length (Sql.limitRows n l').
Proof.
  intros P. apply Permutation_length in P. unfold Sql.limitRows.
  destruct (n <? 0); [exact P|]. rewrite !length_firstn. lia.
Qed.

Lemma orderBy_perm (A : Type) (cmp cmp' : A -> A -> comparison)
  (rows : list A) :
  Permutation (Sql.orderBy cmp rows) (Sql.orderBy cmp' rows).
Proof.
  unfold Sql.orderBy.
  eapply Permutation_trans; [apply js_sort_perm|].
  apply Permutation_sym, js_sort_perm.
Qed.

(** X12: the fuzzy flag of the store search changes the order and adds
    the scores, not the selection. With and without the flag
    [searchDataInDB] fails on the same databases and returns the same
    number of entries; without a limit (a negative one) the entries
    returned are the same up to their order and the relevance column. *)
Theorem fuzzy_flag_keeps_selection (H : Host) (db : database)
  (query : string) (limit : Z) (category : option string) :
  let search fuzzy :=
    outcome (Queries.searchDataInDB db query
               {| Queries.so_limit := Some limit;
                  Queries.so_category := category;
                  Queries.so_fuzzy := Some fuzzy |}) in
  match search true, search false with
  | inr ranked, inr plain =>
      List.length ranked = List.length plain
      /\ (limit < 0 -> Permutation (map withoutScore ranked) plain)
  | inl e, inl e' => e = e'
  | _, _ => False
  end.
Proof.
  intros search. unfold search, Queries.searchDataInDB.
  destruct db as [rows|]; [|reflexivity].
  cbn [outcome snd Queries.runQuery bind logCall ret Queries.so_limit
       Queries.so_category Queries.so_fuzzy].
  unfold Queries.selectFuzzy, Queries.selectExact.
  set (pattern := Sql.containsPattern query).
  set (kept := filter (fun row => Queries.matchesPattern pattern row
                                  && Queries.categoryFilter category row)
                 rows).
  simpl. rewrite !map_map, !length_map. split.
  - apply limitRows_length_perm, orderBy_perm.
  - intros Hl. unfold Sql.limitRows.
    destruct (Z.ltb_spec limit 0); [|lia].
    apply (Permutation_map (fun row => Queries.parseDataEntry row None)).
    apply orderBy_perm.
Qed.

Lemma searchFilter_pattern (query : string) (row : dataRow) :
  searchFilter (Some query) row
  = Queries.matchesPattern (Sql.containsPattern query) row.
Proof.
  unfold searchFilter. simpl. destruct query as [|c query]; [|reflexivity].
  simpl truthy. cbv iota. symmetry. unfold Queries.matchesPattern.
  now rewrite StoreFacts.like_percents.
Qed.

(** X13: listing with a search term is the plain store search. For a
    limit other than 0, [getDataFromDB] called with a category, a search
    term and the limit returns exactly what [searchDataInDB] returns for
    that term, limit and category without the fuzzy flag, and fails when
    it fails. *)
Theorem listing_with_search_is_store_search (H : Host) (db : database)
  (query : string) (limit : Z) (category : option string) :
  limit <> 0 ->
  getDataFromDB db
    {| ls_category := category; ls_search := Some query;
       ls_limit := Some limit; ls_offset := None; ls_all := None |}
  = outcome (Queries.searchDataInDB db query
               {| Queries.so_limit := Some limit;
                  Queries.so_category := category;
                  Queries.so_fuzzy := None |}).
Proof.
  intros Hl. destruct db as [rows|]; [|reflexivity].
  unfold getDataFromDB, Queries.searchDataInDB, Queries.selectExact,
    listedRows, pageRows.
  cbn [outcome snd Queries.runQuery bind logCall ret Queries.so_limit
       Queries.so_category Queries.so_fuzzy ls_category ls_search ls_limit
       ls_offset ls_all truthyInt].
  destruct (Z.eqb_spec limit 0); [contradiction|].
  simpl. rewrite !map_map. simpl. do 4 f_equal.
  apply filter_ext. intros row. rewrite searchFilter_pattern.
  apply andb_comm.
Qed.

Lemma listing_with_search_sample :
  1 <> 0
  /\ getDataFromDB (H := Examples.plainHost) (Some Examples.sampleRows)
       {| ls_category := None; ls_search := Some "ab";
          ls_limit := Some 1; ls_offset := None; ls_all := None |}
     = outcome (Queries.searchDataInDB (H := Examples.plainHost)
                  (Some Examples.sampleRows) "ab"
                  {| Queries.so_limit := Some 1;
                     Queries.so_category := None;
                     Queries.so_fuzzy := None |}).
Proof.
  assert (Hlimit : 1 <> 0) by lia.
  split; [exact Hlimit|].
  exact (@listing_with_search_is_store_search Examples.plainHost
           (Some Examples.sampleRows) "ab" 1 None Hlimit).
Defined.

End StoreAgreement.

(** ** More of the file walk and of the web search *)

Module WalkErrors.
Import JsString JsArray JsArrayFacts SearchService FileWalk.

Lemma visitFile_stat_fails (H : Host) (query : string)
  (extensions : list string) (includeContent : bool) (dir name : string)
  (data : option string) (results : list fileHit) :
  nameMatches query name = true ->
  visitFile query extensions includeContent dir name data None results
  = (true, results).
Proof.
  intros Hname. unfold visitFile. rewrite Hname. cbn [orb].
  match goal with
  | |- (let (_, _) := ?read in _) = _ => destruct read as [text matches]
  end.
  reflexivity.
Qed.

Lemma walkLoop_stat_fails (H : Host) (query : string) (limit : Z)
  (extensions : list string) (includeContent : bool) (dir name : string)
  (data : option string) (before rest : list dirent)
  (results : list fileHit) :
  nameMatches query name = true ->
  walkLoop query limit extensions includeContent dir
    (before ++ File name data None :: rest) results
  = walkLoop query limit extensions includeContent dir before results.
Proof.
  intros Hname. revert results.
  induction before as [|entry before IH]; intros results.
  - cbn [app walkLoop visitEntry].
    now rewrite visitFile_stat_fails.
  - cbn [app walkLoop].
    destruct (visitEntry query limit extensions includeContent dir entry
                results) as [threw results'].
    destruct threw; [reflexivity|].
    destruct (limit <=? Z.of_nat (List.length results')); [reflexivity|].
    apply IH.
Qed.

(** X14: a file whose [stat] fails hides the rest of its directory. When
    a file whose name contains the query cannot be examined, the walk of
    the directory it is in ends there without an error: the search
    returns what it would return if that file and every entry listed
    after it in the directory were absent. *)
Theorem failed_stat_hides_the_rest (H : Host) (query : string) (limit : Z)
  (extensions : list string) (includeContent : bool) (dir d name : string)
  (data : option string) (before rest : list dirent)
  (results : list fileHit) :
  nameMatches query name = true ->
  searchInDirectory query limit extensions includeContent dir
    (Directory d (Some (before ++ File name data None :: rest))) results
  = searchInDirectory query limit extensions includeContent dir
      (Directory d (Some before)) results.
Proof.
  intros Hname. rewrite !FileWalkFacts.searchInDirectory_loop.
  now apply walkLoop_stat_fails.
Qed.

Lemma failed_stat_sample :
  nameMatches (H := Examples.plainHost) "foo" "foo.lock" = true
  /\ searchInDirectory (H := Examples.plainHost) "foo" 50 textExtensions true
       "." (Directory "." (Some ([Examples.fooFile]
                                 ++ File "foo.lock" None None
                                 :: [Examples.barFile]))) []
     = searchInDirectory (H := Examples.plainHost) "foo" 50 textExtensions
         true "." (Directory "." (Some [Examples.fooFile])) [].
Proof.
  assert (Hname : nameMatches (H := Examples.plainHost) "foo" "foo.lock"
                  = true) by reflexivity.
  split; [exact Hname|].
  exact (@failed_stat_hides_the_rest Examples.plainHost "foo" 50
           textExtensions true "." "." "foo.lock" None [Examples.fooFile]
           [Examples.barFile] [] Hname).
Defined.

(** X15: how many results the web search returns. [searchWeb] fails
    exactly when the query cannot be URI-encoded, and then with its own
    message. Otherwise it returns web results only: both simulated
    results for a limit of 2 or more, the first [limit] of them for a
    smaller limit that is not negative, and for a negative limit the two
    results less the last [-limit] of them. *)
Theorem searchWeb_count (H : Host) (query : string) (limit : option Z) :
  let bound := match limit with Some l => l | None => 10 end in
  match searchWeb query limit with
  | inr results =>
      encodeURIComponent query <> None
      /\ Forall (fun r => match r with WebResult _ => True | _ => False end)
           results
      /\ Z.of_nat (List.length results)
         = (if bound <? 0 then Z.max (2 + bound) 0 else Z.min bound 2)
  | inl message =>
      encodeURIComponent query = None
      /\ message = "Web-Suche nicht verfügbar"
  end.
Proof.
  intros bound. unfold searchWeb. fold bound.
  destruct (encodeURIComponent query) as [encoded|]; [|split; reflexivity].
  split; [discriminate|]. split.
  - apply Forall_forall. intros r Hr. apply slice0_In in Hr.
    destruct Hr as [<-|[<-|[]]]; exact I.
  - unfold slice0. destruct (Z.ltb_spec bound 0).
    + rewrite length_firstn. simpl List.length. lia.
    + rewrite length_firstn. simpl List.length. lia.
Qed.

End WalkErrors.

(** ** Trimming *)

Module TrimFacts.
Import JsString JsValue.

Lemma trimStart_head (s : string) :
  trimStart s = EmptyString
  \/ exists c rest, trimStart s = String c rest /\ isWhiteSpace c = false.
Proof.
  induction s as [|c s IH]; simpl; [now left|].
  destruct (isWhiteSpace c) eqn:E; [exact IH|].
  right. now exists c, s.
Qed.

Lemma trimEnd_head (c : ascii) (s : string) :
  isWhiteSpace c = false -> exists rest, trimEnd (String c s) = String c rest.
Proof.
  intros E. simpl. rewrite E. destruct (trimEnd s); eexists; reflexivity.
Qed.

Lemma trimEnd_idem (s : string) : trimEnd (trimEnd s) = trimEnd s.
Proof.
  induction s as [|c s IH]; simpl; [reflexivity|].
  destruct (trimEnd s) as [|d rest] eqn:E.
  - destruct (isWhiteSpace c) eqn:W; simpl; [reflexivity|now rewrite W].
  - change (trimEnd (String c (String d rest)))
      with (match trimEnd (String d rest) with
            | EmptyString => if isWhiteSpace c then EmptyString
                             else String c EmptyString
            | r => String c r
            end).
    now rewrite IH.
Qed.

Lemma trimStart_fixed (c : ascii) (s : string) :
  isWhiteSpace c = false -> trimStart (String c s) = String c s.
Proof. intros E. simpl. now rewrite E. Qed.

Lemma trim_idem (s : string) : trim (trim s) = trim s.
Proof.
  unfold trim. destruct (trimStart_head s) as [E|[c [rest [E W]]]].
  - rewrite E. reflexivity.
  - rewrite E. destruct (@trimEnd_head c rest W) as [t Et].
    rewrite Et, trimStart_fixed by assumption. rewrite <- Et.
    apply trimEnd_idem.
Qed.

Lemma length_trimStart (s : string) :
  (String.length (trimStart s) <= String.length s)%nat.
Proof.
  induction s as [|c s IH]; simpl; [lia|].
  destruct (isWhiteSpace c); simpl; lia.
Qed.

Lemma length_trimEnd (s : string) :
  (String.length (trimEnd s) <= String.length s)%nat.
Proof.
  induction s as [|c s IH]; simpl; [lia|].
  destruct (trimEnd s); [destruct (isWhiteSpace c)|]; simpl in *; lia.
Qed.

Lemma length_trim (s : string) :
  (String.length (trim s) <= String.length s)%nat.
Proof.
  unfold trim. pose proof (length_trimEnd (trimStart s)).
  pose proof (length_trimStart s). lia.
Qed.

Lemma length_zero_truthy (s : string) :
  (String.length s =? 0)%nat = negb (truthy s).
Proof. destruct s; reflexivity. Qed.

End TrimFacts.

(** ** The validation middleware *)

Module ValidationFacts.
Import JsString JsValue Validation TrimFacts.

(** X16: what [validateSearchQuery] lets through. The query it hands on is
    the trimmed original, which was a string of at most 500 characters; it
    is not empty, has no white space at either end, and validating it
    again hands on the same query. *)
Theorem validateSearchQuery_accepts (query : option json) (accepted : string) :
  validateSearchQuery query = NextQuery accepted ->
  (exists original,
      query = Some (JStr original) /\ accepted = trim original
      /\ (String.length original <= 500)%nat)
  /\ accepted <> EmptyString
  /\ trim accepted = accepted
  /\ (String.length accepted <= 500)%nat
  /\ validateSearchQuery (Some (JStr accepted)) = NextQuery accepted.
Proof.
  unfold validateSearchQuery.
  destruct query as [[| | |s| |]|]; try discriminate.
  destruct (negb (truthy s) || (String.length (trim s) =? 0)%nat) eqn:E;
    [discriminate|].
  destruct (Nat.ltb_spec 500 (String.length s)) as [|Hlen]; [discriminate|].
  intros R. injection R as <-.
  apply orb_false_iff in E. destruct E as [_ E].
  pose proof (length_trim s) as Hle.
  assert (Hne : trim s <> EmptyString).
  { intros Z. rewrite Z in E. discriminate. }
  split; [now exists s|]. split; [exact Hne|].
  split; [apply trim_idem|]. split; [lia|].
  rewrite trim_idem, E.
  destruct (trim s) eqn:T; [congruence|]. simpl.
  destruct (Nat.ltb_spec 500 (S (String.length s0))); [simpl in Hle; lia|].
  reflexivity.
Qed.

Lemma validateSearchQuery_sample :
  validateSearchQuery (Some (JStr "  kontakt ")) = NextQuery "kontakt"
  /\ (exists original,
         Some (JStr "  kontakt ") = Some (JStr original)
         /\ "kontakt" = trim original
         /\ (String.length original <= 500)%nat)
  /\ "kontakt" <> EmptyString
  /\ trim "kontakt" = "kontakt"
  /\ (String.length "kontakt" <= 500)%nat
  /\ validateSearchQuery (Some (JStr "kontakt")) = NextQuery "kontakt".
Proof.
  assert (Hrun : validateSearchQuery (Some (JStr "  kontakt "))
                 = NextQuery "kontakt") by reflexivity.
  split; [exact Hrun|].
  exact (@validateSearchQuery_accepts (Some (JStr "  kontakt ")) "kontakt"
           Hrun).
Defined.

(** *** sanitizeInput *)

Lemma string_app_assoc (x y z : string) :
  ((x ++ y) ++ z)%string = (x ++ y ++ z)%string.
Proof.
  induction x as [|a x IH]; [reflexivity|].
  change (String a ((x ++ y) ++ z) = String a (x ++ y ++ z))%string.
  now rewrite IH.
Qed.

Lemma replaceAll_app (c : ascii) (r x y : string) :
  replaceAll c r (x ++ y)
  = (replaceAll c r x ++ replaceAll c r y)%string.
Proof.
  induction x as [|a x IH]; [reflexivity|].
  change (String a x ++ y)%string with (String a (x ++ y)).
  cbn [replaceAll]. destruct (Ascii.eqb a c).
  - now rewrite IH, string_app_assoc.
  - now rewrite IH.
Qed.

Lemma replaceAll_hit (c : ascii) (r rest : string) :
  replaceAll c r (String c rest) = (r ++ replaceAll c r rest)%string.
Proof. cbn [replaceAll]. now rewrite Ascii.eqb_refl. Qed.

Lemma replaceAll_miss (c a : ascii) (r rest : string) :
  a <> c ->
  replaceAll c r (String a rest) = String a (replaceAll c r rest).
Proof.
  intros N. cbn [replaceAll]. apply Ascii.eqb_neq in N. now rewrite N.
Qed.

Ltac replace_through :=
  repeat first
    [ rewrite replaceAll_hit
    | rewrite replaceAll_miss by assumption
    | rewrite replaceAll_app ];
  reflexivity.

Lemma sanitizeInput_cons (a : ascii) (rest : string) :
  sanitizeInput (String a rest)
  = (escapeOf a ++ sanitizeInput rest)%string.
Proof.
  unfold sanitizeInput, escapeOf.
  destruct (Ascii.eqb_spec a "<") as [->|N1]; [replace_through|].
  destruct (Ascii.eqb_spec a ">") as [->|N2]; [replace_through|].
  destruct (Ascii.eqb_spec a doubleQuote) as [->|N3]; [replace_through|].
  destruct (Ascii.eqb_spec a "'") as [->|N4]; [replace_through|].
  destruct (Ascii.eqb_spec a "/") as [->|N5]; [replace_through|].
  replace_through.
Qed.

Lemma sanitizeInput_escapeEach (input : string) :
  sanitizeInput input = escapeEach input.
Proof.
  induction input as [|a rest IH]; [reflexivity|].
  rewrite sanitizeInput_cons, IH. reflexivity.
Qed.

Lemma hasMarkup_app (x y : string) :
  hasMarkup (x ++ y) = hasMarkup x || hasMarkup y.
Proof.
  induction x as [|a x IH]; [reflexivity|].
  change (String a x ++ y)%string with (String a (x ++ y)).
  cbn [hasMarkup]. now rewrite IH, orb_assoc.
Qed.

Lemma hasMarkup_escapeOf (c : ascii) : hasMarkup (escapeOf c) = false.
Proof.
  unfold escapeOf.
  destruct (Ascii.eqb c "<") eqn:E1; [reflexivity|].
  destruct (Ascii.eqb c ">") eqn:E2; [reflexivity|].
  destruct (Ascii.eqb c doubleQuote) eqn:E3; [reflexivity|].
  destruct (Ascii.eqb c "'") eqn:E4; [reflexivity|].
  destruct (Ascii.eqb c "/") eqn:E5; [reflexivity|].
  simpl. unfold isMarkup. now rewrite E1, E2, E3, E4, E5.
Qed.

Lemma hasMarkup_escapeEach (s : string) : hasMarkup (escapeEach s) = false.
Proof.
  induction s as [|c s IH]; simpl; [reflexivity|].
  now rewrite hasMarkup_app, hasMarkup_escapeOf, IH.
Qed.

Lemma escapeOf_plain (c : ascii) :
  isMarkup c = false -> escapeOf c = String c EmptyString.
Proof.
  unfold isMarkup, escapeOf. intros E.
  repeat (apply orb_false_iff in E; destruct E as [E ?]).
  now rewrite E, H, H0, H1, H2.
Qed.

Lemma escapeEach_plain (s : string) :
  hasMarkup s = false -> escapeEach s = s.
Proof.
  induction s as [|c s IH]; simpl; [reflexivity|].
  intros E. apply orb_false_iff in E. destruct E as [Ec Es].
  now rewrite escapeOf_plain, IH.
Qed.

Lemma length_escapeOf (c : ascii) : (1 <= String.length (escapeOf c))%nat.
Proof.
  unfold escapeOf.
  repeat match goal with
  | |- context [if ?b then _ else _] => destruct b
  end; simpl; lia.
Qed.

Lemma sanitizeInput_clean (input : string) :
  hasMarkup (sanitizeInput input) = false.
Proof. rewrite sanitizeInput_escapeEach. apply hasMarkup_escapeEach. Qed.

Lemma sanitizeInput_idem (input : string) :
  sanitizeInput (sanitizeInput input) = sanitizeInput input.
Proof.
  rewrite (sanitizeInput_escapeEach (sanitizeInput input)).
  apply escapeEach_plain, sanitizeInput_clean.
Qed.

(** X17: [sanitizeInput] replaces character by character and leaves
    nothing to replace. The five replacements made one after the other
    come to replacing each character on its own; the result contains none
    of the five characters, so sanitizing twice is sanitizing once; a text
    without them is returned as it is; and the result is never shorter
    than the input. *)
Theorem sanitizeInput_escapes (input : string) :
  sanitizeInput input = escapeEach input
  /\ hasMarkup (sanitizeInput input) = false
  /\ sanitizeInput (sanitizeInput input) = sanitizeInput input
  /\ (hasMarkup input = false -> sanitizeInput input = input)
  /\ (String.length input <= String.length (sanitizeInput input))%nat.
Proof.
  rewrite !sanitizeInput_escapeEach.
  pose proof (hasMarkup_escapeEach input) as Hclean.
  repeat split.
  - exact Hclean.
  - now apply escapeEach_plain.
  - apply escapeEach_plain.
  - induction input as [|c s IH]; simpl; [lia|].
    rewrite FileWalkFacts.length_string_app. pose proof (length_escapeOf c).
    simpl in Hclean. rewrite hasMarkup_app in Hclean.
    apply orb_false_iff in Hclean. destruct Hclean as [_ Hs].
    specialize (IH Hs). lia.
Qed.

(** The ampersand is not replaced, so the text cannot be recovered. *)
Lemma sanitizeInput_not_injective :
  sanitizeInput "<" = sanitizeInput "&lt;".
Proof. reflexivity. Qed.

(** *** sanitizeAllInputs *)

Section JsonInduction.
Variable P : json -> Prop.
Hypothesis P_null : P JNull.
Hypothesis P_bool : forall b, P (JBool b).
Hypothesis P_num : forall q, P (JNum q).
Hypothesis P_str : forall s, P (JStr s).
Hypothesis P_arr : forall items, Forall P items -> P (JArr items).
Hypothesis P_obj :
  forall fields, Forall (fun field => P (snd field)) fields -> P (JObj fields).

Lemma json_tree_ind (v : json) : P v.
Proof.
  revert v. fix IH 1. intros [| b | q | s | items | fields].
  - exact P_null.
  - apply P_bool.
  - apply P_num.
  - apply P_str.
  - apply P_arr. induction items as [|x items IHitems]; constructor.
    + apply IH.
    + exact IHitems.
  - apply P_obj. induction fields as [|[k x] fields IHfields]; constructor.
    + apply IH.
    + exact IHfields.
Qed.

End JsonInduction.

Lemma stringsIn_sanitizeValue (v : json) :
  stringsIn (sanitizeValue v) = map sanitizeInput (stringsIn v).
Proof.
  induction v as [| b | q | s | items IH | fields IH] using json_tree_ind;
    simpl; try reflexivity.
  - induction IH as [|x items Hx _ IHitems]; simpl; [reflexivity|].
    now rewrite map_app, Hx, IHitems.
  - induction IH as [|[k x] fields Hx _ IHfields]; simpl; [reflexivity|].
    simpl in Hx. now rewrite map_app, Hx, IHfields.
Qed.

Lemma shapeOf_sanitizeValue (v : json) :
  shapeOf (sanitizeValue v) = shapeOf v.
Proof.
  induction v as [| b | q | s | items IH | fields IH] using json_tree_ind;
    simpl; try reflexivity.
  - f_equal. rewrite map_map. apply map_ext_Forall. exact IH.
  - f_equal. rewrite map_map. apply map_ext_Forall.
    eapply Forall_impl; [|exact IH]. intros [k x] Hx. simpl in *.
    now rewrite Hx.
Qed.

Lemma sanitizeValue_idem (v : json) :
  sanitizeValue (sanitizeValue v) = sanitizeValue v.
Proof.
  induction v as [| b | q | s | items IH | fields IH] using json_tree_ind;
    simpl; try reflexivity.
  - f_equal. apply sanitizeInput_idem.
  - f_equal. rewrite map_map. apply map_ext_Forall. exact IH.
  - f_equal. rewrite map_map. apply map_ext_Forall.
    eapply Forall_impl; [|exact IH]. intros [k x] Hx. simpl in *.
    now rewrite Hx.
Qed.

Lemma sanitizePart_sanitized (part : option json) :
  sanitizedFrom part (sanitizePart part).
Proof.
  destruct part as [[| b | q | s | items | fields]|]; try reflexivity;
    try (unfold sanitizePart; simpl; now rewrite andb_false_r).
  - exists (sanitizeValue (JArr items)). split; [reflexivity|].
    rewrite stringsIn_sanitizeValue.
    split; [reflexivity|]. split; [|apply shapeOf_sanitizeValue].
    apply Forall_map. apply Forall_forall. intros s _.
    apply sanitizeInput_clean.
  - exists (sanitizeValue (JObj fields)). split; [reflexivity|].
    rewrite stringsIn_sanitizeValue.
    split; [reflexivity|]. split; [|apply shapeOf_sanitizeValue].
    apply Forall_map. apply Forall_forall. intros s _.
    apply sanitizeInput_clean.
Qed.

Lemma sanitizePart_idem (part : option json) :
  sanitizePart (sanitizePart part) = sanitizePart part.
Proof.
  destruct part as [[| b | q | s | items | fields]|]; try reflexivity;
    try (unfold sanitizePart; simpl; rewrite andb_false_r; simpl;
         now rewrite andb_false_r).
  - change (sanitizePart (Some (JArr items)))
      with (Some (JArr (map sanitizeValue items))).
    change (sanitizePart (Some (JArr (map sanitizeValue items))))
      with (Some (sanitizeValue (sanitizeValue (JArr items)))).
    now rewrite sanitizeValue_idem.
  - change (sanitizePart (Some (JObj fields)))
      with (Some (sanitizeValue (JObj fields))) at 2.
    change (sanitizePart (Some (JObj fields)))
      with (Some (sanitizeValue (JObj fields))).
    change (sanitizePart (Some (sanitizeValue (JObj fields))))
      with (Some (sanitizeValue (sanitizeValue (JObj fields)))).
    now rewrite sanitizeValue_idem.
Qed.

(** X18: [sanitizeAllInputs] rewrites the strings of the body and of the
    query and nothing else. In an array or object every string value, at
    any depth, is replaced by its sanitized text, so that none contains a
    markup character afterwards; keys, numbers, booleans and the nesting
    are untouched; anything that is not an array or object is passed on
    as it is; and running the middleware twice changes nothing more. *)
Theorem sanitizeAllInputs_strings (body query : option json) :
  let sanitized := sanitizeAllInputs body query in
  sanitizedFrom body (fst sanitized)
  /\ sanitizedFrom query (snd sanitized)
  /\ sanitizeAllInputs (fst sanitized) (snd sanitized) = sanitized.
Proof.
  unfold sanitizeAllInputs. simpl. split; [|split].
  - apply sanitizePart_sanitized.
  - apply sanitizePart_sanitized.
  - now rewrite !sanitizePart_idem.
Qed.

End ValidationFacts.

(** ** validateDataInput *)

Module DataInputFacts.
Import JsString JsValue Validation TrimFacts.

Lemma pushIf_nil (condition : bool) (message : string) :
  pushIf condition message = [] -> condition = false.
Proof. destruct condition; [discriminate|reflexivity]. Qed.

Lemma pushIf_In (condition : bool) (message m : string) :
  In m (pushIf condition message) -> condition = true /\ m = message.
Proof. destruct condition; simpl; [intros [<-|[]]; auto|intros []]. Qed.

Lemma someBadTag_defined (tags : option json) (bad : bool) :
  someBadTag tags = Some bad ->
  truthyValue tags && negb (isArray tags) = false.
Proof.
  unfold someBadTag. destruct (truthyValue tags) eqn:T; [|reflexivity].
  destruct tags as [[| | | |items|]|]; try discriminate. reflexivity.
Qed.

Lemma someBadTag_throws (tags : option json) :
  truthyValue tags = true -> isArray tags = false -> someBadTag tags = None.
Proof.
  unfold someBadTag. intros -> A.
  destruct tags as [[| | | |items|]|]; try reflexivity. discriminate.
Qed.

(** X19: the complaint about tags that are no array is never delivered.
    When [tags] is a truthy value that is not an array, the later check
    [tags.some(...)] throws a [TypeError] before any answer is sent; so no
    answer of [validateDataInput] ever lists the message that tags must
    be given as an array. *)
Theorem tags_message_never_sent (H : Host)
  (exceeds : json -> Z -> option bool) (body : dataBody) :
  (truthyValue (body_tags body) = true ->
   isArray (body_tags body) = false ->
   validateDataInput exceeds body = Throws)
  /\ (forall error messages,
         validateDataInput exceeds body = BodyStatus400 error messages ->
         ~ In tagsNotArray messages).
Proof.
  split.
  - intros T A. unfold validateDataInput, dataErrors.
    rewrite (someBadTag_throws _ T A).
    destruct (tooLong exceeds (body_title body) 255),
             (tooLong exceeds (body_content body) 10000),
             (tooLong exceeds (body_category body) 50),
             (tooLong exceeds (body_tags body) 20); reflexivity.
  - intros error messages. unfold validateDataInput.
    destruct (dataErrors exceeds body) as [errors|] eqn:E; [|discriminate].
    assert (Hno : ~ In tagsNotArray errors).
    { unfold dataErrors in E.
      destruct (tooLong exceeds (body_title body) 255); [|discriminate].
      destruct (tooLong exceeds (body_content body) 10000); [|discriminate].
      destruct (tooLong exceeds (body_category body) 50); [|discriminate].
      destruct (tooLong exceeds (body_tags body) 20); [|discriminate].
      destruct (someBadTag (body_tags body)) as [bad|] eqn:B; [|discriminate].
      apply someBadTag_defined in B. rewrite B in E.
      injection E as <-. intros Hin.
      repeat (apply in_app_or in Hin; destruct Hin as [Hin|Hin]);
        apply pushIf_In in Hin; destruct Hin as [_ Hin]; discriminate. }
    destruct errors as [|e errors].
    + destruct (sanitizeBody body); discriminate.
    + intros R. injection R as _ <-. exact Hno.
Qed.

Lemma filled_string (v : option json) (limit : Z)
  (exceeds : json -> Z -> option bool) :
  notFilledString v = false ->
  tooLong exceeds v limit = Some false ->
  exists s,
    v = Some (JStr s) /\ trim s <> EmptyString
    /\ Z.of_nat (String.length s) <= limit
    /\ rewriteString trim v = Some (Some (JStr (trim s))).
Proof.
  unfold notFilledString, tooLong, rewriteString.
  destruct v as [[| | |s| |]|]; try discriminate.
  intros F. apply orb_false_iff in F. destruct F as [F1 F2].
  apply negb_false_iff in F1. simpl. rewrite F1.
  intros L. injection L as L. apply Z.ltb_ge in L.
  exists s. repeat split; try assumption.
  intros Z0. rewrite Z0 in F2. discriminate.
Qed.

Lemma trimmed_passes (s : string) (limit : Z)
  (exceeds : json -> Z -> option bool) :
  trim s <> EmptyString ->
  Z.of_nat (String.length s) <= limit ->
  filledText limit (Some (JStr (trim s)))
  /\ notFilledString (Some (JStr (trim s))) = false
  /\ tooLong exceeds (Some (JStr (trim s))) limit = Some false
  /\ rewriteString trim (Some (JStr (trim s))) = Some (Some (JStr (trim s))).
Proof.
  intros N L. pose proof (length_trim s) as Hle.
  assert (T : truthy (trim s) = true) by (destruct (trim s); [congruence|reflexivity]).
  split; [|split; [|split]].
  - exists (trim s). repeat split; [exact N|apply trim_idem|lia].
  - unfold notFilledString. rewrite trim_idem, T, length_zero_truthy, T.
    reflexivity.
  - unfold tooLong. simpl. rewrite T. f_equal. apply Z.ltb_ge. lia.
  - unfold rewriteString. simpl. now rewrite T, trim_idem.
Qed.

Lemma category_passes (H : Host) (v : option json)
  (exceeds : json -> Z -> option bool) :
  truthyValue v && negb (isString v) = false ->
  tooLong exceeds v 50 = Some false ->
  exists v',
    rewriteString (fun c => String_toLowerCase (trim c)) v = Some v'
    /\ cleanCategory v v'.
Proof.
  unfold rewriteString, tooLong, cleanCategory.
  destruct (truthyValue v) eqn:T.
  - destruct v as [[| | |s| |]|]; try discriminate. intros _ L.
    injection L as L. apply Z.ltb_ge in L.
    eexists. split; [reflexivity|]. right. exists s.
    repeat split; [|exact L].
    intros ->. discriminate.
  - intros _ _. exists v. split; [reflexivity|]. now left.
Qed.

(** A category passes the checks and comes out of the rewriting as it
    went in exactly when it is settled. *)
Lemma category_settled (H : Host) (v : option json)
  (exceeds : json -> Z -> option bool) :
  settledCategory v
  <-> truthyValue v && negb (isString v) = false
      /\ tooLong exceeds v 50 = Some false
      /\ rewriteString (fun c => String_toLowerCase (trim c)) v = Some v.
Proof.
  unfold settledCategory, rewriteString, tooLong. split.
  - intros [T|[s [-> [L E]]]].
    + rewrite T. repeat split; reflexivity.
    + destruct (truthyValue (Some (JStr s))); [|repeat split; reflexivity].
      repeat split.
      * f_equal. apply Z.ltb_ge. exact L.
      * now rewrite E.
  - destruct (truthyValue v) eqn:T; [|now left].
    destruct v as [[| | |s| |]|]; try (intros [C _]; discriminate).
    intros [_ [L E]]. right. exists s. split; [reflexivity|].
    injection L as L. apply Z.ltb_ge in L. split; [exact L|].
    now injection E.
Qed.

Lemma trimTags_clean (items : list json) :
  existsb badTag items = false ->
  exists items',
    trimTags items = Some items'
    /\ List.length items' = List.length items
    /\ Forall cleanTag items'
    /\ existsb badTag items' = false
    /\ trimTags items' = Some items'.
Proof.
  induction items as [|tag items IH]; simpl.
  - intros _. exists []. repeat split; constructor.
  - intros B. apply orb_false_iff in B. destruct B as [Bt Bi].
    destruct (IH Bi) as [items' [E [L [C [B' E']]]]].
    destruct tag as [| | |s| |]; try discriminate.
    simpl in Bt. apply Nat.ltb_ge in Bt.
    pose proof (length_trim s) as Hle.
    rewrite E. exists (JStr (trim s) :: items'). simpl.
    split; [reflexivity|]. split; [now rewrite L|].
    split; [|split].
    + constructor; [|exact C]. exists (trim s).
      split; [reflexivity|]. split; [apply trim_idem|lia].
    + rewrite B', orb_false_r. apply Nat.ltb_ge. lia.
    + now rewrite E', trim_idem.
Qed.

Lemma tags_pass (v : option json) (exceeds : json -> Z -> option bool) :
  tooLong exceeds v 20 = Some false ->
  someBadTag v = Some false ->
  exists v',
    rewriteTags v = Some v'
    /\ cleanTags v'
    /\ truthyValue v' && negb (isArray v') = false
    /\ tooLong exceeds v' 20 = Some false
    /\ someBadTag v' = Some false
    /\ rewriteTags v' = Some v'.
Proof.
  unfold rewriteTags, tooLong, someBadTag.
  destruct (truthyValue v) eqn:T.
  - destruct v as [[| | | |items|]|]; try discriminate.
    intros L B. injection L as L. injection B as B. apply Z.ltb_ge in L.
    destruct (trimTags_clean items B) as [items' [E [Len [C [B' E']]]]].
    rewrite E. exists (Some (JArr items')).
    split; [reflexivity|]. simpl. rewrite B', E'.
    split; [|split; [|split; [|split]]]; try reflexivity.
    + right. exists items'. split; [reflexivity|]. split; [lia|exact C].
    + f_equal. apply Z.ltb_ge. lia.
  - intros _ _. exists v. rewrite !T. split; [reflexivity|].
    split; [now left|].
    split; [reflexivity|]. split; [reflexivity|]. split; reflexivity.
Qed.

Lemma metadata_clean (v : option json) :
  truthyValue v && negb (typeofObject v) = false -> cleanMetadata v.
Proof.
  unfold cleanMetadata. destruct (truthyValue v); [|now left].
  simpl. intros E. apply negb_false_iff in E. now right.
Qed.

Lemma accepted_body_fields (H : Host) (exceeds : json -> Z -> option bool)
  (body accepted : dataBody) :
  validateDataInput exceeds body = NextBody accepted ->
  sanitizeBody body = Some accepted
  /\ notFilledString (body_title body) = false
  /\ notFilledString (body_content body) = false
  /\ tooLong exceeds (body_title body) 255 = Some false
  /\ tooLong exceeds (body_content body) 10000 = Some false
  /\ truthyValue (body_category body)
     && negb (isString (body_category body)) = false.
Proof.
  unfold validateDataInput.
  destruct (dataErrors exceeds body) as [[|e errors]|] eqn:E;
    try discriminate.
  destruct (sanitizeBody body) as [body'|] eqn:S; [|discriminate].
  intros R. injection R as <-. split; [reflexivity|].
  unfold dataErrors in E.
  destruct (tooLong exceeds (body_title body) 255) as [l1|]; [|discriminate].
  destruct (tooLong exceeds (body_content body) 10000) as [l2|];
    [|discriminate].
  destruct (tooLong exceeds (body_category body) 50); [|discriminate].
  destruct (tooLong exceeds (body_tags body) 20); [|discriminate].
  destruct (someBadTag (body_tags body)); [|discriminate].
  injection E as E.
  repeat match type of E with
  | (_ ++ _ = []) =>
      apply app_eq_nil in E; let E1 := fresh "C" in destruct E as [E1 E]
  end.
  apply pushIf_nil in C, C0, C1, C4, C5. subst l1 l2.
  repeat split; assumption.
Qed.

(** X20: what [validateDataInput] lets through. The body it hands on has
    a title and a content that are non-empty trimmed strings of at most
    255 and 10000 code units. Its category is that of the request when
    that is falsy; else it is the category string of the request, which
    has at most 50 code units, trimmed and then lowered by the
    platform's [toLowerCase] (whose result may be longer). Its tags are
    falsy or an array of at most 20 trimmed strings of at most 50 code
    units; its metadata are those of the request, falsy or of type
    object. Validating that body again hands on the same body exactly
    when trimming and lowering leave its category as it is and the
    category has at most 50 code units, or is falsy. *)
Theorem validateDataInput_accepts (H : Host)
  (exceeds : json -> Z -> option bool) (body accepted : dataBody) :
  validateDataInput exceeds body = NextBody accepted ->
  cleanBody body accepted
  /\ body_metadata accepted = body_metadata body
  /\ (validateDataInput exceeds accepted = NextBody accepted
      <-> settledCategory (body_category accepted)).
Proof.
  unfold validateDataInput.
  destruct (dataErrors exceeds body) as [[|e errors]|] eqn:E;
    try discriminate.
  destruct (sanitizeBody body) as [body'|] eqn:S; [|discriminate].
  intros R. injection R as <-.
  unfold dataErrors in E.
  destruct (tooLong exceeds (body_title body) 255) as [l1|] eqn:L1;
    [|discriminate].
  destruct (tooLong exceeds (body_content body) 10000) as [l2|] eqn:L2;
    [|discriminate].
  destruct (tooLong exceeds (body_category body) 50) as [l3|] eqn:L3;
    [|discriminate].
  destruct (tooLong exceeds (body_tags body) 20) as [l4|] eqn:L4;
    [|discriminate].
  destruct (someBadTag (body_tags body)) as [bad|] eqn:B; [|discriminate].
  injection E as E.
  repeat match type of E with
  | (_ ++ _ = []) =>
      apply app_eq_nil in E; let E1 := fresh "C" in destruct E as [E1 E]
  end.
  apply pushIf_nil in C, C0, C1, C2, C3, C4, C5, C6, C7, E.
  subst l1 l2 l3 l4 bad.
  destruct (@filled_string _ _ exceeds C L1) as [t [Et [Nt [Lt Rt]]]].
  destruct (@filled_string _ _ exceeds C0 L2) as [c [Ec [Nc [Lc Rc]]]].
  destruct (@category_passes H _ exceeds C1 L3) as [g' [Rg Cg]].
  destruct (@tags_pass _ exceeds L4 B) as [a' [Ra [Ca [Pa [La [Ba Ra']]]]]].
  destruct (@trimmed_passes _ _ exceeds Nt Lt) as [Ft [Pt [Lt' Rt']]].
  destruct (@trimmed_passes _ _ exceeds Nc Lc) as [Fc [Pc [Lc' Rc']]].
  unfold sanitizeBody in S. rewrite Rt, Rc, Rg, Ra in S.
  injection S as <-.
  split; [|split; [reflexivity|]].
  - unfold cleanBody. cbn [body_title body_content body_category body_tags
                             body_metadata].
    repeat split; try assumption. now apply metadata_clean.
  - rewrite (category_settled H g' exceeds).
    unfold dataErrors, sanitizeBody.
    cbn [body_title body_content body_category body_tags body_metadata].
    rewrite Lt', Lc', La, Ba, Pt, Pc, Pa, C3, Rt', Rc', Ra'.
    cbn [pushIf app].
    destruct (tooLong exceeds g' 50) as [[|]|];
      destruct (truthyValue g' && negb (isString g'));
      destruct (rewriteString (fun c => String_toLowerCase (trim c)) g')
        as [g''|]; cbn [pushIf app]; split;
      try discriminate; try (intros [? [? ?]]; discriminate).
    + intros R. injection R as ->. repeat split; reflexivity.
    + intros [_ [_ R]]. injection R as ->. reflexivity.
Qed.

End DataInputFacts.

(** ** The POST routes *)

Module SearchPostFacts.
Import JsString JsValue Validation SearchService SearchPosts.


(** X21: the local search route. A request whose query the validation
    rejects is answered with status 400 without any call to the store.
    With [options: null] the route answers with status 500 and the text
    of the [TypeError] as message, again without any call to the store.
    Otherwise, for options whose properties have the types the service
    expects, the route searches for the trimmed query, asks the store
    exactly once, and answers with status 200, or, when the store fails,
    with status 500 and the local search's message as error and as
    message. *)
Theorem postLocal_answers (H : Host) (now : string) (db : database)
  (query : option json) (options : bodyOptions localOptions) :
  match validateSearchQuery query with
  | QueryStatus400 error message =>
      postLocal now db query options = ([], inr (BadRequest error message))
  | NextQuery trimmed =>
      match options with
      | OptionsNull =>
          postLocal now db query options
          = ([], inr (ServerError "Lokale Suche fehlgeschlagen"
                        CannotDestructureNull))
      | _ =>
          let options' :=
            match options with
            | OptionsOf o => o
            | _ => noLocalOptions
            end in
          calls (postLocal now db query options)
          = calls (searchLocal db trimmed options')
          /\ List.length (calls (postLocal now db query options)) = 1%nat
          /\ outcome (postLocal now db query options)
             = inr match outcome (searchLocal db trimmed options') with
                   | inr results =>
                       Found results trimmed None None now "local"
                   | inl _ =>
                       ServerError "Lokale Suche fehlgeschlagen"
                         (MessageOf "Lokale Suche fehlgeschlagen")
                   end
      end
  end.
Proof.
  unfold postLocal.
  destruct (validateSearchQuery query) as [trimmed|error message];
    [|reflexivity].
  assert (Hrun : forall options',
             let run :=
               tryCatch
                 (results <- searchLocal db trimmed options' ;;
                  ret (Found results trimmed None None now "local"))
                 (fun message =>
                    ret (ServerError "Lokale Suche fehlgeschlagen"
                           (MessageOf message))) in
             calls run = calls (searchLocal db trimmed options')
             /\ List.length (calls run) = 1%nat
             /\ outcome run
                = inr match outcome (searchLocal db trimmed options') with
                      | inr results =>
                          Found results trimmed None None now "local"
                      | inl _ =>
                          ServerError "Lokale Suche fehlgeschlagen"
                            (MessageOf "Lokale Suche fehlgeschlagen")
                      end).
  { intros options'. cbv zeta.
    destruct (StoreFacts.searchLocal_calls_one H db trimmed options')
      as [c [Ec Eo]].
    destruct (searchLocal db trimmed options') as [log [e|found]] eqn:E;
      unfold calls, outcome, bind, tryCatch, ret in *; cbn [fst snd] in *;
      subst log.
    - destruct Eo as [Eo | [found Eo]]; [|discriminate].
      injection Eo as ->. repeat split.
    - repeat split. }
  destruct options as [| |o]; cbn [destructured].
  - apply Hrun.
  - reflexivity.
  - apply Hrun.
Qed.


End SearchPostFacts.

(** ** Writing to the store *)

Module DataStoreFacts.
Import JsString JsValue DataStore.

Lemma maxId_bound (rows : list dataRow) (row : dataRow) :
  In row rows -> row_id row <= maxId rows.
Proof.
  induction rows as [|r rows IH]; simpl; [intros []|].
  intros [<-|Hin]; [lia|]. specialize (IH Hin). lia.
Qed.

Lemma maxId_nonneg (rows : list dataRow) : 0 <= maxId rows.
Proof. induction rows as [|r rows IH]; simpl; lia. Qed.

Lemma maxId_app (rows more : list dataRow) :
  maxId (rows ++ more) = Z.max (maxId rows) (maxId more).
Proof.
  induction rows as [|r rows IH]; simpl.
  - pose proof (maxId_nonneg more). lia.
  - rewrite IH. lia.
Qed.

Lemma maxId_filter (keep : dataRow -> bool) (rows : list dataRow) :
  maxId (filter keep rows) <= maxId rows.
Proof.
  induction rows as [|r rows IH]; simpl; [lia|].
  destruct (keep r); simpl; lia.
Qed.

Lemma filter_hasId_old (t : table) (id : Z) :
  Z.max (tb_sequence t) (maxId (tb_rows t)) < id ->
  filter (hasId id) (tb_rows t) = [].
Proof.
  intros Hid.
  assert (G : forall rows, maxId rows < id -> filter (hasId id) rows = []).
  { induction rows as [|r rows IH]; simpl; [reflexivity|].
    intros Hm. unfold hasId at 1. destruct (Z.eqb_spec (row_id r) id); [lia|].
    apply IH. lia. }
  apply G. lia.
Qed.

Lemma parseOr_round_trip (H : Host) (S : Serializer) (j fallback : json)
  (text : string) :
  roundTrips j ->
  Queries.parseOr (Some (JSON_stringify j)) text fallback = j.
Proof.
  intros [Hne Hparse]. unfold Queries.parseOr. simpl.
  destruct (JSON_stringify j) eqn:E; [congruence|]. simpl.
  now rewrite Hparse.
Qed.

Lemma parse_rowOf (H : Host) (S : Serializer) (id : Z) (data : newEntry) :
  roundTrips (ne_tags data) -> roundTrips (ne_metadata data) ->
  Queries.parseDataEntry (rowOf id data) None = entryOf id data.
Proof.
  intros Ht Hm. unfold Queries.parseDataEntry, rowOf, entryOf. simpl.
  now rewrite !parseOr_round_trip.
Qed.

Lemma filter_hasId_other (id j : Z) (data : dataRow) :
  row_id data = id -> j <> id -> filter (hasId j) [data] = [].
Proof.
  intros E N. simpl. unfold hasId. destruct (Z.eqb_spec (row_id data) j);
    [congruence|reflexivity].
Qed.

(** X23: what is inserted can be read back. On a working database
    [insertData] gives the new row an id above every id in the table;
    [getDataById] for that id then returns the entry that was inserted,
    with its tags and metadata as they were given (provided [JSON.parse]
    reads them back from their [JSON.stringify]), and returns for every
    other id what it returned before. *)
Theorem insert_then_get (H : Host) (S : Serializer) (t : table)
  (data : newEntry) :
  roundTrips (ne_tags data) -> roundTrips (ne_metadata data) ->
  let id := nextId t in
  let s' := snd (insertData data (Some t)) in
  fst (insertData data (Some t)) = inr id
  /\ (forall row, In row (tb_rows t) -> row_id row < id)
  /\ getDataById id s' = inr (Some (entryOf id data))
  /\ (forall other, other <> id ->
        getDataById other s' = getDataById other (Some t)).
Proof.
  intros Ht Hm id s'. unfold s', insertData. fold id. simpl.
  assert (Hid : Z.max (tb_sequence t) (maxId (tb_rows t)) < id)
    by (unfold id, nextId; lia).
  split; [reflexivity|]. split; [|split].
  - intros row Hin. apply maxId_bound in Hin. lia.
  - rewrite filter_app, (filter_hasId_old t Hid). simpl.
    unfold hasId. simpl. rewrite Z.eqb_refl.
    now rewrite parse_rowOf.
  - intros other N. rewrite filter_app.
    rewrite (@filter_hasId_other id other (rowOf id data)
               eq_refl N).
    now rewrite app_nil_r.
Qed.

Lemma filter_filter_hasId (id : Z) (rows : list dataRow) :
  filter (hasId id) (filter (fun row => negb (hasId id row)) rows) = [].
Proof.
  induction rows as [|r rows IH]; simpl; [reflexivity|].
  destruct (hasId id r) eqn:E; simpl; [exact IH|]. now rewrite E.
Qed.

Lemma filter_other_hasId (id j : Z) (rows : list dataRow) :
  j <> id ->
  filter (hasId j) (filter (fun row => negb (hasId id row)) rows)
  = filter (hasId j) rows.
Proof.
  intros N. induction rows as [|r rows IH]; simpl; [reflexivity|].
  destruct (hasId id r) eqn:E; simpl.
  - assert (Ej : hasId j r = false).
    { unfold hasId in *. apply Z.eqb_eq in E. apply Z.eqb_neq. congruence. }
    now rewrite Ej.
  - destruct (hasId j r); [now rewrite IH|exact IH].
Qed.

(** X24: deleting removes one id and nothing else. On a working database
    [deleteDataFromDB] reports [true] exactly when a row with the id
    exists; afterwards [getDataById] finds nothing under that id and
    returns for every other id what it returned before. *)
Theorem delete_then_get (H : Host) (t : table) (id : Z) :
  let s' := snd (deleteDataFromDB id (Some t)) in
  (fst (deleteDataFromDB id (Some t)) = inr true
   <-> exists row, In row (tb_rows t) /\ row_id row = id)
  /\ (fst (deleteDataFromDB id (Some t)) = inr true
      \/ fst (deleteDataFromDB id (Some t)) = inr false)
  /\ getDataById id s' = inr None
  /\ (forall other, other <> id ->
        getDataById other s' = getDataById other (Some t)).
Proof.
  intros s'. unfold s', deleteDataFromDB. simpl.
  split; [|split; [|split]].
  - destruct (filter (hasId id) (tb_rows t)) as [|r rest] eqn:E; simpl.
    + split; [discriminate|]. intros [row [Hin Hid]].
      assert (Hf : In row (filter (hasId id) (tb_rows t))).
      { apply filter_In. split; [exact Hin|]. unfold hasId.
        now apply Z.eqb_eq. }
      rewrite E in Hf. destruct Hf.
    + split; [|reflexivity]. intros _.
      assert (Hf : In r (filter (hasId id) (tb_rows t)))
        by (rewrite E; now left).
      apply filter_In in Hf. destruct Hf as [Hin Hid].
      exists r. split; [exact Hin|]. now apply Z.eqb_eq.
  - destruct (0 <? List.length (filter (hasId id) (tb_rows t)))%nat;
      [now left|now right].
  - now rewrite filter_filter_hasId.
  - intros other N. now rewrite filter_other_hasId.
Qed.

(** X25: an id is never given out twice. When a row is inserted and
    deleted again, the next row inserted gets the following id, not the
    one that has become free, and the deleted id stays empty. *)
Theorem deleted_id_not_reused (H : Host) (S : Serializer) (t : table)
  (data data' : newEntry) :
  let id := nextId t in
  let inserted := snd (insertData data (Some t)) in
  let deleted := snd (deleteDataFromDB id inserted) in
  fst (deleteDataFromDB id inserted) = inr true
  /\ fst (insertData data' deleted) = inr (id + 1)
  /\ getDataById id (snd (insertData data' deleted)) = inr None.
Proof.
  intros id inserted deleted.
  assert (Hid : Z.max (tb_sequence t) (maxId (tb_rows t)) < id)
    by (unfold id, nextId; lia).
  assert (Hrows : filter (fun row => negb (hasId id row))
                    (tb_rows t ++ [rowOf id data]) = tb_rows t).
  { rewrite filter_app. simpl. unfold hasId at 2. simpl.
    rewrite Z.eqb_refl. simpl. rewrite app_nil_r.
    apply forallb_filter_id. apply forallb_forall. intros row Hin.
    apply maxId_bound in Hin. unfold hasId.
    destruct (Z.eqb_spec (row_id row) id); [lia|reflexivity]. }
  unfold deleted, inserted, insertData, deleteDataFromDB. fold id.
  cbn [fst snd tb_rows tb_sequence]. rewrite Hrows.
  split; [|split].
  - rewrite filter_app, (filter_hasId_old t Hid). simpl.
    unfold hasId. simpl. now rewrite Z.eqb_refl.
  - f_equal. unfold nextId at 1. simpl. unfold id in *. lia.
  - unfold getDataById. cbn [tb_rows]. rewrite filter_app.
    rewrite (filter_hasId_old t Hid). simpl. unfold hasId. simpl.
    unfold nextId at 1 2. simpl.
    destruct (Z.eqb_spec (Z.max id (maxId (tb_rows t)) + 1) id);
      [lia|reflexivity].
Qed.

Lemma bulkInsertData_down (S : Serializer) (dataArray : list newEntry) :
  bulkInsertData dataArray None
  = (map (fun _ => NotInserted "SQLITE_ERROR") dataArray, None).
Proof.
  induction dataArray as [|d rest IH]; simpl; [reflexivity|].
  now rewrite IH.
Qed.

Lemma nextId_after_insert (S : Serializer) (t : table) (data : newEntry) :
  nextId {| tb_rows := tb_rows t ++ [rowOf (nextId t) data];
            tb_sequence := nextId t |} = nextId t + 1.
Proof.
  unfold nextId at 1. simpl. rewrite maxId_app. simpl.
  unfold nextId. pose proof (maxId_nonneg (tb_rows t)). lia.
Qed.

Lemma bulkInsertData_up (S : Serializer) (dataArray : list newEntry)
  (t : table) :
  bulkInsertData dataArray (Some t)
  = (map (fun row => Inserted (row_id row)) (rowsFrom (nextId t) dataArray),
     Some {| tb_rows := tb_rows t ++ rowsFrom (nextId t) dataArray;
             tb_sequence :=
               match dataArray with
               | [] => tb_sequence t
               | _ => nextId t + Z.of_nat (List.length dataArray) - 1
               end |}).
Proof.
  revert t. induction dataArray as [|d rest IH]; intros t.
  - simpl. rewrite app_nil_r. now destruct t.
  - cbn [bulkInsertData insertData]. rewrite IH. cbn [tb_rows tb_sequence].
    rewrite nextId_after_insert. cbn [List.length rowsFrom map].
    f_equal. f_equal. f_equal.
    + now rewrite <- app_assoc.
    + destruct rest; simpl; lia.
Qed.

Lemma rowsFrom_ids (S : Serializer) (dataArray : list newEntry) (id : Z) :
  map row_id (rowsFrom id dataArray)
  = map (fun i => id + Z.of_nat i) (seq 0 (List.length dataArray)).
Proof.
  revert id. induction dataArray as [|d rest IH]; intros id;
    [reflexivity|].
  cbn [rowsFrom map List.length seq]. rewrite IH, <- seq_shift, map_map.
  f_equal; [simpl; lia|]. apply map_ext. intros i. lia.
Qed.

(** X26: [bulkInsertData] answers for every entry. It returns one result
    per entry, in order. On a working database every entry is inserted,
    the ids are consecutive from the next free id on, and the table grows
    by exactly these rows; on a database that rejects every statement no
    entry is inserted and each result carries the error, while the call
    itself still succeeds. *)
Theorem bulkInsertData_results (S : Serializer) (dataArray : list newEntry)
  (s : store) :
  List.length (fst (bulkInsertData dataArray s)) = List.length dataArray
  /\ match s with
     | Some t =>
         fst (bulkInsertData dataArray s)
         = map (fun i => Inserted (nextId t + Z.of_nat i))
             (seq 0 (List.length dataArray))
         /\ option_map tb_rows (snd (bulkInsertData dataArray s))
            = Some (tb_rows t ++ rowsFrom (nextId t) dataArray)
     | None =>
         Forall (fun r => r = NotInserted "SQLITE_ERROR")
           (fst (bulkInsertData dataArray s))
         /\ snd (bulkInsertData dataArray s) = None
     end.
Proof.
  destruct s as [t|].
  - rewrite bulkInsertData_up. cbn [fst snd option_map tb_rows].
    rewrite length_map.
    assert (L : List.length (rowsFrom (nextId t) dataArray)
                = List.length dataArray).
    { rewrite <- (length_map row_id), rowsFrom_ids, length_map.
      apply length_seq. }
    split; [exact L|]. split; [|reflexivity].
    rewrite <- (map_map row_id Inserted), rowsFrom_ids, map_map.
    reflexivity.
  - rewrite bulkInsertData_down. simpl. rewrite length_map.
    repeat split. apply Forall_forall. intros r Hr.
    apply in_map_iff in Hr. now destruct Hr as [_ [<- _]].
Qed.

End DataStoreFacts.

(** ** The data service *)

Module DataServiceFacts.
Import JsString JsValue Validation TrimFacts DataStore DataService DataRoutes.

Lemma prepare_counts (H : Host) (clock : nat -> string * string)
  (items : list importItem) (i : nat) :
  (List.length (fst (prepare clock i items))
   + List.length (snd (prepare clock i items)) = List.length items)%nat
  /\ Forall (fun e => (i <= ie_index e < i + List.length items)%nat)
       (snd (prepare clock i items))
  /\ StronglySorted (fun a b => (ie_index a < ie_index b)%nat)
       (snd (prepare clock i items)).
Proof.
  revert i. induction items as [|item rest IH]; intros i.
  - simpl. repeat split; constructor.
  - destruct (IH (S i)) as [Hlen [Hrange Hsorted]]. cbn [prepare].
    destruct (prepare clock (S i) rest) as [validData errs].
    cbn [fst snd] in *.
    assert (Hrange' : Forall (fun e =>
              (i <= ie_index e < i + List.length (item :: rest))%nat) errs).
    { eapply Forall_impl; [|exact Hrange]. simpl. intros e He. lia. }
    destruct (entryToImport _ _ item); cbn [fst snd List.length].
    + split; [lia|]. split.
      * constructor; [simpl; lia|exact Hrange'].
      * constructor; [exact Hsorted|].
        eapply Forall_impl; [|exact Hrange]. simpl. intros e He. lia.
    + split; [lia|]. split; [exact Hrange'|exact Hsorted].
Qed.

Lemma bulkInsertData_rows (S : Serializer) (validData : list newEntry)
  (s : store) :
  match s with
  | Some t =>
      option_map tb_rows (snd (bulkInsertData validData s))
      = Some (tb_rows t ++ rowsFrom (nextId t) validData)
  | None => snd (bulkInsertData validData s) = None
  end.
Proof.
  destruct s as [t|].
  - now rewrite DataStoreFacts.bulkInsertData_up.
  - now rewrite DataStoreFacts.bulkInsertData_down.
Qed.

(** X27: what [importData] reports. Every item is counted once, as
    imported or as failed; at most ten errors are reported, the first
    ones, by rising index. The counts are settled before the store is
    written, so they do not depend on it: on a working database the table
    grows by one row per item counted as imported, while on a database
    that rejects every statement nothing is stored and the same number is
    reported as imported. *)
Theorem importData_report (H : Host) (S : Serializer)
  (clock : nat -> string * string) (dataArray : list importItem)
  (s : store) :
  let report := fst (importData clock dataArray s) in
  let s' := snd (importData clock dataArray s) in
  (imported report + failed report = List.length dataArray)%nat
  /\ List.length (errors report) = Nat.min (failed report) 10
  /\ StronglySorted (fun a b => (ie_index a < ie_index b)%nat)
       (errors report)
  /\ Forall (fun e => (ie_index e < List.length dataArray)%nat)
       (errors report)
  /\ report = fst (importData clock dataArray None)
  /\ match s with
     | Some t =>
         exists rows,
           option_map tb_rows s' = Some (tb_rows t ++ rows)
           /\ List.length rows = imported report
     | None => s' = None
     end.
Proof.
  intros report s'. unfold report, s', importData.
  destruct (prepare_counts H clock dataArray 0) as [Hlen [Hrange Hsorted]].
  destruct (prepare clock 0 dataArray) as [validData errs].
  cbn [fst snd imported failed errors] in *.
  assert (Hcut : exists rest,
             errs = (if (10 <? List.length errs)%nat
                     then JsArray.slice0 10 errs else errs) ++ rest).
  { destruct (10 <? List.length errs)%nat.
    - apply JsArrayFacts.slice0_prefix.
    - exists []. now rewrite app_nil_r. }
  destruct Hcut as [rest Hcut].
  split; [exact Hlen|]. split; [|split; [|split; [|split]]].
  - destruct (Nat.ltb_spec 10 (List.length errs)).
    + unfold JsArray.slice0. simpl. rewrite length_firstn. lia.
    + lia.
  - rewrite Hcut in Hsorted.
    now apply JsArrayFacts.StronglySorted_app_l in Hsorted.
  - rewrite Hcut in Hrange. apply Forall_app in Hrange.
    destruct Hrange as [Hrange _].
    eapply Forall_impl; [|exact Hrange]. simpl. intros e He. lia.
  - reflexivity.
  - destruct s as [t|].
    + destruct validData as [|d validData'] eqn:Ev.
      * exists []. simpl. now rewrite app_nil_r.
      * rewrite <- Ev. pose proof (bulkInsertData_rows S validData (Some t))
          as Hrows. simpl in Hrows.
        exists (rowsFrom (nextId t) validData). split; [exact Hrows|].
        rewrite <- (length_map row_id), DataStoreFacts.rowsFrom_ids.
        rewrite length_map. apply length_seq.
    + destruct validData as [|d validData']; [reflexivity|].
      pose proof (bulkInsertData_rows S (d :: validData') None) as Hrows.
      exact Hrows.
Qed.

(** X28: a body that passed the validation may still not be stored. On a
    working database [POST /api/data] stores a validated body and answers
    with status 201 when the category of the request is left out or is a
    string; the row gets the next free id and the validated title and
    content. When the category is [null], [false] or 0 the validation
    lets the body pass as well, but adding it throws, the route answers
    with status 500 and nothing is stored. *)
Theorem postData_after_validation (H : Host) (S : Serializer)
  (exceeds : json -> Z -> option bool) (created updated : string)
  (body accepted : dataBody) (t : table) :
  validateDataInput exceeds body = NextBody accepted ->
  match body_category body with
  | None | Some (JStr _) =>
      exists entry,
        postData exceeds created updated body (Some t)
        = (Created (nextId t) entry "Daten erfolgreich hinzugefügt",
           Some {| tb_rows := tb_rows t ++ [rowOf (nextId t) entry];
                   tb_sequence := nextId t |})
        /\ body_title accepted = Some (JStr (ne_title entry))
        /\ body_content accepted = Some (JStr (ne_content entry))
        /\ ne_created_at entry = created
        /\ ne_updated_at entry = updated
  | Some _ =>
      postData exceeds created updated body (Some t)
      = (Failed "Daten konnten nicht hinzugefügt werden", Some t)
  end.
Proof.
  intros V. unfold postData. rewrite V.
  destruct (@DataInputFacts.accepted_body_fields H exceeds body accepted V)
    as [Sb [Nt [Nc [Lt [Lc Cat]]]]].
  destruct (@DataInputFacts.filled_string _ _ exceeds Nt Lt)
    as [ti0 [_ [Nti [_ Rt]]]].
  destruct (@DataInputFacts.filled_string _ _ exceeds Nc Lc)
    as [co0 [_ [Nco [_ Rc]]]].
  unfold sanitizeBody in Sb. rewrite Rt, Rc in Sb.
  destruct (rewriteString (fun c => String_toLowerCase (trim c))
              (body_category body)) as [category'|] eqn:Ecat;
    [|discriminate].
  destruct (rewriteTags (body_tags body)) as [tags'|]; [|discriminate].
  injection Sb as <-.
  cbn [body_title body_content body_category body_tags body_metadata].
  set (ti := trim ti0) in *. set (co := trim co0) in *.
  assert (Tti : truthy ti = true) by (destruct ti; [congruence|reflexivity]).
  assert (Tco : truthy co = true) by (destruct co; [congruence|reflexivity]).
  assert (Rti : trim ti = ti) by apply trim_idem.
  assert (Rco : trim co = co) by apply trim_idem.
  unfold addData, entryToAdd.
  cbn [body_title body_content body_category body_tags body_metadata
       truthyValue].
  rewrite Tti, Tco. cbn [negb orb callTrim]. rewrite Rti, Rco.
  unfold rewriteString in Ecat.
  destruct (body_category body) as [[| b | q | g | items | fields]|];
    simpl in Ecat, Cat.
  - injection Ecat as <-. reflexivity.
  - destruct b; [discriminate|]. injection Ecat as <-. reflexivity.
  - destruct (negb (Qeq_bool q 0)); [discriminate|].
    injection Ecat as <-. reflexivity.
  - destruct (truthy g); injection Ecat as <-; simpl;
      eexists; repeat split.
  - discriminate.
  - discriminate.
  - injection Ecat as <-. simpl. eexists. repeat split.
Qed.

End DataServiceFacts.

(** ** Updating an entry *)

Module UpdateFacts.
Import JsString JsValue Validation DataStore DataService.

Lemma updateRow_id (S : Serializer) (id : Z) (u : updates) (row : dataRow) :
  row_id (updateRow id u row) = row_id row.
Proof. unfold updateRow. now destruct (hasId id row). Qed.

Lemma filter_hasId_updated (S : Serializer) (id other : Z) (u : updates)
  (rows : list dataRow) :
  filter (hasId other) (map (updateRow id u) rows)
  = map (updateRow id u) (filter (hasId other) rows).
Proof.
  induction rows as [|r rows IH]; simpl; [reflexivity|].
  assert (E : hasId other (updateRow id u r) = hasId other r)
    by (unfold hasId; now rewrite updateRow_id).
  rewrite E. destruct (hasId other r); simpl; now rewrite IH.
Qed.

Lemma updateRow_other (S : Serializer) (id other : Z) (u : updates)
  (rows : list dataRow) :
  other <> id ->
  map (updateRow id u) (filter (hasId other) rows)
  = filter (hasId other) rows.
Proof.
  intros N. induction rows as [|r rows IH]; simpl; [reflexivity|].
  destruct (hasId other r) eqn:E; [|exact IH]. simpl. rewrite IH.
  f_equal. unfold updateRow, hasId in *. apply Z.eqb_eq in E.
  destruct (Z.eqb_spec (row_id r) id); [congruence|reflexivity].
Qed.

Lemma updatesOf_stamped (H : Host) (updated : string) (input : dataBody)
  (u : updates) :
  updatesOf updated input = inr u ->
  up_updated_at u = Some updated /\ noFields u = false.
Proof.
  unfold updatesOf.
  destruct (setWith callTrim (body_title input)); [|discriminate].
  destruct (setWith callTrim (body_content input)); [|discriminate].
  destruct (setWith callToLowerCase (body_category input)); [|discriminate].
  intros E. injection E as <-. split; reflexivity.
Qed.

(** X29: an update touches one entry and always stamps it. For an id
    other than 0, [updateData] either fails before the store is touched,
    with a [TypeError] from a field that is no string, or runs the update:
    it never fails for lack of fields, because [updated_at] is always set.
    No row is added or removed, the entries under all other ids read as
    before, the result is [null] exactly when no row has the id, and an
    entry returned carries the id and the new [updated_at]. *)
Theorem updateData_one_entry (H : Host) (S : Serializer) (updated : string)
  (key : Z) (input : dataBody) (t : table) :
  key <> 0 ->
  match updatesOf updated input with
  | inl e =>
      updateData updated key input (Some t)
      = (inl (Prefixed updateFailed e), Some t)
  | inr _ =>
      exists result t',
        updateData updated key input (Some t) = (inr result, Some t')
        /\ map row_id (tb_rows t') = map row_id (tb_rows t)
        /\ (forall other, other <> key ->
              getDataById other (Some t') = getDataById other (Some t))
        /\ (result = None <-> filter (hasId key) (tb_rows t) = [])
        /\ (forall entry, result = Some entry ->
              id entry = key /\ updated_at entry = updated)
  end.
Proof.
  intros N. unfold updateData. destruct (Z.eqb_spec key 0); [contradiction|].
  destruct (updatesOf updated input) as [e|u] eqn:U; [reflexivity|].
  destruct (updatesOf_stamped H _ _ U) as [Stamp Fields].
  unfold updateDataInDB. rewrite Fields.
  set (t' := {| tb_rows := map (updateRow key u) (tb_rows t);
                tb_sequence := tb_sequence t |}).
  assert (Hids : map row_id (tb_rows t') = map row_id (tb_rows t)).
  { unfold t'. simpl. rewrite map_map. apply map_ext. intros row.
    apply updateRow_id. }
  assert (Hother : forall other, other <> key ->
            getDataById other (Some t') = getDataById other (Some t)).
  { intros other No. unfold getDataById, t'. simpl.
    now rewrite filter_hasId_updated, updateRow_other. }
  destruct (filter (hasId key) (tb_rows t)) as [|row found] eqn:F.
  - simpl. exists None, t'. repeat split; try assumption; discriminate.
  - simpl. unfold getDataById. cbn [tb_rows t'].
    rewrite filter_hasId_updated, F. simpl.
    eexists _, t'. split; [reflexivity|].
    split; [exact Hids|]. split; [exact Hother|]. split.
    + split; discriminate.
    + intros entry E. injection E as <-. simpl.
      assert (Hrow : hasId key row = true).
      { assert (Hin : In row (filter (hasId key) (tb_rows t)))
          by (rewrite F; now left).
        now apply filter_In in Hin. }
      unfold updateRow. rewrite Hrow. simpl. rewrite Stamp. simpl.
      split; [|reflexivity]. unfold hasId in Hrow. now apply Z.eqb_eq.
Qed.

End UpdateFacts.

(** ** Suggestions of the data service *)

Module DataSuggestionFacts.
Import JsString JsValue DataListing DataService DataSuggestions.

Lemma addOnce_keeps (H : Host) (query : string) (allTags : list string)
  (tag : string) :
  Forall (fun s => includesNoCase s query = true) allTags ->
  includesNoCase tag query = true ->
  Forall (fun s => includesNoCase s query = true)
    (addOnce String.eqb allTags tag).
Proof.
  intros Hall Htag. unfold addOnce.
  destruct (existsb (String.eqb tag) allTags); [exact Hall|].
  apply Forall_app. split; [exact Hall|]. now constructor.
Qed.

Lemma addTags_matching (H : Host) (query : string) (items : list json)
  (allTags found : list string) :
  Forall (fun s => includesNoCase s query = true) allTags ->
  addTags query items allTags = Some found ->
  Forall (fun s => includesNoCase s query = true) found.
Proof.
  revert allTags. induction items as [|tag items IH]; intros allTags Hall.
  - simpl. intros E. now injection E as <-.
  - simpl. destruct tag as [| | |s| |]; try discriminate.
    apply IH. destruct (includesNoCase s query) eqn:E; [|exact Hall].
    now apply addOnce_keeps.
Qed.

Lemma collectTags_matching (H : Host) (query : string)
  (data : list dataEntry)
  (allTags found : list string) :
  Forall (fun s => includesNoCase s query = true) allTags ->
  collectTags query data allTags = Some found ->
  Forall (fun s => includesNoCase s query = true) found.
Proof.
  revert allTags. induction data as [|item data IH]; intros allTags Hall.
  - simpl. intros E. now injection E as <-.
  - cbn [collectTags].
    destruct (truthyValue (Some (tags item))); [|now apply IH].
    destruct (tags item) as [| | | |items|]; try discriminate.
    destruct (addTags query items allTags) as [allTags'|] eqn:E;
      [|discriminate].
    apply IH. eapply addTags_matching; eassumption.
Qed.

Lemma filterCategories_matching (H : Host) (query : string)
  (categories : list (option string)) (found : list string) :
  filterCategories query categories = Some found ->
  Forall (fun s => includesNoCase s query = true) found.
Proof.
  revert found. induction categories as [|c categories IH]; intros found.
  - simpl. intros E. injection E as <-. constructor.
  - simpl. destruct c as [c|]; [|discriminate].
    destruct (filterCategories query categories) as [kept|]; [|discriminate].
    intros E. injection E as <-. specialize (IH kept eq_refl).
    destruct (includesNoCase c query) eqn:Ec; [|exact IH].
    now constructor.
Qed.

Lemma slice0_Forall (A : Type) (P : A -> Prop) (limit : Z) (l : list A) :
  Forall P l -> Forall P (JsArray.slice0 limit l).
Proof.
  intros Hall. apply Forall_forall. intros x Hx.
  apply JsArrayFacts.slice0_In in Hx. rewrite Forall_forall in Hall. auto.
Qed.

(** X30: every suggestion contains the query. Whatever the type asked
    for, each suggestion [getDataSuggestions] returns contains the query
    when both are put in lower case; with a limit that is not negative
    there are at most [limit] of them; title suggestions are titles of
    stored rows; and a type other than title, category and tags gives no
    suggestion. *)
Theorem getDataSuggestions_match (H : Host) (rows : list dataRow)
  (query : string) (options : suggestOptions) (suggestions : list string) :
  getDataSuggestions (Some rows) query options = inr suggestions ->
  let limit := match sg_limit options with Some l => l | None => 5 end in
  let type := match sg_type options with Some t => t | None => "title" end in
  Forall (fun s => includesNoCase s query = true) suggestions
  /\ (0 <= limit -> Z.of_nat (List.length suggestions) <= limit)
  /\ (type = "title" ->
      Forall (fun s => exists row, In row rows /\ row_title row = s)
        suggestions)
  /\ (type <> "title" -> type <> "category" -> type <> "tags" ->
      suggestions = []).
Proof.
  intros E limit type. unfold getDataSuggestions in E.
  fold limit in E. fold type in E. cbn [getDataFromDB] in E.
  set (data := map (fun row => Queries.parseDataEntry row None)
                 (listedRows {| ls_category := None; ls_search := Some query;
                                ls_limit := Some (limit * 3);
                                ls_offset := None; ls_all := None |} rows))
    in E.
  cbv zeta in E.
  destruct (String.eqb_spec type "title") as [Et|Nt].
  - injection E as <-. split; [|split; [|split]].
    + apply slice0_Forall. apply Forall_forall. intros s Hs.
      apply filter_In in Hs. tauto.
    + apply AggregatorMore.slice0_length.
    + intros _. apply slice0_Forall. apply Forall_forall. intros s Hs.
      apply filter_In in Hs. destruct Hs as [Hs _].
      unfold data in Hs. rewrite map_map in Hs. simpl in Hs.
      apply in_map_iff in Hs. destruct Hs as [row [<- Hrow]].
      exists row. split; [|reflexivity].
      unfold listedRows, pageRows in Hrow.
      assert (Hsorted : In row
                (Sql.orderBy Queries.byUpdatedDesc
                   (filter (fun row0 =>
                              Queries.categoryFilter None row0
                              && searchFilter (Some query) row0) rows))).
      { cbn [ls_all ls_limit ls_offset ls_category ls_search] in Hrow.
        destruct (negb false && truthyInt (Some (limit * 3))).
        - cbn [truthyInt] in Hrow.
          now apply StoreFacts.limitRows_In in Hrow.
        - exact Hrow. }
      apply StoreFacts.orderBy_In in Hsorted.
      now apply filter_In in Hsorted.
    + intros Ne. contradiction.
  - destruct (String.eqb_spec type "category") as [Ec|Nc].
    + destruct (filterCategories query _) as [found|] eqn:F; [|discriminate].
      injection E as <-. split; [|split; [|split]].
      * apply slice0_Forall. eapply filterCategories_matching. exact F.
      * apply AggregatorMore.slice0_length.
      * intros Ne. contradiction.
      * intros _ Ne. contradiction.
    + destruct (String.eqb_spec type "tags") as [Eg|Ng].
      * destruct (collectTags query data []) as [found|] eqn:F;
          [|discriminate].
        injection E as <-. split; [|split; [|split]].
        -- apply slice0_Forall.
           eapply collectTags_matching; [|exact F]. constructor.
        -- apply AggregatorMore.slice0_length.
        -- intros Ne. contradiction.
        -- intros _ _ Ne. contradiction.
      * injection E as <-. rewrite JsArrayFacts.slice0_nil.
        repeat split; try constructor. simpl. intros Hl. lia.
Qed.

End DataSuggestionFacts.

(** ** The properties above on concrete inputs *)

Module MoreWitnesses.
Import JsString JsValue Validation SearchService SearchPosts DataListing.
Import DataStore DataService DataRoutes DataSuggestions MoreExamples.

Lemma validateDataInput_sample :
  validateDataInput (H := Examples.plainHost) neverExceeds sampleBody
  = NextBody sampleAccepted
  /\ cleanBody (H := Examples.plainHost) sampleBody sampleAccepted
  /\ body_metadata sampleAccepted = body_metadata sampleBody
  /\ (validateDataInput (H := Examples.plainHost) neverExceeds
        sampleAccepted
      = NextBody sampleAccepted
      <-> settledCategory (H := Examples.plainHost)
            (body_category sampleAccepted)).
Proof.
  assert (Hrun : validateDataInput (H := Examples.plainHost) neverExceeds
                   sampleBody
                 = NextBody sampleAccepted) by reflexivity.
  split; [exact Hrun|].
  exact (@DataInputFacts.validateDataInput_accepts Examples.plainHost
           neverExceeds sampleBody sampleAccepted Hrun).
Defined.


Lemma getData_second_page :
  1 <= 2
  /\ exists whole,
       getData (H := Examples.plainHost) (Some Examples.sampleRows)
         {| gd_page := None; gd_limit := None; gd_category := None;
            gd_search := None; gd_all := Some true |}
       = inr {| entries := whole; total := Z.of_nat (List.length whole) |}
       /\ getData (H := Examples.plainHost) (Some Examples.sampleRows)
            {| gd_page := Some 2; gd_limit := Some 1; gd_category := None;
               gd_search := None; gd_all := None |}
          = inr {| entries := pageOf 1 2 whole;
                   total := Z.of_nat (List.length whole) |}.
Proof.
  assert (Hpage : 1 <= 2) by lia.
  split; [exact Hpage|].
  destruct (@DataListingFacts.getData_pages Examples.plainHost
              Examples.sampleRows None None 1 2 Hpage)
    as [whole [Hall [Hpaged _]]].
  exists whole. split; [exact Hall|]. apply Hpaged. lia.
Defined.

Lemma insert_then_get_sample :
  (roundTrips (H := Examples.plainHost) (H0 := stringifyEmptyOnly)
     (ne_tags sampleNew)
   /\ roundTrips (H := Examples.plainHost) (H0 := stringifyEmptyOnly)
        (ne_metadata sampleNew))
  /\ getDataById (H := Examples.plainHost) 3
       (snd (insertData (H := stringifyEmptyOnly) sampleNew
               (Some sampleTable)))
     = inr (Some (entryOf 3 sampleNew)).
Proof.
  assert (Htags : roundTrips (H := Examples.plainHost)
                    (H0 := stringifyEmptyOnly) (ne_tags sampleNew))
    by (split; [discriminate|reflexivity]).
  assert (Hmeta : roundTrips (H := Examples.plainHost)
                    (H0 := stringifyEmptyOnly) (ne_metadata sampleNew))
    by (split; [discriminate|reflexivity]).
  split; [split; assumption|].
  exact (proj1 (proj2 (proj2
           (@DataStoreFacts.insert_then_get Examples.plainHost
              stringifyEmptyOnly sampleTable sampleNew Htags Hmeta)))).
Defined.

Lemma postData_null_category :
  validateDataInput (H := Examples.plainHost) neverExceeds nullCategoryBody
  = NextBody nullCategoryBody
  /\ postData (H := Examples.plainHost) (H0 := stringifyEmptyOnly)
       neverExceeds
       "2024-04-01T00:00:00.000Z" "2024-04-01T00:00:00.001Z"
       nullCategoryBody (Some sampleTable)
     = (Failed "Daten konnten nicht hinzugefügt werden", Some sampleTable).
Proof.
  assert (Hrun : validateDataInput (H := Examples.plainHost) neverExceeds
                   nullCategoryBody
                 = NextBody nullCategoryBody) by reflexivity.
  split; [exact Hrun|].
  exact (@DataServiceFacts.postData_after_validation Examples.plainHost
           stringifyEmptyOnly neverExceeds "2024-04-01T00:00:00.000Z"
           "2024-04-01T00:00:00.001Z"
           nullCategoryBody nullCategoryBody sampleTable Hrun).
Defined.

Lemma updateData_sample :
  1 <> 0
  /\ exists result t',
       updateData (H := Examples.plainHost) (H0 := stringifyEmptyOnly)
         "2024-05-01T00:00:00.000Z" 1 titleOnly (Some sampleTable)
       = (inr result, Some t')
       /\ map row_id (tb_rows t') = map row_id (tb_rows sampleTable).
Proof.
  assert (Hkey : 1 <> 0) by lia.
  split; [exact Hkey|].
  destruct (@UpdateFacts.updateData_one_entry Examples.plainHost
              stringifyEmptyOnly "2024-05-01T00:00:00.000Z" 1 titleOnly
              sampleTable Hkey)
    as [result [t' [Hrun [Hids _]]]].
  exists result, t'. split; [exact Hrun|exact Hids].
Defined.

Lemma getDataSuggestions_sample :
  getDataSuggestions (H := Examples.plainHost) (Some Examples.sampleRows)
    "kon" {| sg_limit := None; sg_type := None |} = inr ["Kontakt"]
  /\ Forall (fun s => includesNoCase (H := Examples.plainHost) s "kon"
                      = true) ["Kontakt"].
Proof.
  assert (Hrun : getDataSuggestions (H := Examples.plainHost)
                   (Some Examples.sampleRows) "kon"
                   {| sg_limit := None; sg_type := None |}
                 = inr ["Kontakt"]) by (vm_compute; reflexivity).
  split; [exact Hrun|].
  exact (proj1 (@DataSuggestionFacts.getDataSuggestions_match
                  Examples.plainHost Examples.sampleRows "kon"
                  {| sg_limit := None; sg_type := None |} ["Kontakt"] Hrun)).
Defined.

End MoreWitnesses.
